(** * i18next-cli: extractor driver and interpolation linter

    A shallow embedding of
      - [src/extractor/core/extractor.ts] ([runExtractor], [processFile]), and
      - the linter module ([isI18nextOptionKey], [extractInterpolationKeys],
        [lintInterpolationParams], [Linter.wrapError]),
    together with the properties the specification states about them.

    Conventions.
    - A JavaScript string is a [string]: the sequence of its code units, for
      code units below 256.
    - A value of type [any] is a [JsVal], a tree of primitives, arrays and
      objects; an object is the list of its own properties in [Object.keys]
      order.
    - Code that calls outwards (file system, parser, logger, plugins, the
      modules of the repository that are used but not defined in these files)
      is a [Prog]: a tree of outward calls, each continued by the answer the
      call gets.  A run against a handler yields the trace of calls. *)

From Stdlib Require Import String Ascii List Bool Arith ZArith Lia DecimalString.
Import ListNotations.
Local Open Scope list_scope.
Local Open Scope string_scope.

Set Implicit Arguments.
Set Warnings "-register-all".

(* ------------------------------------------------------------------ *)
(** ** JavaScript strings *)

Module JsString.

(** [s.startsWith(p)] *)
Definition startsWith (s p : string) : bool := String.prefix p s.

(** [s.slice(n)] for a non-negative [n] *)
Fixpoint slice (n : nat) (s : string) : string :=
  match n, s with
  | O, _ => s
  | S n', String _ s' => slice n' s'
  | S _, EmptyString => EmptyString
  end.

(** White space of [String.prototype.trim] and of the regular expression
    class [\s], among the code units below 256: TAB, LF, VT, FF, CR, SP and
    NBSP. *)
Definition isWhiteSpace (c : ascii) : bool :=
  let n := nat_of_ascii c in
  ((9 <=? n) && (n <=? 13) || (n =? 32) || (n =? 160))%nat.

(** [s.trim().length > 0]: some code unit of [s] is not white space. *)
Fixpoint hasNonWhiteSpace (s : string) : bool :=
  match s with
  | EmptyString => false
  | String c s' => negb (isWhiteSpace c) || hasNonWhiteSpace s'
  end.

(** Truthiness of a string: it is not empty. *)
Definition truthy (s : string) : bool :=
  match s with EmptyString => false | _ => true end.

(** The class [\w]: [A-Za-z0-9_]. *)
Definition isWordChar (c : ascii) : bool :=
  let n := nat_of_ascii c in
  ((65 <=? n) && (n <=? 90) || (97 <=? n) && (n <=? 122)
   || (48 <=? n) && (n <=? 57) || (n =? 95))%nat.

(** [s.toLowerCase()] on code units below 256: [A-Z] and the capital
    letters of Latin-1 (192 to 222, but for the multiplication sign 215). *)
Definition lowerChar (c : ascii) : ascii :=
  let n := nat_of_ascii c in
  if ((65 <=? n) && (n <=? 90)
      || (192 <=? n) && (n <=? 222) && negb (n =? 215))%nat
  then ascii_of_nat (n + 32) else c.

Fixpoint toLowerCase (s : string) : string :=
  match s with
  | EmptyString => EmptyString
  | String c s' => String (lowerChar c) (toLowerCase s')
  end.

(** [s.indexOf(pat, from)]: the least position at or after [from] where
    [pat] occurs; [from] beyond the end is clamped to the length, so the
    empty pattern is found at the end. [i] is the position of the head of
    [s] in the whole string. *)
Fixpoint indexOfAt (pat s : string) (from i : nat) : option nat :=
  if (from <=? i)%nat && String.prefix pat s then Some i
  else match s with
       | EmptyString => None
       | String _ s' => indexOfAt pat s' from (S i)
       end.

Definition indexOf (s pat : string) (from : nat) : option nat :=
  indexOfAt pat s (Nat.min from (String.length s)) 0.

(** [s.substring(0, pos).split('\n').length]: one more than the number of
    line feeds among the first [pos] code units. *)
Fixpoint lineFeedsBefore (s : string) (pos : nat) : nat :=
  match pos, s with
  | S pos', String c s' =>
      (if (nat_of_ascii c =? 10)%nat then 1 else 0) + lineFeedsBefore s' pos'
  | _, _ => 0
  end.

(** [k.split('.')[0]]: the part before the first dot. *)
Fixpoint beforeFirstDot (s : string) : string :=
  match s with
  | EmptyString => EmptyString
  | String c s' =>
      if (nat_of_ascii c =? 46)%nat then EmptyString
      else String c (beforeFirstDot s')
  end.

End JsString.

(* ------------------------------------------------------------------ *)
(** ** Values thrown and caught *)

(** An [Error] instance: its [name], [message] and [stack]. *)
Record ErrorObj := mkError {
  err_name : string;
  err_message : string;
  err_stack : option string
}.

(** A property of a caught value, as a [catch] clause reads it: a string, a
    truthy value that is no string, known by what [String] makes of it, or
    nothing ([undefined], [null] or another falsy value that is no
    string). *)
Inductive Carried :=
| NoValue
| StringValue (s : string)
| OtherValue (rendered : string).

(** What a [catch] clause can receive.  [ThrownOther] is any value that is
    neither an [Error], a string, [null] nor [undefined]: it carries its
    [message] and [stack] properties, and the string that [String(v)] and
    [v.toString()] give. *)
Inductive Thrown :=
| ThrownError (e : ErrorObj)
| ThrownString (s : string)
| ThrownNull
| ThrownUndefined
| ThrownOther (message stack : Carried) (rendered : string).

(** Result of a call that may throw. *)
Inductive Outcome (A : Type) :=
| Returned (a : A)
| Threw (e : Thrown).
Arguments Threw {A} e.

(** [Error.prototype.toString]. *)
Definition errorToString (e : ErrorObj) : string :=
  match err_name e, err_message e with
  | EmptyString, m => m
  | n, EmptyString => n
  | n, m => n ++ ": " ++ m
  end.

(** [String(v)] of a caught value. *)
Definition stringOfThrown (v : Thrown) : string :=
  match v with
  | ThrownError e => errorToString e
  | ThrownString s => s
  | ThrownNull => "null"
  | ThrownUndefined => "undefined"
  | ThrownOther _ _ r => r
  end.


(* ------------------------------------------------------------------ *)
(** ** Values of type [any] *)

Inductive JsVal :=
| JUndefined
| JNull
| JBool (b : bool)
| JNum (n : Z)
| JStr (s : string)
| JArr (items : list JsVal)
| JObj (fields : list (string * JsVal)).

Module Js.

Definition truthy (v : JsVal) : bool :=
  match v with
  | JUndefined | JNull => false
  | JBool b => b
  | JNum n => negb (n =? 0)%Z
  | JStr s => JsString.truthy s
  | JArr _ | JObj _ => true
  end.

Definition nullish (v : JsVal) : bool :=
  match v with
  | JUndefined | JNull => true
  | _ => false
  end.

(** [a ?? b] *)
Definition coalesce (a b : JsVal) : JsVal := if nullish a then b else a.

(** [a || b] *)
Definition or (a b : JsVal) : JsVal := if truthy a then a else b.

Fixpoint lookup (k : string) (fields : list (string * JsVal)) : JsVal :=
  match fields with
  | [] => JUndefined
  | (k', v) :: rest => if String.eqb k' k then v else lookup k rest
  end.

(** [v.k] and [v?.k] for the property names the linter reads ([type],
    [value], [name], [callee], ...): primitives, arrays, [null] and
    [undefined] have none of them.  Where the source reads a property of a
    possibly nullish value without [?.], the model tests [nullish] first. *)
Definition prop (v : JsVal) (k : string) : JsVal :=
  match v with
  | JObj fields => lookup k fields
  | _ => JUndefined
  end.

(** [v?.[i]] for [i] = 0, 1 *)
Definition elem (v : JsVal) (i : nat) : JsVal :=
  match v with
  | JArr items => nth i items JUndefined
  | JStr s => match String.get i s with
              | Some c => JStr (String c EmptyString)
              | None => JUndefined
              end
  | JObj fields => lookup (match i with O => "0" | _ => "1" end) fields
  | _ => JUndefined
  end.

(** [v === s] for a string [s] *)
Definition isStr (v : JsVal) (s : string) : bool :=
  match v with
  | JStr s' => String.eqb s' s
  | _ => false
  end.

End Js.

(* ------------------------------------------------------------------ *)
(** ** Configuration *)

Inductive OutputFormat := json | json5 | yaml | js | ts | js_esm | js_cjs.

Inductive Indentation :=
| IndentNumber (n : Z)
| IndentString (s : string).

Record Plugin := mkPlugin {
  plugin_name : string;
  has_onLoad : bool;      (* [plugin.onLoad] is defined *)
  has_afterSync : bool    (* [plugin.afterSync] is defined *)
}.

(** [config.extract]; [extract_rest] holds the properties these files do not
    read ([input], [output], separators, ...). *)
Record ExtractConfig := mkExtractConfig {
  primaryLanguage : option string;
  secondaryLanguages : option (list string);
  functions : option (list string);
  transComponents : option (list string);
  outputFormat : option OutputFormat;
  indentation : option Indentation;
  extractFromComments : option bool;
  interpolationPrefix : option string;
  interpolationSuffix : option string;
  extract_rest : list (string * JsVal)
}.

Record LintConfig := mkLintConfig {
  checkInterpolationParams : option bool
}.

Record Config := mkConfig {
  locales : list string;
  extract : ExtractConfig;
  lint : option LintConfig;
  plugins : option (list Plugin)
}.

(* ------------------------------------------------------------------ *)
(** ** The linter: interpolation parameters *)

Module Linter.

(** Result of the linter's pure functions.  [TypeError] is the exception
    JavaScript raises on [undefined.map] or on a property of [null].
    [Unmodelled] marks a [StringLiteral] node whose [value] is not a string
    or whose [raw] is neither a string nor nullish, which the parser never
    produces and the embedding does not cover. *)
Inductive Res (A : Type) :=
| Ok (a : A)
| TypeError
| Unmodelled.
Arguments TypeError {A}.
Arguments Unmodelled {A}.

Definition bind {A B} (r : Res A) (f : A -> Res B) : Res B :=
  match r with
  | Ok a => f a
  | TypeError => TypeError
  | Unmodelled => Unmodelled
  end.

Notation "x <- r ;; k" := (bind r (fun x => k))
  (at level 61, r at next level, right associativity).

Fixpoint mapM {A B} (f : A -> Res B) (l : list A) : Res (list B) :=
  match l with
  | [] => Ok []
  | a :: l' => b <- f a ;; bs <- mapM f l' ;; Ok (b :: bs)
  end.

(** The double-quote character as a string. *)
Definition dquote : string := String (ascii_of_nat 34) EmptyString.

Record LintIssue := mkIssue {
  text : string;
  line : nat;
  type : string
}.

Record CallSite := mkCallSite {
  translationStr : string;
  searchText : string;
  paramKeys : list string
}.

(** *** [extractInterpolationKeys] *)

Section InterpolationRegex.

(** The regular expression is
    [prefix \s* ([\w.-]+) \s* suffix] with [prefix] and [suffix] escaped,
    hence matched literally. *)
Variables (prefix suffix : string).

Definition isKeyChar (c : ascii) : bool :=
  JsString.isWordChar c
  || (nat_of_ascii c =? 46)%nat || (nat_of_ascii c =? 45)%nat.

Definition suffixHere (s : string) : option nat :=
  if String.prefix suffix s then Some (String.length suffix) else None.

(** [\s* suffix] at the head of [s], white space taken greedily; the number
    of code units matched. *)
Fixpoint matchTail (s : string) : option nat :=
  match s with
  | String c s' =>
      if JsString.isWhiteSpace c then
        match matchTail s' with
        | Some n => Some (S n)
        | None => suffixHere s
        end
      else suffixHere s
  | EmptyString => suffixHere s
  end.

(** [([\w.-]+) \s* suffix] at the head of [s], the group taken greedily and
    shortened on failure; the captured group and the number of code units
    matched. *)
Fixpoint matchKey (s : string) : option (string * nat) :=
  match s with
  | String c s' =>
      if isKeyChar c then
        match matchKey s' with
        | Some (key, n) => Some (String c key, S n)
        | None =>
            match matchTail s' with
            | Some n => Some (String c EmptyString, S n)
            | None => None
            end
        end
      else None
  | EmptyString => None
  end.

(** Leading [\s*]: the number of white-space code units and what follows. *)
Fixpoint skipWhiteSpace (s : string) : nat * string :=
  match s with
  | String c s' =>
      if JsString.isWhiteSpace c then
        let (n, r) := skipWhiteSpace s' in (S n, r)
      else (O, s)
  | EmptyString => (O, s)
  end.

(** A match of the whole expression at the head of [s]. *)
Definition matchHere (s : string) : option (string * nat) :=
  if String.prefix prefix s then
    let (n, r) := skipWhiteSpace (JsString.slice (String.length prefix) s) in
    match matchKey r with
    | Some (key, m) => Some (key, String.length prefix + n + m)
    | None => None
    end
  else None.

(** The [while ((match = regex.exec(str)))] loop of a global expression:
    leftmost match, then on from its end.  [skip] counts the code units of
    the last match still to step over. *)
Fixpoint execAll (s : string) (skip : nat) : list string :=
  match s with
  | EmptyString => []
  | String _ s' =>
      match skip with
      | S k => execAll s' k
      | O =>
          match matchHere s with
          | Some (key, n) =>
              if JsString.truthy key then key :: execAll s' (n - 1)
              else execAll s' (n - 1)
          | None => execAll s' 0
          end
      end
  end.

End InterpolationRegex.

Definition extractInterpolationKeys (str : string) (config : Config)
  : list string :=
  let prefix :=
    match interpolationPrefix (extract config) with
    | Some p => p | None => "{{" end in
  let suffix :=
    match interpolationSuffix (extract config) with
    | Some p => p | None => "}}" end in
  execAll prefix suffix str 0.

(** *** [isI18nextOptionKey] *)

Definition i18nextOptionKeys : list string :=
  [ "defaultValue"; "count"; "context"; "ns"; "lng"; "lngs";
    "fallbackLng"; "returnDetails"; "returnObjects"; "joinArrays";
    "postProcess"; "interpolation"; "skipInterpolation"; "replace";
    "ordinal"; "keySeparator"; "nsSeparator"; "tDescription" ].

Definition includes (l : list string) (k : string) : bool :=
  existsb (String.eqb k) l.

Definition isI18nextOptionKey (key : string) : bool :=
  if includes i18nextOptionKeys key then true
  else if JsString.startsWith key "defaultValue_" then true
  else false.

(** *** [handleCallExpression] *)

(** The name the callee is known by. *)
Definition calleeName (node : JsVal) : JsVal :=
  let callee := Js.prop node "callee" in
  if Js.truthy callee then
    if Js.isStr (Js.prop callee "type") "Identifier"
       && Js.truthy (Js.prop callee "value")
    then Js.prop callee "value"
    else if Js.isStr (Js.prop callee "type") "Identifier"
            && Js.truthy (Js.prop callee "name")
    then Js.prop callee "name"
    else if Js.isStr (Js.prop callee "type") "MemberExpression"
            && Js.isStr (Js.prop (Js.prop callee "property") "type")
                        "Identifier"
    then Js.or (Js.prop (Js.prop callee "property") "value")
               (Js.prop (Js.prop callee "property") "name")
    else JStr EmptyString
  else JStr EmptyString.

(** One turn of the loop over [fnPatterns]: whether [pattern] sets
    [matches]. *)
Definition patternMatches (name : JsVal) (pattern : string) : bool :=
  if JsString.startsWith pattern "*." then
    Js.isStr name (JsString.slice 2 pattern)
  else
    Js.isStr name pattern.

Definition fnPatterns (config : Config) : list string :=
  match functions (extract config) with
  | Some l => l
  | None => ["t"; "*.t"]
  end.

(** [let matches = false; for (const pattern of fnPatterns) ...] *)
Definition matches (name : JsVal) (patterns : list string) : bool :=
  fold_left (fun m pattern => if patternMatches name pattern then true else m)
            patterns false.

(** The callback of [arg1.properties.map]. *)
Definition paramKeyOf (p : JsVal) : Res JsVal :=
  if Js.nullish p then TypeError
  else if Js.isStr (Js.prop p "type") "KeyValueProperty"
          && Js.truthy (Js.prop p "key")
  then
    if Js.isStr (Js.prop (Js.prop p "key") "type") "Identifier"
    then Ok (Js.prop (Js.prop p "key") "value")
    else if Js.isStr (Js.prop (Js.prop p "key") "type") "StringLiteral"
    then Ok (Js.prop (Js.prop p "key") "value")
    else Ok JUndefined
  else if Js.isStr (Js.prop p "type") "ShorthandProperty"
          || Js.isStr (Js.prop p "type") "Identifier"
  then Ok (Js.coalesce (Js.prop p "value") (Js.prop p "name"))
  else Ok JUndefined.

(** [.filter((k) => typeof k === 'string')] *)
Fixpoint onlyStrings (l : list JsVal) : list string :=
  match l with
  | [] => []
  | JStr s :: l' => s :: onlyStrings l'
  | _ :: l' => onlyStrings l'
  end.

Definition mapGet (m : option (list (string * string))) (k : string)
  : option string :=
  match m with
  | None => None
  | Some entries =>
      match find (fun e => String.eqb (fst e) k) entries with
      | Some e => Some (snd e)
      | None => None
      end
  end.

Section Walk.

Variables (config : Config)
          (translationValues : option (list (string * string))).

(** [handleCallExpression]; [callSites] is the array it pushes to. *)
Definition handleCallExpression (node : JsVal) (ancestors : list JsVal)
           (callSites : list CallSite) : Res (list CallSite) :=
  if matches (calleeName node) (fnPatterns config) then
    let arg0raw := Js.elem (Js.prop node "arguments") 0 in
    let arg1raw := Js.elem (Js.prop node "arguments") 1 in
    let arg0 := Js.coalesce (Js.prop arg0raw "expression") arg0raw in
    let arg1 := Js.coalesce (Js.prop arg1raw "expression") arg1raw in
    if Js.isStr (Js.prop arg0 "type") "StringLiteral" then
      keys <-
        (if Js.isStr (Js.prop arg1 "type") "ObjectExpression" then
           match Js.prop arg1 "properties" with
           | JArr properties =>
               ks <- mapM paramKeyOf properties ;; Ok (onlyStrings ks)
           | _ => TypeError
           end
         else Ok []) ;;
      match Js.prop arg0 "value" with
      | JStr keyOrStr =>
          let resolvedStr :=
            match mapGet translationValues keyOrStr with
            | Some v => v
            | None => keyOrStr
            end in
          match Js.prop arg0 "raw" with
          | JStr raw =>
              Ok (callSites ++ [mkCallSite resolvedStr raw keys])%list
          | JUndefined | JNull =>
              Ok (callSites
                    ++ [mkCallSite resolvedStr
                          (dquote ++ keyOrStr ++ dquote) keys])%list
          | _ => Unmodelled
          end
      | _ => Unmodelled
      end
    else Ok callSites
  else Ok callSites.

(** [walk]: a node is visited before its children; children are the values
    of the node's properties other than [span], in property order; an array
    child contributes its items. *)
Fixpoint walk (node : JsVal) (ancestors : list JsVal)
         (callSites : list CallSite) {struct node} : Res (list CallSite) :=
  match node with
  | JObj fields =>
      let currentAncestors := (ancestors ++ [node])%list in
      cs <- (if Js.isStr (Js.lookup "type" fields) "CallExpression"
             then handleCallExpression node currentAncestors callSites
             else Ok callSites) ;;
      (fix children (fs : list (string * JsVal)) (cs : list CallSite)
         : Res (list CallSite) :=
         match fs with
         | [] => Ok cs
         | (key, child) :: fs' =>
             if String.eqb key "span" then children fs' cs
             else
               match child with
               | JArr items =>
                   cs' <- (fix each (l : list JsVal) (cs : list CallSite)
                             : Res (list CallSite) :=
                             match l with
                             | [] => Ok cs
                             | item :: l' =>
                                 cs' <- (match item with
                                         | JArr _ | JObj _ =>
                                             walk item currentAncestors cs
                                         | _ => Ok cs
                                         end) ;;
                                 each l' cs'
                             end) items cs ;;
                   children fs' cs'
               | JObj _ =>
                   cs' <- walk child currentAncestors cs ;;
                   children fs' cs'
               | _ => children fs' cs
               end
         end) fields cs
  | JArr elems =>
      let currentAncestors := (ancestors ++ [node])%list in
      (fix children (l : list JsVal) (cs : list CallSite)
         : Res (list CallSite) :=
         match l with
         | [] => Ok cs
         | child :: l' =>
             match child with
             | JArr items =>
                 cs' <- (fix each (l : list JsVal) (cs : list CallSite)
                           : Res (list CallSite) :=
                           match l with
                           | [] => Ok cs
                           | item :: l' =>
                               cs' <- (match item with
                                       | JArr _ | JObj _ =>
                                           walk item currentAncestors cs
                                       | _ => Ok cs
                                       end) ;;
                               each l' cs'
                           end) items cs ;;
                 children l' cs'
             | JObj _ =>
                 cs' <- walk child currentAncestors cs ;;
                 children l' cs'
             | _ => children l' cs
             end
         end) elems callSites
  | _ => Ok callSites
  end.

End Walk.

(** *** The checks on one call site *)

Definition missingText (k : string) : string :=
  "Interpolation parameter " ++ dquote ++ k ++ dquote ++ " was not provided".

Definition unusedText (pk : string) : string :=
  "Parameter " ++ dquote ++ pk ++ dquote
  ++ " is not used in translation string".

(** [for (const k of keys) ...] *)
Definition missingIssues (keys params : list string) (issueLine : nat)
  : list LintIssue :=
  flat_map
    (fun k =>
       let root := JsString.beforeFirstDot k in
       if negb (includes params k) && negb (includes params root)
       then [mkIssue (missingText k) issueLine "interpolation"]
       else [])
    keys.

(** [for (const pk of paramKeys) ...] *)
Definition unusedIssues (keys params : list string) (issueLine : nat)
  : list LintIssue :=
  flat_map
    (fun pk =>
       if isI18nextOptionKey pk then []
       else
         let isUsed :=
           existsb (fun k => String.eqb k pk
                             || String.eqb (JsString.beforeFirstDot k) pk)
                   keys in
         if negb isUsed
         then [mkIssue (unusedText pk) issueLine "interpolation"]
         else [])
    params.

(** What the body of the loop over [callSites] pushes to [issues] for a call
    site found at [issueLine]. *)
Definition callSiteIssues (keys params : list string) (issueLine : nat)
  : list LintIssue :=
  if (0 <? List.length keys)%nat then
    (missingIssues keys params issueLine
       ++ unusedIssues keys params issueLine)%list
  else [].

Definition getLineNumber (code : string) (pos : nat) : nat :=
  S (JsString.lineFeedsBefore code pos).

(** One turn of the loop over [callSites]; the state is
    [(lastSearchIndex, issues)]. *)
Definition checkCallSite (code : string) (config : Config)
           (st : nat * list LintIssue) (site : CallSite)
  : nat * list LintIssue :=
  let (lastSearchIndex, issues) := st in
  match JsString.indexOf code (searchText site) lastSearchIndex with
  | None => (lastSearchIndex, issues)
  | Some position =>
      let issueLineNumber := getLineNumber code position in
      let keys := extractInterpolationKeys (translationStr site) config in
      ((position + String.length (searchText site))%nat,
       (issues ++ callSiteIssues keys (paramKeys site) issueLineNumber)%list)
  end.

(** [lintInterpolationParams] *)
Definition lintInterpolationParams (ast : JsVal) (code : string)
           (config : Config)
           (translationValues : option (list (string * string)))
  : Res (list LintIssue) :=
  let enabled :=
    match lint config with
    | Some l => match checkInterpolationParams l with
                | Some false => false
                | _ => true
                end
    | None => true
    end in
  if negb enabled then Ok []
  else
    callSites <- walk config translationValues ast [] [] ;;
    Ok (snd (fold_left (checkCallSite code config) callSites (O, []))).

(** *** [Linter.wrapError] *)

Section WrapError.

(** The stack a [new Error(message)] captures where [wrapError] builds
    it; the runtime decides it. *)
Variable capturedStack : string -> option string.

Definition prefix : string := "Linter failed to run: ".

(** [Linter.wrapError] *)
Definition wrapError (error : Thrown) : ErrorObj :=
  match error with
  | ThrownError e =>
      if JsString.startsWith (err_message e) prefix then e
      else
        let wrappedError :=
          mkError "Error" (prefix ++ err_message e)
                  (capturedStack (prefix ++ err_message e)) in
        (* wrappedError.stack = error.stack *)
        mkError (err_name wrappedError) (err_message wrappedError)
                (err_stack e)
  | _ =>
      mkError "Error" (prefix ++ stringOfThrown error)
              (capturedStack (prefix ++ stringOfThrown error))
  end.

End WrapError.

End Linter.


(* ------------------------------------------------------------------ *)
(** ** Programs that call outwards *)

(** [options.logger], [internalLogger]: a logger is known by its name and by
    whether its [info] property is a function, which the source tests
    ([logger.info?.(...)], [typeof internalLogger.info === 'function']). *)
Record Logger := mkLogger {
  logger_name : string;
  info_is_function : bool
}.

(** [new ConsoleLogger()] *)
Definition ConsoleLogger : Logger := mkLogger "ConsoleLogger" true.

Inductive Syntax := typescript | ecmascript.

(** The options object given to [parse]; a key left out is [None]. *)
Record ParseOptions := mkParseOptions {
  syntax : Syntax;
  tsx : option bool;
  jsx : option bool;
  decorators : bool;
  dynamicImport : bool;
  comments : bool
}.

(** What the extractor uses and these files do not define: the types of
    syntax trees, key maps and visitor objects, and the pure helpers of
    [node:path], [node:util], [utils/file-utils], [parsers/ast-utils] and
    [utils/validation]. *)
Class Externals := {
  Module_ : Type;                      (* [Module] of [@swc/types] *)
  Keys : Type;                         (* [allKeys] *)
  ObjectKeys : Type;                   (* [objectKeys] *)
  ASTVisitors : Type;
  PluginContext : Type;
  keysSize : Keys -> nat;              (* [allKeys.size] *)
  spanStart : Module_ -> Z;            (* [ast.span.start] *)
  extname : string -> string;
  dirname : string -> string;
  styleText : list string -> string -> string;
  inferFormatFromPath : string -> OutputFormat;
  serializeTranslationFile :
    JsVal -> OutputFormat -> option Indentation -> option string -> string;
  findFirstTokenIndex : string -> Z;
  ExtractorError : string -> string -> Thrown -> Thrown;
  typeErrorStack : string -> option string
}.

(** [TranslationResult] *)
Record TranslationResult := mkResult {
  path : string;
  updated : bool;
  newTranslations : JsVal;
  existingTranslations : JsVal
}.

Module Effects.

Section WithExternals.

Context {X : Externals}.

(** The outward calls.  The hooks of a plugin, the methods of the visitor
    object and the functions of the other modules are calls like those of
    the file system. *)
Inductive Cmd : Type :=
| ReadFile (file : string)
| PluginOnLoad (plugin : Plugin) (code file : string)
| Parse (code : string) (options : ParseOptions)
| LoggerWarn (logger : Logger) (message : string) (more : option Thrown)
| LoggerInfo (logger : Logger) (message : string)
| ConsoleLog (message : string)
| NormalizeASTSpans (ast : Module_) (spanBase : Z)
| WirePluginContext (pluginContext : PluginContext) (visitors : ASTVisitors)
| SetCurrentFile (visitors : ASTVisitors) (file code : string)
| Visit (visitors : ASTVisitors) (ast : Module_)
| ExtractKeysFromComments (code : string) (pluginContext : PluginContext)
                          (config : Config) (visitors : ASTVisitors)
| ValidateExtractorConfig (config : Config)
| CreateSpinner (text : string) (quiet : bool) (logger : option Logger)
| SpinnerText (text : string)
| SpinnerSucceed (text : string)
| SpinnerFail (text : string)
| FindKeys (config : Config) (logger : Logger) (fileErrors : list string)
| GetTranslations (allKeys : Keys) (objectKeys : ObjectKeys)
                  (config : Config)
                  (syncPrimaryWithDefaults syncAll : option bool)
| LoadRawJson5Content (path : string)
| Mkdir (path : string)
| WriteFile (path content : string)
| PluginAfterSync (plugin : Plugin) (results : list TranslationResult)
                  (config : Config)
| ShouldShowFunnel (name : string)
| RecordFunnelShown (name : string).

(** What each call answers.  The methods of the logger, of the spinner and
    of the console return; every other call returns or throws.  [FindKeys]
    answers with the keys and with the contents of the [fileErrors] array it
    was given, as it left it. *)
Definition Resp (c : Cmd) : Type :=
  match c with
  | ReadFile _ => Outcome string
  | PluginOnLoad _ _ _ => Outcome (option string)
  | Parse _ _ => Outcome Module_
  | LoggerWarn _ _ _ | LoggerInfo _ _ | ConsoleLog _ => unit
  | NormalizeASTSpans _ _ => Outcome unit
  | WirePluginContext _ _ => unit
  | SetCurrentFile _ _ _ => Outcome unit
  | Visit _ _ => Outcome unit
  | ExtractKeysFromComments _ _ _ _ => Outcome unit
  | ValidateExtractorConfig _ => Outcome unit
  | CreateSpinner _ _ _ | SpinnerText _ | SpinnerSucceed _ | SpinnerFail _ =>
      unit
  | FindKeys _ _ _ => Outcome (Keys * ObjectKeys * list string)
  | GetTranslations _ _ _ _ _ => Outcome (list TranslationResult)
  | LoadRawJson5Content _ => Outcome (option string)
  | Mkdir _ => Outcome unit
  | WriteFile _ _ => Outcome unit
  | PluginAfterSync _ _ _ => Outcome unit
  | ShouldShowFunnel _ => Outcome bool
  | RecordFunnelShown _ => Outcome unit
  end.

(** A program: it returns, throws, or makes a call and goes on with the
    answer. *)
Inductive Prog (A : Type) : Type :=
| Ret (a : A)
| Throw (e : Thrown)
| Vis (c : Cmd) (k : Resp c -> Prog A).
Arguments Throw {A} e.

Fixpoint bind {A B} (p : Prog A) (f : A -> Prog B) : Prog B :=
  match p with
  | Ret a => f a
  | Throw e => Throw e
  | Vis c k => Vis c (fun r => bind (k r) f)
  end.

(** [try { p } catch (e) { h e }] *)
Fixpoint try_catch {A} (p : Prog A) (h : Thrown -> Prog A) : Prog A :=
  match p with
  | Ret a => Ret a
  | Throw e => h e
  | Vis c k => Vis c (fun r => try_catch (k r) h)
  end.

(** [await] of a call that may throw. *)
Definition await {A} (o : Outcome A) : Prog A :=
  match o with
  | Returned a => Ret a
  | Threw e => Throw e
  end.

(** [for (const x of l) { body }], with the variables the body assigns as
    the state [s]. *)
Fixpoint forEach {A S} (l : list A) (s : S) (body : S -> A -> Prog S)
  : Prog S :=
  match l with
  | [] => Ret s
  | x :: l' => bind (body s x) (fun s' => forEach l' s' body)
  end.

(** One call and its answer. *)
Inductive Event := Ev (c : Cmd) (r : Resp c).

(** A run against a handler with state [St]: the trace of calls, the
    outcome and the final state. *)
Fixpoint run {St A} (handle : forall c : Cmd, St -> Resp c * St)
         (p : Prog A) (s : St) : list Event * Outcome A * St :=
  match p with
  | Ret a => ([], Returned a, s)
  | Throw e => ([], Threw e, s)
  | Vis c k =>
      let (r, s1) := handle c s in
      let '(t, o, s2) := run handle (k r) s1 in
      (Ev c r :: t, o, s2)
  end.

Definition traceOf {St A} (handle : forall c : Cmd, St -> Resp c * St)
           (p : Prog A) (s : St) : list Event :=
  fst (fst (run handle p s)).

Definition outcomeOf {St A} (handle : forall c : Cmd, St -> Resp c * St)
           (p : Prog A) (s : St) : Outcome A :=
  snd (fst (run handle p s)).

(** *** What a trace shows *)

Definition cmdOf (ev : Event) : Cmd :=
  match ev with Ev c _ => c end.

(** The value a call threw, if it threw. *)
Definition thrownBy (ev : Event) : option Thrown :=
  match ev with
  | Ev c r =>
      let ofOutcome {A} (o : Outcome A) : option Thrown :=
        match o with Threw e => Some e | Returned _ => None end in
      match c return Resp c -> option Thrown with
      | ReadFile _ => ofOutcome
      | PluginOnLoad _ _ _ => ofOutcome
      | Parse _ _ => ofOutcome
      | NormalizeASTSpans _ _ => ofOutcome
      | SetCurrentFile _ _ _ => ofOutcome
      | Visit _ _ => ofOutcome
      | ExtractKeysFromComments _ _ _ _ => ofOutcome
      | ValidateExtractorConfig _ => ofOutcome
      | FindKeys _ _ _ => ofOutcome
      | GetTranslations _ _ _ _ _ => ofOutcome
      | LoadRawJson5Content _ => ofOutcome
      | Mkdir _ => ofOutcome
      | WriteFile _ _ => ofOutcome
      | PluginAfterSync _ _ _ => ofOutcome
      | ShouldShowFunnel _ => ofOutcome
      | RecordFunnelShown _ => ofOutcome
      | _ => fun _ => None
      end r
  end.

(** The call returned. *)
Definition returned (ev : Event) : bool :=
  match thrownBy ev with Some _ => false | None => true end.

(** A call to [parse] that returned a syntax tree. *)
Definition parsedOk (ev : Event) : bool :=
  match cmdOf ev with
  | Parse _ _ => returned ev
  | _ => false
  end.

(** A call that traverses the file or scans its comments. *)
Definition traverses (ev : Event) : bool :=
  match cmdOf ev with
  | Visit _ _ | ExtractKeysFromComments _ _ _ _ => true
  | _ => false
  end.

Definition isCommentScan (ev : Event) : bool :=
  match cmdOf ev with
  | ExtractKeysFromComments _ _ _ _ => true
  | _ => false
  end.

Definition isOnLoad (ev : Event) : bool :=
  match cmdOf ev with
  | PluginOnLoad _ _ _ => true
  | _ => false
  end.

(** An [onLoad] hook that returned [undefined]. *)
Definition answeredUndefined (ev : Event) : bool :=
  match ev with
  | Ev c r =>
      match c return Resp c -> bool with
      | PluginOnLoad _ _ _ =>
          fun o => match o with Returned None => true | _ => false end
      | _ => fun _ => false
      end r
  end.

(** The source text a call is given: that of a hook or of the parser. *)
Definition codeGiven (c : Cmd) : option string :=
  match c with
  | PluginOnLoad _ code _ => Some code
  | Parse code _ => Some code
  | _ => None
  end.

(** A call that touches the output: reads the old file, makes the
    directory, writes the file. *)
Definition touchesOutput (ev : Event) : bool :=
  match cmdOf ev with
  | LoadRawJson5Content _ | Mkdir _ | WriteFile _ _ => true
  | _ => false
  end.

(** The paths written, in order. *)
Definition writtenPaths (t : list Event) : list string :=
  flat_map (fun ev => match cmdOf ev with
                      | WriteFile p _ => [p]
                      | _ => []
                      end) t.

(** What [findKeys] answered, if the call is one and returned. *)
Definition keysFound (ev : Event)
  : option (Keys * ObjectKeys * list string) :=
  match ev with
  | Ev c r =>
      match c return Resp c -> option (Keys * ObjectKeys * list string) with
      | FindKeys _ _ _ =>
          fun o => match o with Returned v => Some v | Threw _ => None end
      | _ => fun _ => None
      end r
  end.

(** What [getTranslations] answered, if the call is one and returned. *)
Definition translationsGot (ev : Event) : option (list TranslationResult) :=
  match ev with
  | Ev c r =>
      match c return Resp c -> option (list TranslationResult) with
      | GetTranslations _ _ _ _ _ =>
          fun o => match o with Returned v => Some v | Threw _ => None end
      | _ => fun _ => None
      end r
  end.

(** *** What holds of every run *)

(** [always p Q]: whatever the calls answer, the trace and the outcome of
    [p] satisfy [Q]. *)
Fixpoint always {A} (p : Prog A) (Q : list Event -> Outcome A -> Prop)
  : Prop :=
  match p with
  | Ret a => Q [] (Returned a)
  | Throw e => Q [] (Threw e)
  | Vis c k => forall r : Resp c, always (k r) (fun t o => Q (Ev c r :: t) o)
  end.

End WithExternals.

Arguments Throw {X A} e.

End Effects.

(* ------------------------------------------------------------------ *)
(** ** [src/extractor/core/extractor.ts] *)

Module Extractor.

Import Effects.

Notation "x <- p ;; k" := (bind p (fun x => k))
  (at level 61, p at next level, right associativity).
Notation "p ;;; k" := (bind p (fun _ => k))
  (at level 61, right associativity).

Section WithExternals.

Context {X : Externals}.

(** *** The calls, as the source writes them *)

Definition readFile (file : string) : Prog string :=
  Vis (ReadFile file) await.
Definition onLoad (plugin : Plugin) (code file : string)
  : Prog (option string) :=
  Vis (PluginOnLoad plugin code file) await.
Definition parse (code : string) (options : ParseOptions) : Prog Module_ :=
  Vis (Parse code options) await.
Definition warn (logger : Logger) (message : string) (more : option Thrown)
  : Prog unit :=
  Vis (LoggerWarn logger message more) (@Ret _ _).
Definition consoleLog (message : string) : Prog unit :=
  Vis (ConsoleLog message) (@Ret _ _).
Definition normalizeASTSpans (ast : Module_) (spanBase : Z) : Prog unit :=
  Vis (NormalizeASTSpans ast spanBase) await.
Definition wirePluginContext (pluginContext : PluginContext)
           (visitors : ASTVisitors) : Prog unit :=
  Vis (WirePluginContext pluginContext visitors) (@Ret _ _).
Definition setCurrentFile (visitors : ASTVisitors) (file code : string)
  : Prog unit :=
  Vis (SetCurrentFile visitors file code) await.
Definition visit (visitors : ASTVisitors) (ast : Module_) : Prog unit :=
  Vis (Visit visitors ast) await.
Definition extractKeysFromComments (code : string)
           (pluginContext : PluginContext) (config : Config)
           (visitors : ASTVisitors) : Prog unit :=
  Vis (ExtractKeysFromComments code pluginContext config visitors) await.
Definition validateExtractorConfig (config : Config) : Prog unit :=
  Vis (ValidateExtractorConfig config) await.
Definition createSpinnerLike (text : string) (quiet : bool)
           (logger : option Logger) : Prog unit :=
  Vis (CreateSpinner text quiet logger) (@Ret _ _).
Definition spinnerText (text : string) : Prog unit :=
  Vis (SpinnerText text) (@Ret _ _).
Definition spinnerSucceed (text : string) : Prog unit :=
  Vis (SpinnerSucceed text) (@Ret _ _).
Definition spinnerFail (text : string) : Prog unit :=
  Vis (SpinnerFail text) (@Ret _ _).
Definition findKeys (config : Config) (logger : Logger)
           (fileErrors : list string)
  : Prog (Keys * ObjectKeys * list string) :=
  Vis (FindKeys config logger fileErrors) await.
Definition getTranslations (allKeys : Keys) (objectKeys : ObjectKeys)
           (config : Config) (syncPrimaryWithDefaults syncAll : option bool)
  : Prog (list TranslationResult) :=
  Vis (GetTranslations allKeys objectKeys config
                       syncPrimaryWithDefaults syncAll) await.
Definition loadRawJson5Content (path : string) : Prog (option string) :=
  Vis (LoadRawJson5Content path) await.
Definition mkdir (path : string) : Prog unit := Vis (Mkdir path) await.
Definition writeFile (path content : string) : Prog unit :=
  Vis (WriteFile path content) await.
Definition afterSync (plugin : Plugin) (results : list TranslationResult)
           (config : Config) : Prog unit :=
  Vis (PluginAfterSync plugin results config) await.
Definition shouldShowFunnel (name : string) : Prog bool :=
  Vis (ShouldShowFunnel name) await.
Definition recordFunnelShown (name : string) : Prog unit :=
  Vis (RecordFunnelShown name) await.

(** The [TypeError] of calling what is not a function. *)
Definition notAFunction (what : string) : Thrown :=
  ThrownError (mkError "TypeError" (what ++ " is not a function")
                       (typeErrorStack (what ++ " is not a function"))).

(** [logger.info(message)] *)
Definition info (logger : Logger) (message : string) : Prog unit :=
  if info_is_function logger
  then Vis (LoggerInfo logger message) (@Ret _ _)
  else Throw (notAFunction "internalLogger.info").

(** [logger.info?.(message)] *)
Definition infoIfAny (logger : Logger) (message : string) : Prog unit :=
  if info_is_function logger
  then Vis (LoggerInfo logger message) (@Ret _ _)
  else Ret tt.

Definition newline : string := String (ascii_of_nat 10) EmptyString.

(** *** [processFile] *)

(** The loop over [plugins] that runs the [onLoad] hooks; its state is
    [code]. *)
Definition runOnLoadHook (logger : Logger) (file : string)
           (code : string) (plugin : Plugin) : Prog string :=
  try_catch
    (result <- (if has_onLoad plugin then onLoad plugin code file
                else Ret None) ;;
     match result with
     | Some r => Ret r
     | None => Ret code
     end)
    (fun err =>
       warn logger ("Plugin " ++ plugin_name plugin ++ " onLoad failed:")
            (Some err) ;;;
       (* Continue with the original code if the plugin fails *)
       Ret code).

Definition runOnLoadHooks (logger : Logger) (file : string)
           (plugins : list Plugin) (code : string) : Prog string :=
  forEach plugins code (runOnLoadHook logger file).

Definition firstParseOptions (isTypeScriptFile isTSX isJSX : bool)
  : ParseOptions :=
  mkParseOptions (if isTypeScriptFile then typescript else ecmascript)
                 (Some isTSX) (Some isJSX) true true true.

Definition tsxFallbackOptions : ParseOptions :=
  mkParseOptions typescript (Some true) None true true true.

Definition jsxFallbackOptions : ParseOptions :=
  mkParseOptions ecmascript None (Some true) true true true.

(** [let ast; try { ast = await parse(...) } catch (err) { ... }] *)
Definition parseWithFallback (logger : Logger) (file code : string)
  : Prog Module_ :=
  let fileExt := JsString.toLowerCase (extname file) in
  let isTypeScriptFile :=
    String.eqb fileExt ".ts" || String.eqb fileExt ".tsx"
    || String.eqb fileExt ".mts" || String.eqb fileExt ".cts" in
  let isTSX := String.eqb fileExt ".tsx" in
  let isJSX := String.eqb fileExt ".jsx" in
  try_catch
    (parse code (firstParseOptions isTypeScriptFile isTSX isJSX))
    (fun err =>
       if String.eqb fileExt ".ts" && negb isTSX then
         try_catch
           (ast <- parse code tsxFallbackOptions ;;
            infoIfAny logger ("Parsed " ++ file ++ " using TSX fallback") ;;;
            Ret ast)
           (fun err2 =>
              Throw (ExtractorError "Failed to process file" file err2))
       else if String.eqb fileExt ".js" && negb isJSX then
         try_catch
           (ast <- parse code jsxFallbackOptions ;;
            infoIfAny logger ("Parsed " ++ file ++ " using JSX fallback") ;;;
            Ret ast)
           (fun err2 =>
              Throw (ExtractorError "Failed to process file" file err2))
       else
         Throw (ExtractorError "Failed to process file" file err)).

(** [err?.message] *)
Definition messageOf (err : Thrown) : Carried :=
  match err with
  | ThrownError e => StringValue (err_message e)
  | ThrownOther m _ _ => m
  | _ => NoValue
  end.

(** [err?.stack] *)
Definition stackOf (err : Thrown) : Carried :=
  match err with
  | ThrownError e =>
      match err_stack e with
      | Some s => StringValue s
      | None => NoValue
      end
  | ThrownOther _ s _ => s
  | _ => NoValue
  end.

(** [err?.toString?.()] *)
Definition toStringOf (err : Thrown) : option string :=
  match err with
  | ThrownNull | ThrownUndefined => None
  | _ => Some (stringOfThrown err)
  end.

Definition orElse (a : string) (b : string) : string :=
  if JsString.truthy a then a else b.

(** The [msg] of the [catch] clause of [processFile]. *)
Definition skipMessage (err : Thrown) : string :=
  match messageOf err with
  | StringValue m =>
      if JsString.hasNonWhiteSpace m then m
      else
        orElse (orElse (match err with ThrownString s => s | _ => EmptyString end)
                       (match toStringOf err with
                        | Some s => s | None => EmptyString end))
               "Unknown error"
  | _ =>
      orElse (orElse (match err with ThrownString s => s | _ => EmptyString end)
                     (match toStringOf err with
                      | Some s => s | None => EmptyString end))
             "Unknown error"
  end.

(** [(!err?.message || String(err.message).trim() === '') && err?.stack],
    and the [String(err.stack)] that is logged when it holds. *)
Definition stackToLog (err : Thrown) : option string :=
  let noMessage :=
    match messageOf err with
    | NoValue => true
    | StringValue m =>
        negb (JsString.truthy m) || negb (JsString.hasNonWhiteSpace m)
    | OtherValue rendered => negb (JsString.hasNonWhiteSpace rendered)
    end in
  match stackOf err with
  | NoValue => None
  | StringValue s => if noMessage && JsString.truthy s then Some s else None
  | OtherValue rendered => if noMessage then Some rendered else None
  end.

(** [fileErrors?.push(file)] on an array that may be absent. *)
Definition pushIfAny (fileErrors : option (list string)) (file : string)
  : option (list string) :=
  match fileErrors with
  | Some l => Some (l ++ [file])%list
  | None => None
  end.

(** [processFile]; it returns the [fileErrors] array as it leaves it. *)
Definition processFile (file : string) (plugins : list Plugin)
           (astVisitors : ASTVisitors) (pluginContext : PluginContext)
           (config : Config) (logger : Logger)
           (fileErrors : option (list string))
  : Prog (option (list string)) :=
  try_catch
    (code <- readFile file ;;
     code <- runOnLoadHooks logger file plugins code ;;
     ast <- parseWithFallback logger file code ;;
     let firstTokenIdx := findFirstTokenIndex code in
     let spanBase := (spanStart ast - firstTokenIdx)%Z in
     normalizeASTSpans ast spanBase ;;;
     wirePluginContext pluginContext astVisitors ;;;
     setCurrentFile astVisitors file code ;;;
     visit astVisitors ast ;;;
     (match extractFromComments (extract config) with
      | Some false => Ret tt
      | _ => extractKeysFromComments code pluginContext config astVisitors
      end) ;;;
     Ret fileErrors)
    (fun error =>
       warn logger
            (styleText ["yellow"] "Skipping file due to error:"
               ++ " " ++ file) None ;;;
       warn logger ("  " ++ skipMessage error) None ;;;
       (match stackToLog error with
        | Some stack => warn logger ("  " ++ stack) None
        | None => Ret tt
        end) ;;;
       Ret (pushIfAny fileErrors file)).

(** *** [runExtractor] *)

Record Options := mkOptions {
  isWatchMode : option bool;
  isDryRun : option bool;
  syncPrimaryWithDefaults : option bool;
  syncAll : option bool;
  quiet : option bool;
  logger : option Logger
}.

Record RunResult := mkRunResult {
  anyFileUpdated : bool;
  hasErrors : bool
}.

Definition isTrue (b : option bool) : bool :=
  match b with Some true => true | _ => false end.

(** The four [||=] assignments at the head of [runExtractor]. *)
Definition withDefaults (config : Config) : Config :=
  let e := extract config in
  let primary :=
    match primaryLanguage e with
    | Some p =>
        if JsString.truthy p then p
        else match locales config with
             | l :: _ => orElse l "en"
             | [] => "en"
             end
    | None => match locales config with
              | l :: _ => orElse l "en"
              | [] => "en"
              end
    end in
  let secondary :=
    match secondaryLanguages e with
    | Some l => l
    | None => filter (fun l => negb (String.eqb l primary)) (locales config)
    end in
  let fns :=
    match functions e with Some l => l | None => ["t"; "*.t"] end in
  let comps :=
    match transComponents e with Some l => l | None => ["Trans"] end in
  mkConfig (locales config)
           (mkExtractConfig (Some primary) (Some secondary) (Some fns)
                            (Some comps) (outputFormat e) (indentation e)
                            (extractFromComments e) (interpolationPrefix e)
                            (interpolationSuffix e) (extract_rest e))
           (lint config) (plugins config).

(** [config.extract.outputFormat ?? inferFormatFromPath(result.path)] *)
Definition effectiveFormat (config : Config) (resultPath : string)
  : OutputFormat :=
  match outputFormat (extract config) with
  | Some f => f
  | None => inferFormatFromPath resultPath
  end.

(** Writing one updated result. *)
Definition writeResult (config : Config) (internalLogger : Logger)
           (result : TranslationResult) : Prog unit :=
  let format := effectiveFormat config (path result) in
  rawContent <- (match format with
                 | json5 => loadRawJson5Content (path result)
                 | _ => Ret None
                 end) ;;
  let fileContent :=
    serializeTranslationFile (newTranslations result) format
                             (indentation (extract config)) rawContent in
  mkdir (dirname (path result)) ;;;
  writeFile (path result) fileContent ;;;
  info internalLogger (styleText ["green"] ("Updated: " ++ path result)).

(** The body of the loop over [results]; its state is [anyFileUpdated]. *)
Definition syncResult (config : Config) (options : Options)
           (internalLogger : Logger) (anyFileUpdated : bool)
           (result : TranslationResult) : Prog bool :=
  if updated result then
    (if negb (isTrue (isDryRun options))
     then writeResult config internalLogger result
     else Ret tt) ;;;
    Ret true
  else Ret anyFileUpdated.

(** The light-bulb sign of the tip, as the bytes of its UTF-8 encoding. *)
Definition lightBulb : string :=
  String (ascii_of_nat 240) (String (ascii_of_nat 159)
    (String (ascii_of_nat 146) (String (ascii_of_nat 161) EmptyString))).

Definition funnelLines : list string :=
  [ styleText ["yellow"; "bold"]
      (newline ++ lightBulb
         ++ " Tip: Tired of running the extractor manually?");
    "   Discover a real-time " ++ Linter.dquote ++ "push" ++ Linter.dquote
      ++ " workflow with `saveMissing` and Locize AI,";
    "   where keys are created and translated automatically as you code.";
    "   Learn more: "
      ++ styleText ["cyan"]
           "https://www.locize.com/blog/i18next-savemissing-ai-automation";
    "   Watch the video: "
      ++ styleText ["cyan"] "https://youtu.be/joPsZghT3wM" ].

(** [printLocizeFunnel] *)
Definition printLocizeFunnel (logger : option Logger) : Prog unit :=
  show <- shouldShowFunnel "extract" ;;
  if negb show then Ret tt
  else
    let internalLogger :=
      match logger with Some l => l | None => ConsoleLogger end in
    (if info_is_function internalLogger
     then forEach funnelLines tt
                  (fun _ l => Vis (LoggerInfo internalLogger l) (@Ret _ _))
     else forEach funnelLines tt (fun _ l => consoleLog l)) ;;;
    recordFunnelShown "extract".

Definition decimal (n : nat) : string :=
  NilZero.string_of_uint (Nat.to_uint n).

Definition completionMessage (fileErrors : list string) : string :=
  if (0 <? List.length fileErrors)%nat then
    styleText ["bold"]
      ("Extraction complete, but ignored "
         ++ decimal (List.length fileErrors) ++ " file"
         ++ (if (List.length fileErrors =? 1)%nat then EmptyString else "s")
         ++ "!")
  else styleText ["bold"] "Extraction complete!".

(** [runExtractor] *)
Definition runExtractor (config : Config) (options : Options)
  : Prog RunResult :=
  let config := withDefaults config in
  validateExtractorConfig config ;;;
  let plugins := match plugins config with Some l => l | None => [] end in
  let internalLogger :=
    match logger options with Some l => l | None => ConsoleLogger end in
  createSpinnerLike ("Running i18next key extractor..." ++ newline)
                    (isTrue (quiet options)) (logger options) ;;;
  try_catch
    (found <- findKeys config internalLogger [] ;;
     let '(allKeys, objectKeys, fileErrors) := found in
     spinnerText ("Found " ++ decimal (keysSize allKeys)
                    ++ " unique keys. Updating translation files...") ;;;
     results <- getTranslations allKeys objectKeys config
                                (syncPrimaryWithDefaults options)
                                (syncAll options) ;;
     anyFileUpdated <-
       forEach results false (syncResult config options internalLogger) ;;
     (* Run afterSync hooks from plugins *)
     (if (0 <? List.length plugins)%nat then
        spinnerText "Running post-extraction plugins..." ;;;
        forEach plugins tt
                (fun _ plugin =>
                   if has_afterSync plugin
                   then afterSync plugin results config
                   else Ret tt)
      else Ret tt) ;;;
     spinnerSucceed (completionMessage fileErrors) ;;;
     (if anyFileUpdated then printLocizeFunnel (logger options)
      else Ret tt) ;;;
     Ret (mkRunResult anyFileUpdated (0 <? List.length fileErrors)%nat))
    (fun error =>
       spinnerFail (styleText ["red"] "Extraction failed.") ;;;
       Throw error).

End WithExternals.

End Extractor.

(* ------------------------------------------------------------------ *)
(** ** A small world to run the extractor in *)

Module Demo.

Import Effects Extractor.

(** From the last dot on, as [path.extname] does for the names used here. *)
Fixpoint fromLastDot (s : string) : string :=
  match s with
  | EmptyString => EmptyString
  | String c s' =>
      match fromLastDot s' with
      | EmptyString =>
          if (nat_of_ascii c =? 46)%nat then s else EmptyString
      | e => e
      end
  end.

(** Up to the last slash, as [path.dirname] does for the names used here. *)
Fixpoint beforeLastSlash (s : string) : option string :=
  match s with
  | EmptyString => None
  | String c s' =>
      match beforeLastSlash s' with
      | Some d => Some (String c d)
      | None => if (nat_of_ascii c =? 47)%nat then Some EmptyString else None
      end
  end.

Definition formatName (f : OutputFormat) : string :=
  match f with
  | json => "json" | json5 => "json5" | yaml => "yaml" | js => "js"
  | ts => "ts" | js_esm => "js-esm" | js_cjs => "js-cjs"
  end.

(** Syntax trees are the text they were parsed from; key maps are lists of
    keys; colours are dropped; a file is serialized to the name of its
    format. *)
Definition externals : Externals :=
  {| Module_ := string;
     Keys := list string;
     ObjectKeys := list string;
     ASTVisitors := unit;
     PluginContext := unit;
     keysSize := @List.length string;
     spanStart := fun _ => 1%Z;
     extname := fromLastDot;
     dirname := fun p => match beforeLastSlash p with
                         | Some d => d
                         | None => "."
                         end;
     styleText := fun _ s => s;
     inferFormatFromPath :=
       fun p => if String.eqb (fromLastDot p) ".json5" then json5
                else if String.eqb (fromLastDot p) ".yaml" then yaml
                else if String.eqb (fromLastDot p) ".ts" then ts
                else if String.eqb (fromLastDot p) ".js" then js
                else json;
     serializeTranslationFile := fun _ f _ _ => formatName f;
     findFirstTokenIndex := fun _ => 0%Z;
     ExtractorError :=
       fun message file _ =>
         ThrownError (mkError "ExtractorError" (message ++ ": " ++ file) None);
     typeErrorStack := fun _ => None |}.

(** What the world answers: the contents of files, what a hook does to the
    code, what the parser makes of it, what validation, [findKeys] and
    [getTranslations] give. *)
Record Scenario := mkScenario {
  fileContent : string -> Outcome string;
  hook : Plugin -> string -> Outcome (option string);
  parser : string -> ParseOptions -> Outcome string;
  validation : Outcome unit;
  found : Outcome (list string * list string * list string);
  translations : Outcome (list TranslationResult)
}.

Definition answer (sc : Scenario) (c : @Cmd externals) (s : unit)
  : @Resp externals c * unit :=
  (match c return @Resp externals c with
   | ReadFile f => fileContent sc f
   | PluginOnLoad p code _ => hook sc p code
   | Parse code o => parser sc code o
   | LoggerWarn _ _ _ => tt
   | LoggerInfo _ _ => tt
   | ConsoleLog _ => tt
   | NormalizeASTSpans _ _ => Returned tt
   | WirePluginContext _ _ => tt
   | SetCurrentFile _ _ _ => Returned tt
   | Visit _ _ => Returned tt
   | ExtractKeysFromComments _ _ _ _ => Returned tt
   | ValidateExtractorConfig _ => validation sc
   | CreateSpinner _ _ _ => tt
   | SpinnerText _ => tt
   | SpinnerSucceed _ => tt
   | SpinnerFail _ => tt
   | FindKeys _ _ _ => found sc
   | GetTranslations _ _ _ _ _ => translations sc
   | LoadRawJson5Content _ => Returned None
   | Mkdir _ => Returned tt
   | WriteFile _ _ => Returned tt
   | PluginAfterSync _ _ _ => Returned tt
   | ShouldShowFunnel _ => Returned false
   | RecordFunnelShown _ => Returned tt
   end, s).

Definition syntaxError : Thrown :=
  ThrownError (mkError "SyntaxError" "Unexpected eof" None).

Definition config : Config :=
  mkConfig ["en"; "de"]
           (mkExtractConfig None None None None None None None None None [])
           None None.

Definition silent : Logger := mkLogger "silent" true.

Definition failing : Plugin := mkPlugin "failing" true false.
Definition passive : Plugin := mkPlugin "passive" true false.

Definition hookError : Thrown :=
  ThrownError (mkError "Error" "boom" None).

Definition enFile : TranslationResult :=
  mkResult "locales/en.json" true (JObj [("k", JStr "k")]) (JObj []).
Definition deFile : TranslationResult :=
  mkResult "locales/de.json5" false (JObj [("k", JStr "")])
           (JObj [("k", JStr "")]).

(** One source file that does not parse, one plugin whose hook throws and
    one whose hook returns [undefined]; [findKeys] that skipped a file; an
    updated English file and an unchanged German one. *)
Definition world : Scenario :=
  mkScenario
    (fun _ => Returned "t('k'")
    (fun p _ => if String.eqb (plugin_name p) "failing"
                then Threw hookError else Returned None)
    (fun _ _ => Threw syntaxError)
    (Returned tt)
    (Returned (["k"], [], ["src/bad.ts"]))
    (Returned [enFile; deFile]).

(** The same world with a source file that parses. *)
Definition soundWorld : Scenario :=
  mkScenario (fileContent world) (hook world)
             (fun code _ => Returned code)
             (validation world) (found world) (translations world).

(** The same world with a configuration that does not validate. *)
Definition invalidWorld : Scenario :=
  mkScenario (fileContent world) (hook world) (parser world)
             (Threw (ThrownError (mkError "ExtractorError"
                                          "extract.input is required" None)))
             (found world) (translations world).

Definition defaultOptions : Options :=
  mkOptions None None None None None (Some silent).

Definition dryOptions : Options :=
  mkOptions None (Some true) None None None (Some silent).

(** [processFile] on the file [src/a.ts] with the two plugins. *)
Definition oneFile : @Prog externals (option (list string)) :=
  @processFile externals "src/a.ts" [failing; passive] tt tt config silent
               (Some []).

Definition extraction : @Prog externals RunResult :=
  @runExtractor externals config defaultOptions.

Definition dryExtraction : @Prog externals RunResult :=
  @runExtractor externals config dryOptions.

(** The call [t('Hello {{name}}', { count: 1, nam })] and its source. *)
Definition greetingAst : JsVal :=
  JObj
    [ ("type", JStr "Module");
      ("span", JObj [("start", JNum 0)]);
      ("body",
       JArr
         [ JObj
             [ ("type", JStr "ExpressionStatement");
               ("expression",
                JObj
                  [ ("type", JStr "CallExpression");
                    ("callee", JObj [("type", JStr "Identifier");
                                     ("value", JStr "t")]);
                    ("arguments",
                     JArr
                       [ JObj
                           [("expression",
                             JObj [("type", JStr "StringLiteral");
                                   ("value", JStr "Hello {{name}}");
                                   ("raw", JStr "'Hello {{name}}'")])];
                         JObj
                           [("expression",
                             JObj
                               [ ("type", JStr "ObjectExpression");
                                 ("properties",
                                  JArr
                                    [ JObj
                                        [ ("type", JStr "KeyValueProperty");
                                          ("key",
                                           JObj [("type", JStr "Identifier");
                                                 ("value", JStr "count")]);
                                          ("value",
                                           JObj [("type",
                                                  JStr "NumericLiteral");
                                                 ("value", JNum 1)]) ];
                                      JObj [("type", JStr "Identifier");
                                            ("value", JStr "nam")] ]) ])] ])
                  ]) ] ]) ].

Definition greetingCode : string := "t('Hello {{name}}', { count: 1, nam })".

Definition greetingIssues : list Linter.LintIssue :=
  [ Linter.mkIssue (Linter.missingText "name") 1 "interpolation";
    Linter.mkIssue (Linter.unusedText "nam") 1 "interpolation" ].

(** A call site whose translation string has no placeholder. *)
Definition plainSite : Linter.CallSite :=
  Linter.mkCallSite "Hello" "'Hello {{name}}'" ["name"].

End Demo.

(* ------------------------------------------------------------------ *)
(** ** More of what a trace shows *)

Module Traces.

Import Effects.

Section WithExternals.

Context {X : Externals}.

Definition isParse (ev : Event) : bool :=
  match cmdOf ev with
  | Parse _ _ => true
  | _ => false
  end.

(** The calls to the parser, in order. *)
Definition parseCalls (t : list Event) : list Event := filter isParse t.

Definition isWarning (ev : Event) : bool :=
  match cmdOf ev with
  | LoggerWarn _ _ _ => true
  | _ => false
  end.

(** A call that threw and is neither a hook nor the parser. *)
Definition threwOutright (ev : Event) : bool :=
  negb (returned ev) && negb (isOnLoad ev) && negb (isParse ev).

(** The code an [onLoad] hook returned, when it returned a string. *)
Definition replacedBy (ev : Event) : option string :=
  match ev with
  | Ev c r =>
      match c return Resp c -> option string with
      | PluginOnLoad _ _ _ =>
          fun o => match o with Returned (Some code) => Some code | _ => None end
      | _ => fun _ => None
      end r
  end.

(** The syntax tree a call to the parser returned. *)
Definition astParsed (ev : Event) : option Module_ :=
  match ev with
  | Ev c r =>
      match c return Resp c -> option Module_ with
      | Parse _ _ =>
          fun o => match o with Returned ast => Some ast | Threw _ => None end
      | _ => fun _ => None
      end r
  end.

(** The contents [readFile] returned. *)
Definition contentRead (ev : Event) : option string :=
  match ev with
  | Ev c r =>
      match c return Resp c -> option string with
      | ReadFile _ =>
          fun o => match o with Returned s => Some s | Threw _ => None end
      | _ => fun _ => None
      end r
  end.

(** The source after the hooks of a trace: each hook that returned a string
    replaces it. *)
Definition afterHooks (t : list Event) (code : string) : string :=
  fold_left (fun code ev => match replacedBy ev with
                            | Some code' => code'
                            | None => code
                            end) t code.

(** The source of a run of [processFile]: what was read, then transformed
    by the hooks. *)
Definition sourceOf (t : list Event) : option string :=
  match t with
  | first :: rest =>
      match contentRead first with
      | Some content => Some (afterHooks rest content)
      | None => None
      end
  | [] => None
  end.

(** The source text given to the parser, the visitor object or the comment
    scan. *)
Definition codeSeen (c : Cmd) : option string :=
  match c with
  | Parse code _ => Some code
  | SetCurrentFile _ _ code => Some code
  | ExtractKeysFromComments code _ _ _ => Some code
  | _ => None
  end.

Definition isSpinnerFail (ev : Event) : bool :=
  match cmdOf ev with
  | SpinnerFail _ => true
  | _ => false
  end.

Definition isAfterSync (ev : Event) : bool :=
  match cmdOf ev with
  | PluginAfterSync _ _ _ => true
  | _ => false
  end.

(** The calls of the funnel message: the test whether to show it, its
    lines, the record that it was shown. *)
Definition isFunnel (ev : Event) : bool :=
  match cmdOf ev with
  | ShouldShowFunnel _ | RecordFunnelShown _ | ConsoleLog _ => true
  | _ => false
  end.

(** The plugins whose [onLoad] hook was called, in order. *)
Definition onLoadCalled (t : list Event) : list Plugin :=
  flat_map (fun ev => match cmdOf ev with
                      | PluginOnLoad p _ _ => [p]
                      | _ => []
                      end) t.

(** The plugins whose [afterSync] hook was called, in order. *)
Definition afterSyncCalled (t : list Event) : list Plugin :=
  flat_map (fun ev => match cmdOf ev with
                      | PluginAfterSync p _ _ => [p]
                      | _ => []
                      end) t.

End WithExternals.

End Traces.

(** ** The plugins of the linter *)

Module LintPlugins.

Import JsString.

(** [s.trim()]: without the white space at both ends. *)
Fixpoint trimStart (s : string) : string :=
  match s with
  | String c s' => if isWhiteSpace c then trimStart s' else s
  | EmptyString => EmptyString
  end.

Fixpoint trimEnd (s : string) : string :=
  match s with
  | EmptyString => EmptyString
  | String c s' =>
      match trimEnd s' with
      | EmptyString =>
          if isWhiteSpace c then EmptyString else String c EmptyString
      | r => String c r
      end
  end.

Definition trim (s : string) : string := trimEnd (trimStart s).

(** [Linter.normalizeExtension] *)
Definition normalizeExtension (ext : string) : string :=
  let trimmed := toLowerCase (trim ext) in
  if negb (truthy trimmed) then EmptyString
  else if startsWith trimmed "." then trimmed else "." ++ trimmed.

(** A plugin as the linter reads it: its name, its extension hints and
    which of the three lint hooks it defines. *)
Record LinterPlugin := mkLinterPlugin {
  lint_name : string;
  lintExtensions : option (list string);
  has_lintSetup : bool;
  has_lintOnLoad : bool;
  has_lintOnResult : bool
}.

Record LintPluginContext := mkLintPluginContext {
  context_config : Config;
  context_logger : Logger
}.

Section WithExternals.

Context {X : Externals}.

(** [Linter.shouldRunLintPluginForFile] *)
Definition shouldRunLintPluginForFile (plugin : LinterPlugin)
           (filePath : string) : bool :=
  match lintExtensions plugin with
  | None | Some [] => true
  | Some hints =>
      let fileExt := normalizeExtension (extname filePath) in
      if negb (truthy fileExt) then false
      else
        let normalizedHints :=
          filter truthy (map normalizeExtension hints) in
        match normalizedHints with
        | [] => true
        | _ => Linter.includes normalizedHints fileExt
        end
  end.

End WithExternals.

End LintPlugins.

(** ** The calls of the lint pipelines *)

Module LintEffects.

Import LintPlugins.

Section WithIssues.

(** The issues are passed on as they are. *)
Variable Issue : Type.

(** The outward calls: the three hooks of a plugin and
    [this.emit('error', error)]. *)
Inductive Cmd : Type :=
| LintSetup (plugin : LinterPlugin) (context : LintPluginContext)
| LintOnLoad (plugin : LinterPlugin) (code filePath : string)
| LintOnResult (plugin : LinterPlugin) (filePath : string)
               (issues : list Issue)
| EmitError (error : ErrorObj).

(** What each call answers.  A hook returns or throws; [lintOnLoad] returns
    any value; [lintOnResult] returns an array of issues or something that
    is not an array.  [emit] throws when no listener is registered for
    [error], or when a listener throws. *)
Definition Resp (c : Cmd) : Type :=
  match c with
  | LintSetup _ _ => Outcome unit
  | LintOnLoad _ _ _ => Outcome JsVal
  | LintOnResult _ _ _ => Outcome (option (list Issue))
  | EmitError _ => Outcome unit
  end.

Inductive Prog (A : Type) : Type :=
| Ret (a : A)
| Throw (e : Thrown)
| Vis (c : Cmd) (k : Resp c -> Prog A).
Arguments Throw {A} e.

Fixpoint bind {A B} (p : Prog A) (f : A -> Prog B) : Prog B :=
  match p with
  | Ret a => f a
  | Throw e => Throw e
  | Vis c k => Vis c (fun r => bind (k r) f)
  end.

(** [try { p } catch (e) { h e }] *)
Fixpoint try_catch {A} (p : Prog A) (h : Thrown -> Prog A) : Prog A :=
  match p with
  | Ret a => Ret a
  | Throw e => h e
  | Vis c k => Vis c (fun r => try_catch (k r) h)
  end.

(** A call, awaited. *)
Definition call {A} (c : Cmd) (answer : Resp c -> Outcome A) : Prog A :=
  Vis c (fun r => match answer r with
                  | Returned a => Ret a
                  | Threw e => Throw e
                  end).

Inductive Event := Ev (c : Cmd) (r : Resp c).

Fixpoint run {St A} (handle : forall c : Cmd, St -> Resp c * St)
         (p : Prog A) (s : St) : list Event * Outcome A * St :=
  match p with
  | Ret a => ([], Returned a, s)
  | Throw e => ([], Threw e, s)
  | Vis c k =>
      let (r, s1) := handle c s in
      let '(t, o, s2) := run handle (k r) s1 in
      (Ev c r :: t, o, s2)
  end.

Definition traceOf {St A} (handle : forall c : Cmd, St -> Resp c * St)
           (p : Prog A) (s : St) : list Event :=
  fst (fst (run handle p s)).

Definition outcomeOf {St A} (handle : forall c : Cmd, St -> Resp c * St)
           (p : Prog A) (s : St) : Outcome A :=
  snd (fst (run handle p s)).

Definition cmdOf (ev : Event) : Cmd :=
  match ev with Ev c _ => c end.

(** [always p Q]: whatever the calls answer, the trace and the outcome of
    [p] satisfy [Q]. *)
Fixpoint always {A} (p : Prog A) (Q : list Event -> Outcome A -> Prop)
  : Prop :=
  match p with
  | Ret a => Q [] (Returned a)
  | Throw e => Q [] (Threw e)
  | Vis c k => forall r : Resp c, always (k r) (fun t o => Q (Ev c r :: t) o)
  end.

(** *** The pipelines *)

Section Pipelines.

Context {X : Externals}.

(** The stack a [new Error(message)] captures in [wrapError]. *)
Variable capturedStack : string -> option string.

Definition emitError (error : ErrorObj) : Prog unit :=
  call (EmitError error) (fun r => r).

(** [catch (err) { const wrapped = this.wrapError(err);
    this.emit('error', wrapped) }] *)
Definition reportError {A} (a : A) (err : Thrown) : Prog A :=
  bind (emitError (Linter.wrapError capturedStack err)) (fun _ => Ret a).

(** [Linter.initializeLintPlugins] *)
Fixpoint initializeLintPlugins (plugins : list LinterPlugin)
         (context : LintPluginContext) : Prog unit :=
  match plugins with
  | [] => Ret tt
  | plugin :: rest =>
      bind (try_catch
              (if has_lintSetup plugin
               then call (LintSetup plugin context) (fun r => r)
               else Ret tt)
              (reportError tt))
           (fun _ => initializeLintPlugins rest context)
  end.

(** How one turn of the loop of [runLintOnLoadPipeline] ends: with
    [return null], or with the code for the next turn. *)
Inductive Turn :=
| ReturnNull
| GoOn (code : string).

(** The body of the [try] of [runLintOnLoadPipeline]. *)
Definition onLoadTurn (plugin : LinterPlugin) (code filePath : string)
  : Prog Turn :=
  try_catch
    (if has_lintOnLoad plugin then
       bind (call (LintOnLoad plugin code filePath) (fun r => r))
            (fun result =>
               match result with
               | JNull => Ret ReturnNull
               | JStr s => Ret (GoOn s)
               | _ => Ret (GoOn code)
               end)
     else Ret (GoOn code))
    (reportError (GoOn code)).

(** [Linter.runLintOnLoadPipeline]; [None] is [null]. *)
Fixpoint runLintOnLoadPipeline (initialCode filePath : string)
         (plugins : list LinterPlugin) : Prog (option string) :=
  match plugins with
  | [] => Ret (Some initialCode)
  | plugin :: rest =>
      if negb (shouldRunLintPluginForFile plugin filePath)
      then runLintOnLoadPipeline initialCode filePath rest
      else
        bind (onLoadTurn plugin initialCode filePath)
             (fun turn =>
                match turn with
                | ReturnNull => Ret None
                | GoOn code => runLintOnLoadPipeline code filePath rest
                end)
  end.

(** [Linter.runLintOnResultPipeline] *)
Fixpoint runLintOnResultPipeline (filePath : string)
         (initialIssues : list Issue) (plugins : list LinterPlugin)
  : Prog (list Issue) :=
  match plugins with
  | [] => Ret initialIssues
  | plugin :: rest =>
      if negb (shouldRunLintPluginForFile plugin filePath)
      then runLintOnResultPipeline filePath initialIssues rest
      else
        bind (try_catch
                (if has_lintOnResult plugin then
                   bind (call (LintOnResult plugin filePath initialIssues)
                              (fun r => r))
                        (fun result =>
                           match result with
                           | Some issues => Ret issues
                           | None => Ret initialIssues
                           end)
                 else Ret initialIssues)
                (reportError initialIssues))
             (fun issues => runLintOnResultPipeline filePath issues rest)
  end.

End Pipelines.

End WithIssues.

Arguments Throw {Issue A} e.
Arguments Ret {Issue A} a.
Arguments LintSetup {Issue} plugin context.
Arguments LintOnLoad {Issue} plugin code filePath.
Arguments EmitError {Issue} error.

End LintEffects.

(** ** More of the small world *)

Module MoreDemo.

Import Effects Extractor.

(** A plugin that has an [afterSync] hook and no [onLoad] hook. *)
Definition hooked : Plugin := mkPlugin "hooked" false true.

Definition hookedConfig : Config :=
  mkConfig (locales Demo.config) (extract Demo.config) None
           (Some [Demo.passive; hooked]).

(** A dry run with the two plugins. *)
Definition hookedDryRun : @Prog Demo.externals RunResult :=
  @runExtractor Demo.externals hookedConfig Demo.dryOptions.



End MoreDemo.

(** A small world for the lint pipelines. *)

Module LintDemo.

Import LintPlugins LintEffects.

(** A plugin whose three hooks throw. *)
Definition throwing : LinterPlugin :=
  mkLinterPlugin "lint-throws" None true true true.

(** A plugin that only handles [.ts] files. *)
Definition tsOnly : LinterPlugin :=
  mkLinterPlugin "ts-only-lint-plugin" (Some [".ts"]) false true false.

(** A plugin that replaces the code, and one that skips the file. *)
Definition first : LinterPlugin :=
  mkLinterPlugin "first" None true true true.

Definition skipper : LinterPlugin :=
  mkLinterPlugin "lint-skip-file" None false true false.

Definition boom (what : string) : Thrown :=
  ThrownError (mkError "Error" (what ++ " boom") None).

Definition synthetic : Linter.LintIssue :=
  Linter.mkIssue "Synthetic lint issue" 1 "hardcoded".

(** What the hooks answer; a listener for [error] is registered. *)
Definition answer (c : Cmd Linter.LintIssue) (s : unit)
  : Resp c * unit :=
  (match c return Resp c with
   | LintSetup plugin _ =>
       if String.eqb (lint_name plugin) "lint-throws"
       then Threw (boom "setup") else Returned tt
   | LintOnLoad plugin _ _ =>
       if String.eqb (lint_name plugin) "lint-throws"
       then Threw (boom "load")
       else if String.eqb (lint_name plugin) "first"
       then Returned (JStr "<p>first</p>")
       else if String.eqb (lint_name plugin) "lint-skip-file"
       then Returned JNull
       else Returned JUndefined
   | LintOnResult plugin _ _ =>
       if String.eqb (lint_name plugin) "lint-throws"
       then Threw (boom "result")
       else if String.eqb (lint_name plugin) "first"
       then Returned (Some [synthetic])
       else Returned None
   | EmitError _ => Returned tt
   end, s).

Definition noStack : string -> option string := fun _ => None.

Definition plugins : list LinterPlugin := [throwing; tsOnly; first; skipper].

Definition context : LintPluginContext :=
  mkLintPluginContext Demo.config Demo.silent.

(** The three pipelines on [/src/App.tsx]. *)
Definition loading : Prog Linter.LintIssue (option string) :=
  @runLintOnLoadPipeline Linter.LintIssue Demo.externals noStack
                         "<Trans>ignored</Trans>" "/src/App.tsx" plugins.

Definition posting : Prog Linter.LintIssue (list Linter.LintIssue) :=
  @runLintOnResultPipeline Linter.LintIssue Demo.externals noStack
                           "/src/App.tsx" [] plugins.

Definition setting : Prog Linter.LintIssue unit :=
  initializeLintPlugins Linter.LintIssue noStack plugins context.

End LintDemo.

(* ================================================================== *)
(** * Properties *)

(** ** Facts on strings *)

Module JsStringFacts.

Import JsString.

Lemma startsWith_append (p s : string) : startsWith (p ++ s) p = true.
Proof.
  unfold startsWith. induction p as [|c p IH]; simpl.
  - destruct s; reflexivity.
  - destruct (ascii_dec c c) as [_|N]; [exact IH | congruence].
Qed.

Lemma slice_append (p s : string) : slice (String.length p) (p ++ s) = s.
Proof. induction p as [|c p IH]; simpl; auto. Qed.

Lemma append_length (a b : string) :
  String.length (a ++ b) = String.length a + String.length b.
Proof. induction a as [|c a IH]; simpl; auto. Qed.

Lemma append_inv_head (p a b : string) : p ++ a = p ++ b -> a = b.
Proof.
  induction p as [|c p IH]; simpl; intros H; auto.
  inversion H. auto.
Qed.

Lemma append_inv_tail (a b t : string) : a ++ t = b ++ t -> a = b.
Proof.
  revert b. induction a as [|c a IH]; intros [|d b] H; simpl in *; auto.
  - apply (f_equal String.length) in H. simpl in H.
    rewrite append_length in H. lia.
  - apply (f_equal String.length) in H. simpl in H.
    rewrite append_length in H. lia.
  - inversion H. f_equal. auto.
Qed.

End JsStringFacts.

(** ** The linter *)

Module LinterFacts.

Import Linter.




Lemma includes_In (l : list string) (k : string) :
  includes l k = true <-> In k l.
Proof.
  unfold includes. rewrite existsb_exists. split.
  - intros (x & Hin & E). apply String.eqb_eq in E. now subst.
  - intros H. exists k. split; [assumption | apply String.eqb_refl].
Qed.

Lemma isI18nextOptionKey_spec (key : string) :
  isI18nextOptionKey key = true
  <-> In key i18nextOptionKeys
      \/ JsString.startsWith key "defaultValue_" = true.
Proof.
  unfold isI18nextOptionKey.
  destruct (includes i18nextOptionKeys key) eqn:E.
  - split; auto. intros _. left. now apply includes_In.
  - destruct (JsString.startsWith key "defaultValue_") eqn:F.
    + split; auto.
    + split; [discriminate|]. intros [H|H]; [|discriminate].
      apply includes_In in H. congruence.
Qed.

Lemma unusedText_inj (a b : string) : unusedText a = unusedText b -> a = b.
Proof.
  unfold unusedText. intros H.
  apply JsStringFacts.append_inv_head in H.
  apply JsStringFacts.append_inv_head in H.
  now apply JsStringFacts.append_inv_tail in H.
Qed.

Lemma missingText_not_unusedText (k pk : string) :
  missingText k <> unusedText pk.
Proof. unfold missingText, unusedText. simpl. discriminate. Qed.

(** No issue of a list names an option key as unused. *)
Definition sparesOptionKeys (issues : list LintIssue) : Prop :=
  forall i pk, In i issues -> isI18nextOptionKey pk = true ->
               text i <> unusedText pk.

Lemma sparesOptionKeys_app (a b : list LintIssue) :
  sparesOptionKeys a -> sparesOptionKeys b -> sparesOptionKeys (a ++ b)%list.
Proof.
  intros Ha Hb i pk Hin. apply in_app_or in Hin.
  destruct Hin; [now apply Ha | now apply Hb].
Qed.

Lemma missingIssues_spare (keys params : list string) (n : nat) :
  sparesOptionKeys (missingIssues keys params n).
Proof.
  intros i pk Hin _. unfold missingIssues in Hin.
  apply in_flat_map in Hin. destruct Hin as (k & _ & Hi).
  destruct (negb (includes params k)
            && negb (includes params (JsString.beforeFirstDot k)));
    simpl in Hi; [|contradiction].
  destruct Hi as [<-|[]]. apply missingText_not_unusedText.
Qed.

Lemma unusedIssues_spare (keys params : list string) (n : nat) :
  sparesOptionKeys (unusedIssues keys params n).
Proof.
  intros i pk Hin Hopt. unfold unusedIssues in Hin.
  apply in_flat_map in Hin. destruct Hin as (pk' & _ & Hi).
  destruct (isI18nextOptionKey pk') eqn:E; [contradiction|].
  match type of Hi with
  | In _ (if ?b then _ else _) => destruct b
  end; simpl in Hi; [|contradiction].
  destruct Hi as [<-|[]]. simpl. intros H.
  apply unusedText_inj in H. congruence.
Qed.

Lemma callSiteIssues_spare (keys params : list string) (n : nat) :
  sparesOptionKeys (callSiteIssues keys params n).
Proof.
  unfold callSiteIssues. destruct (0 <? List.length keys)%nat.
  - apply sparesOptionKeys_app;
      [apply missingIssues_spare | apply unusedIssues_spare].
  - intros i pk [].
Qed.

Lemma checkCallSite_spare (code : string) (config : Config)
      (st : nat * list LintIssue) (site : CallSite) :
  sparesOptionKeys (snd st) ->
  sparesOptionKeys (snd (checkCallSite code config st site)).
Proof.
  destruct st as [last issues]. unfold checkCallSite. simpl.
  destruct (JsString.indexOf code (searchText site) last); simpl; auto.
  intros H. apply sparesOptionKeys_app; [assumption|].
  apply callSiteIssues_spare.
Qed.

Lemma checkCallSites_spare (code : string) (config : Config)
      (sites : list CallSite) (st : nat * list LintIssue) :
  sparesOptionKeys (snd st) ->
  sparesOptionKeys (snd (fold_left (checkCallSite code config) sites st)).
Proof.
  revert st. induction sites as [|site sites IH]; intros st H; simpl; auto.
  apply IH. now apply checkCallSite_spare.
Qed.

End LinterFacts.













(** C9. A parameter given to a [t()] call whose name is a known i18next
    option ([count], [context], [ns], [defaultValue], ...) or starts with
    [defaultValue_] is never reported as unused by
    [lintInterpolationParams]; and a call site whose resolved translation
    string holds no interpolation placeholder adds no issue at all. *)
Theorem option_keys_never_reported_unused :
  forall (ast : JsVal) (code : string) (config : Config)
         (translationValues : option (list (string * string)))
         (issues : list Linter.LintIssue),
    Linter.lintInterpolationParams ast code config translationValues
    = Linter.Ok issues ->
    (forall (pk : string) (i : Linter.LintIssue),
        In pk Linter.i18nextOptionKeys
        \/ JsString.startsWith pk "defaultValue_" = true ->
        In i issues ->
        Linter.text i <> Linter.unusedText pk)
    /\ (forall (site : Linter.CallSite) (st : nat * list Linter.LintIssue),
           Linter.extractInterpolationKeys (Linter.translationStr site) config
           = [] ->
           snd (Linter.checkCallSite code config st site) = snd st).
Proof.
  intros ast code config tv issues H. split.
  - intros pk i Hpk Hin.
    apply LinterFacts.isI18nextOptionKey_spec in Hpk.
    revert i pk Hin Hpk. change (LinterFacts.sparesOptionKeys issues).
    unfold Linter.lintInterpolationParams in H.
    match type of H with
    | (if ?b then _ else _) = _ => destruct b
    end.
    + inversion H. intros i pk [].
    + destruct (Linter.walk config tv ast [] []) as [sites| |];
        simpl in H; try discriminate.
      inversion H. apply LinterFacts.checkCallSites_spare.
      intros i pk [].
  - intros site [last acc] Hk. unfold Linter.checkCallSite.
    destruct (JsString.indexOf code (Linter.searchText site) last);
      [|reflexivity].
    rewrite Hk. simpl. apply app_nil_r.
Qed.
(** C10. [Linter.wrapError] is idempotent: whatever it is given, the message
    of the [Error] it returns starts with ["Linter failed to run: "], and
    wrapping that [Error] again returns the very same [Error], so the prefix
    is never doubled. *)
Theorem wrapError_idempotent :
  forall (capturedStack : string -> option string) (error : Thrown),
    let wrapped := Linter.wrapError capturedStack error in
    JsString.startsWith (err_message wrapped) Linter.prefix = true
    /\ Linter.wrapError capturedStack (ThrownError wrapped) = wrapped.
Proof.
  intros capturedStack error wrapped.
  assert (H : JsString.startsWith (err_message wrapped) Linter.prefix = true).
  { subst wrapped. unfold Linter.wrapError.
    destruct error as [e | s | | | m st r];
      [ destruct (JsString.startsWith (err_message e) Linter.prefix) eqn:E;
        [exact E|] | .. ];
      cbn [err_message]; apply JsStringFacts.startsWith_append. }
  split; [exact H|].
  unfold Linter.wrapError at 1. fold wrapped. rewrite H. reflexivity.
Qed.

(** ** Programs and their runs *)

Module EffectFacts.

Import Effects.

Section WithExternals.

Context {X : Externals}.

Lemma always_mono {A} (p : Prog A) :
  forall (Q Q' : list Event -> Outcome A -> Prop),
    (forall t o, Q t o -> Q' t o) -> always p Q -> always p Q'.
Proof.
  induction p as [a | e | c k IH]; intros Q Q' HQ H; simpl in *; auto.
  intros r. eapply IH; [|apply H]. intros t o. apply HQ.
Qed.

Lemma always_bind {A B} (p : Prog A) (f : A -> Prog B) :
  forall (Q : list Event -> Outcome B -> Prop),
    always p (fun t o =>
                match o with
                | Returned a => always (f a) (fun t' o' => Q (t ++ t')%list o')
                | Threw e => Q t (Threw e)
                end) ->
    always (bind p f) Q.
Proof.
  induction p as [a | e | c k IH]; intros Q H; simpl in *.
  - eapply always_mono; [|exact H]. auto.
  - exact H.
  - intros r. apply IH. eapply always_mono; [|apply H].
    intros t [a|e] Ha; simpl in *; auto.
Qed.

Lemma always_try_catch {A} (p : Prog A) (h : Thrown -> Prog A) :
  forall (Q : list Event -> Outcome A -> Prop),
    always p (fun t o =>
                match o with
                | Returned a => Q t (Returned a)
                | Threw e => always (h e) (fun t' o' => Q (t ++ t')%list o')
                end) ->
    always (try_catch p h) Q.
Proof.
  induction p as [a | e | c k IH]; intros Q H; simpl in *.
  - exact H.
  - eapply always_mono; [|exact H]. auto.
  - intros r. apply IH. eapply always_mono; [|apply H].
    intros t [a|e] Ha; simpl in *; auto.
Qed.

(** What holds of every run holds of the run against any handler. *)
Lemma always_run {A} (p : Prog A) :
  forall (Q : list Event -> Outcome A -> Prop),
    always p Q ->
    forall St (handle : forall c : Cmd, St -> Resp c * St) (s : St),
      Q (traceOf handle p s) (outcomeOf handle p s).
Proof.
  unfold traceOf, outcomeOf.
  induction p as [a | e | c k IH]; intros Q H St handle s; simpl in *; auto.
  destruct (handle c s) as [r s1].
  specialize (IH r _ (H r) St handle s1).
  destruct (run handle (k r) s1) as [[t o] s2]. exact IH.
Qed.

Lemma always_any {A} (p : Prog A) :
  forall (Q : list Event -> Outcome A -> Prop),
    (forall t o, Q t o) -> always p Q.
Proof.
  induction p as [a | e | c k IH]; intros Q H; simpl; auto.
Qed.

(** The rule of a loop: [P l s] is what holds of the runs of the loop over
    [l] started in state [s]. *)
Lemma always_forEach {A S} (body : S -> A -> Prog S)
      (P : list A -> S -> list Event -> Outcome S -> Prop) :
  (forall s, P [] s [] (Returned s)) ->
  (forall x l s,
      always (body s x)
             (fun t o =>
                match o with
                | Returned s' =>
                    forall t' o', P l s' t' o' -> P (x :: l) s (t ++ t')%list o'
                | Threw e => P (x :: l) s t (Threw e)
                end)) ->
  forall l s, always (forEach l s body) (P l s).
Proof.
  intros Hnil Hcons. induction l as [|x l IH]; intros s; simpl.
  - apply Hnil.
  - apply always_bind. eapply always_mono; [|apply Hcons].
    intros t [s'|e] H; [|exact H].
    eapply always_mono; [|apply IH]. intros t' o'. apply H.
Qed.

(** *** Properties of every call of a trace *)

Section Calls.

Variable P : Event -> Prop.

(** Every call [p] can make satisfies [P]. *)
Definition calls {A} (p : Prog A) : Prop :=
  always p (fun t _ => Forall P t).

Lemma calls_ret {A} (a : A) : calls (Ret a).
Proof. constructor. Qed.

Lemma calls_throw {A} (e : Thrown) : calls (@Throw _ A e).
Proof. constructor. Qed.

Lemma calls_vis {A} (c : Cmd) (k : Resp c -> Prog A) :
  (forall r, P (Ev c r)) -> (forall r, calls (k r)) -> calls (Vis c k).
Proof.
  intros Hc Hk r. eapply always_mono; [|apply Hk].
  intros t o H. constructor; auto.
Qed.

Lemma calls_bind {A B} (p : Prog A) (f : A -> Prog B) :
  calls p -> (forall a, calls (f a)) -> calls (bind p f).
Proof.
  intros Hp Hf. apply always_bind. eapply always_mono; [|apply Hp].
  intros t [a|e] H; auto.
  eapply always_mono; [|apply Hf]. intros t' o' H'.
  apply Forall_app. auto.
Qed.

Lemma calls_try_catch {A} (p : Prog A) (h : Thrown -> Prog A) :
  calls p -> (forall e, calls (h e)) -> calls (try_catch p h).
Proof.
  intros Hp Hh. apply always_try_catch. eapply always_mono; [|apply Hp].
  intros t [a|e] H; auto.
  eapply always_mono; [|apply Hh]. intros t' o' H'.
  apply Forall_app. auto.
Qed.

Lemma calls_await {A} (o : Outcome A) : calls (await o).
Proof. destruct o; constructor. Qed.

Lemma calls_forEach {A S} (body : S -> A -> Prog S) (l : list A) :
  (forall s x, In x l -> calls (body s x)) ->
  forall s, calls (forEach l s body).
Proof.
  induction l as [|x l IH]; intros H s; simpl.
  - constructor.
  - apply calls_bind; [apply H; now left|].
    intros s'. apply IH. intros s0 y Hy. apply H. now right.
Qed.

End Calls.

End WithExternals.

End EffectFacts.

(** ** [processFile] *)

Module ProcessFileFacts.

Import Effects Extractor EffectFacts.

Section WithExternals.

Context {X : Externals}.

Variables (logger : Logger) (file : string).

Definition onLoadFailed (plugin : Plugin) : string :=
  "Plugin " ++ plugin_name plugin ++ " onLoad failed:".

(** The traces of the loop over the [onLoad] hooks: [HookRun code t final]
    holds when the loop, started with [code], can make the calls [t] and end
    with [final]. *)
Inductive HookRun : string -> list Event -> string -> Prop :=
| HookRun_done code : HookRun code [] code
| HookRun_replaced plugin code code' t final :
    HookRun code' t final ->
    HookRun code
            (Ev (PluginOnLoad plugin code file) (Returned (Some code')) :: t)
            final
| HookRun_undefined plugin code t final :
    HookRun code t final ->
    HookRun code (Ev (PluginOnLoad plugin code file) (Returned None) :: t)
            final
| HookRun_threw plugin code e t final :
    HookRun code t final ->
    HookRun code
            (Ev (PluginOnLoad plugin code file) (Threw e)
                :: Ev (LoggerWarn logger (onLoadFailed plugin) (Some e)) tt
                :: t)
            final.

Lemma runOnLoadHooks_always (plugins : list Plugin) :
  forall code,
    always (runOnLoadHooks logger file plugins code)
           (fun t o => exists final, o = Returned final /\ HookRun code t final).
Proof.
  induction plugins as [|plugin plugins IH]; intros code; simpl.
  - exists code. split; [reflexivity | constructor].
  - apply always_bind. unfold runOnLoadHook.
    destruct (has_onLoad plugin); simpl.
    + intros [[code'|]|e]; simpl.
      * eapply always_mono; [|apply IH].
        intros t o (final & -> & H). exists final. split; [reflexivity|].
        now constructor.
      * eapply always_mono; [|apply IH].
        intros t o (final & -> & H). exists final. split; [reflexivity|].
        now constructor.
      * intros []. simpl. eapply always_mono; [|apply IH].
        intros t o (final & -> & H). exists final. split; [reflexivity|].
        now constructor.
    + eapply always_mono; [|apply IH]. auto.
Qed.

(** The calls of a hook loop are calls to hooks and warnings. *)
Definition hookish (ev : Event) : bool :=
  match cmdOf ev with
  | PluginOnLoad _ _ _ | LoggerWarn _ _ _ => true
  | _ => false
  end.

Lemma HookRun_hookish code t final :
  HookRun code t final -> forallb hookish t = true.
Proof. induction 1; simpl; auto. Qed.

Lemma hookish_not_parsedOk (t l : list Event) :
  forallb hookish t = true ->
  existsb parsedOk (t ++ l)%list = existsb parsedOk l.
Proof.
  induction t as [|[c r] t IH]; simpl; auto.
  intros H. apply andb_prop in H. destruct H as [Hc Ht].
  rewrite (IH Ht). destruct c; try discriminate; reflexivity.
Qed.

Lemma hookish_not_traverses (t l : list Event) :
  forallb hookish t = true ->
  existsb traverses (t ++ l)%list = existsb traverses l.
Proof.
  induction t as [|[c r] t IH]; simpl; auto.
  intros H. apply andb_prop in H. destruct H as [Hc Ht].
  rewrite (IH Ht). destruct c; try discriminate; reflexivity.
Qed.

End WithExternals.

(** Splitting the cases of a program whose next step waits on a test or on
    the answer of a call. *)
Ltac stuck_on p :=
  lazymatch p with
  | bind ?q _ => stuck_on q
  | try_catch ?q _ => stuck_on q
  | await ?o => destruct o
  | (if ?b then _ else _) => destruct b eqn:?
  | (match ?x with _ => _ end) => destruct x eqn:?
  | info ?l _ => unfold info
  | infoIfAny ?l _ => unfold infoIfAny
  end.

Ltac crunch :=
  repeat (simpl;
          match goal with
          | |- forall _ : Outcome _, _ => intro
          | |- forall _ : unit, _ => intro
          | |- forall _ : Resp _, _ => intro
          | |- always ?p _ => stuck_on p
          end);
  simpl;
  repeat match goal with r : unit |- _ => destruct r end.

Section SkippedFiles.

Context {X : Externals}.

Variables (logger : Logger) (file : string)
          (fileErrors : option (list string)).

Definition skipWarning : Event :=
  Ev (LoggerWarn logger
        (styleText ["yellow"] "Skipping file due to error:" ++ " " ++ file)
        None) tt.

(** What C1 says of a run of [processFile]. *)
Definition skipsUnparsable (t : list Event)
           (o : Outcome (option (list string))) : Prop :=
  (exists fe, o = Returned fe)
  /\ (existsb parsedOk t = false ->
      o = Returned (pushIfAny fileErrors file)
      /\ In skipWarning t
      /\ existsb traverses t = false).

Lemma processFile_skipsUnparsable
      (plugins : list Plugin) (astVisitors : ASTVisitors)
      (pluginContext : PluginContext) (config : Config) :
  always (processFile file plugins astVisitors pluginContext config logger
                      fileErrors)
         skipsUnparsable.
Proof.
  unfold processFile.
  apply always_try_catch. apply always_bind. simpl. intros [code|e]; simpl.
  - apply always_bind.
    eapply always_mono; [|apply runOnLoadHooks_always].
    intros t o (final & -> & HR). apply HookRun_hookish in HR.
    unfold parseWithFallback. crunch.
    all: unfold skipsUnparsable; split; [eexists; reflexivity|].
    all: repeat rewrite <- app_assoc; simpl.
    all: rewrite (hookish_not_parsedOk _ _ HR); simpl.
    all: try discriminate.
    all: intros _; rewrite (hookish_not_traverses _ _ HR); simpl.
    all: repeat split.
    all: right; apply in_or_app; right; simpl; unfold skipWarning; auto 10.
  - crunch.
    all: unfold skipsUnparsable; split; [eexists; reflexivity|].
    all: intros _; repeat split; simpl; unfold skipWarning; auto 10.
Qed.

End SkippedFiles.

Section CommentScan.

Context {X : Externals}.

Variables (astVisitors : ASTVisitors) (pluginContext : PluginContext)
          (config : Config).

(** Traces in which the comment scan, if there is one, comes once and right
    after a traversal that returned. *)
Inductive ScanShape : list Event -> Prop :=
| ScanShape_none t :
    existsb isCommentScan t = false -> ScanShape t
| ScanShape_skip ev t :
    isCommentScan ev = false -> ScanShape t -> ScanShape (ev :: t)
| ScanShape_scan ast code r post :
    extractFromComments (extract config) <> Some false ->
    existsb isCommentScan post = false ->
    ScanShape (Ev (Visit astVisitors ast) (Returned tt)
                  :: Ev (ExtractKeysFromComments code pluginContext config
                                                 astVisitors) r
                  :: post).

Lemma ScanShape_after_hooks (t l : list Event) :
  forallb hookish t = true -> ScanShape l -> ScanShape (t ++ l)%list.
Proof.
  induction t as [|[c r] t IH]; simpl; auto.
  intros H Hl. apply andb_prop in H. destruct H as [Hc Ht].
  apply ScanShape_skip; auto.
  destruct c; try discriminate; reflexivity.
Qed.

Lemma processFile_ScanShape
      (logger : Logger) (file : string) (plugins : list Plugin)
      (fileErrors : option (list string)) :
  always (processFile file plugins astVisitors pluginContext config logger
                      fileErrors)
         (fun t _ => ScanShape t).
Proof.
  unfold processFile.
  apply always_try_catch. apply always_bind. simpl. intros [code|e]; simpl.
  - apply always_bind.
    eapply always_mono; [|apply runOnLoadHooks_always].
    intros t o (final & -> & HR). apply HookRun_hookish in HR.
    unfold parseWithFallback. crunch.
    all: repeat rewrite <- app_assoc; simpl.
    all: apply ScanShape_skip; [reflexivity|].
    all: apply ScanShape_after_hooks; [exact HR|].
    all: repeat first
             [ apply ScanShape_none; reflexivity
             | apply ScanShape_scan; [congruence | reflexivity]
             | apply ScanShape_skip; [reflexivity|] ].
  - crunch. all: apply ScanShape_none; reflexivity.
Qed.

Lemma ScanShape_split (t : list Event) :
  ScanShape t ->
  existsb isCommentScan t = false
  \/ exists pre ast code r post,
      t = (pre ++ Ev (Visit astVisitors ast) (Returned tt)
               :: Ev (ExtractKeysFromComments code pluginContext config
                                              astVisitors) r
               :: post)%list
      /\ existsb isCommentScan pre = false
      /\ existsb isCommentScan post = false.
Proof.
  induction 1 as [t H | ev t Hev _ IH | ast code r post Hc Hp].
  - now left.
  - destruct IH as [IH | (pre & ast & code & r & post & -> & Hpre & Hpost)].
    + left. simpl. now rewrite Hev, IH.
    + right. exists (ev :: pre), ast, code, r, post. simpl.
      rewrite Hev, Hpre. auto.
  - right. exists [], ast, code, r, post. auto.
Qed.

Lemma ScanShape_off (t : list Event) :
  ScanShape t ->
  extractFromComments (extract config) = Some false ->
  existsb isCommentScan t = false.
Proof.
  induction 1 as [t H | ev t Hev _ IH | ast code r post Hc Hp]; intros E.
  - exact H.
  - simpl. now rewrite Hev, IH.
  - contradiction.
Qed.

Lemma ScanShape_once (t : list Event) :
  ScanShape t -> List.length (filter isCommentScan t) <= 1.
Proof.
  assert (N : forall l, existsb isCommentScan l = false ->
                        filter isCommentScan l = []).
  { induction l as [|ev l IH]; simpl; auto.
    destruct (isCommentScan ev); simpl; [discriminate | exact IH]. }
  induction 1 as [t H | ev t Hev _ IH | ast code r post Hc Hp].
  - rewrite (N _ H). simpl. lia.
  - simpl. rewrite Hev. exact IH.
  - simpl. rewrite (N _ Hp). simpl. lia.
Qed.

End CommentScan.

Section HookFailure.

Context {X : Externals}.

Variables (logger : Logger).

(** What C4 says of the call [ev] and of the calls [post] that follow it. *)
Definition keptAfter (ev : Event) (post : list Event) : Prop :=
  forall plugin code f,
    cmdOf ev = PluginOnLoad plugin code f ->
    (forall e, thrownBy ev = Some e ->
               exists next rest,
                 post = Ev (LoggerWarn logger (onLoadFailed plugin) (Some e))
                           tt :: next :: rest
                 /\ codeGiven (cmdOf next) = Some code)
    /\ (answeredUndefined ev = true ->
        exists next rest,
          post = next :: rest /\ codeGiven (cmdOf next) = Some code).

Fixpoint keepsCode (t : list Event) : Prop :=
  match t with
  | [] => True
  | ev :: post => keptAfter ev post /\ keepsCode post
  end.

Lemma keepsCode_split (t : list Event) :
  keepsCode t ->
  forall pre ev post, t = (pre ++ ev :: post)%list -> keptAfter ev post.
Proof.
  intros H pre. revert t H.
  induction pre as [|x pre IH]; intros t H ev post ->; simpl in H.
  - tauto.
  - destruct H as [_ H]. eapply IH; [exact H | reflexivity].
Qed.

Lemma keepsCode_no_hook (t : list Event) :
  existsb isOnLoad t = false -> keepsCode t.
Proof.
  induction t as [|[c r] t IH]; simpl; auto.
  intros H. apply orb_false_elim in H. destruct H as [Hc Ht].
  split; auto.
  intros plugin code f E. simpl in E. subst c. discriminate.
Qed.

Lemma HookRun_first (file : string) code t final :
  HookRun logger file code t final ->
  forall next rest,
    codeGiven (cmdOf next) = Some final ->
    exists next' rest',
      (t ++ next :: rest)%list = next' :: rest'
      /\ codeGiven (cmdOf next') = Some code.
Proof.
  destruct 1; intros next rest E; simpl; eauto.
Qed.

Lemma HookRun_keepsCode (file : string) code t final :
  HookRun logger file code t final ->
  forall next rest,
    codeGiven (cmdOf next) = Some final ->
    keepsCode (next :: rest) ->
    keepsCode (t ++ next :: rest)%list.
Proof.
  induction 1 as [code | plugin code code' t final H IH
                  | plugin code t final H IH | plugin code e t final H IH];
    intros next rest E K; simpl app.
  - exact K.
  - split; [|now apply IH].
    intros p c f Ec. inversion Ec; subst. split; simpl; discriminate.
  - split; [|now apply IH].
    intros p c f Ec. inversion Ec; subst. split; simpl; [discriminate|].
    intros _. eapply HookRun_first; eassumption.
  - split; [|split; [|now apply IH]].
    + intros p c f Ec. inversion Ec; subst. split; simpl; [|discriminate].
      intros e' Ee. inversion Ee; subst.
      destruct (HookRun_first H next rest E) as (n' & r' & -> & En).
      eauto.
    + intros p c f Ec. discriminate.
Qed.

Lemma processFile_keepsCode
      (file : string) (plugins : list Plugin) (astVisitors : ASTVisitors)
      (pluginContext : PluginContext) (config : Config)
      (fileErrors : option (list string)) :
  always (processFile file plugins astVisitors pluginContext config logger
                      fileErrors)
         (fun t _ => keepsCode t).
Proof.
  unfold processFile.
  apply always_try_catch. apply always_bind. simpl. intros [code|e]; simpl.
  - apply always_bind.
    eapply always_mono; [|apply runOnLoadHooks_always].
    intros t o (final & -> & HR).
    unfold parseWithFallback. crunch.
    all: repeat rewrite <- app_assoc; simpl app.
    all: split; [intros p c f Ec; discriminate|].
    all: eapply HookRun_keepsCode; [exact HR | reflexivity |].
    all: apply keepsCode_no_hook; reflexivity.
  - crunch.
    all: match goal with
         | |- keptAfter ?ev ?l /\ _ => change (keepsCode (ev :: l))
         end.
    all: apply keepsCode_no_hook; reflexivity.
Qed.

End HookFailure.

End ProcessFileFacts.

(** ** [runExtractor] *)

Module RunExtractorFacts.

Import Effects Extractor EffectFacts ProcessFileFacts.

Section WithExternals.

Context {X : Externals}.

Variables (config : Config) (options : Options).

Definition internalLoggerOf : Logger :=
  match logger options with Some l => l | None => ConsoleLogger end.

Definition dry : bool := isTrue (isDryRun options).

(** Every call of the trace returned. *)
Definition allReturned (t : list Event) : Prop := forallb returned t = true.

(** The [info] method that [runExtractor] calls after a write exists. *)
Definition loggerOk : Prop :=
  dry = true \/ info_is_function internalLoggerOf = true.

Lemma allReturned_app (a b : list Event) :
  allReturned (a ++ b)%list <-> allReturned a /\ allReturned b.
Proof. unfold allReturned. rewrite forallb_app. apply andb_true_iff. Qed.

Lemma writtenPaths_app (a b : list Event) :
  writtenPaths (a ++ b)%list = (writtenPaths a ++ writtenPaths b)%list.
Proof. apply flat_map_app. Qed.

(** What holds of the loop over [results]. *)
Definition SyncSpec (results : list TranslationResult) (any : bool)
           (t : list Event) (o : Outcome bool) : Prop :=
  (forall b, o = Returned b -> b = any || existsb updated results)
  /\ (allReturned t -> loggerOk ->
      o = Returned (any || existsb updated results)
      /\ writtenPaths t
         = if dry then [] else map path (filter updated results)).

Lemma syncResults_spec (results : list TranslationResult) (any : bool) :
  always (forEach results any
                  (syncResult (withDefaults config) options internalLoggerOf))
         (SyncSpec results any).
Proof.
  revert results any. apply always_forEach.
  - intros any. split; simpl.
    + intros b E. inversion E. now rewrite orb_false_r.
    + intros _ _. rewrite orb_false_r. now destruct dry.
  - intros x l any. unfold syncResult. fold dry.
    destruct (updated x) eqn:U; [destruct dry eqn:D|]; simpl.
    + intros t' o' [H1 H2]. split; simpl; rewrite ?U, ?orb_true_r in *.
      * intros b E. now rewrite (H1 b E).
      * intros R L. destruct (H2 R L) as [-> W]. now rewrite W, D.
    + unfold writeResult. crunch.
      all: try (intros t' o' [H1 H2]; split;
                [ intros b E; rewrite (H1 b E); simpl; rewrite U;
                  now rewrite orb_true_r
                | intros R L; unfold allReturned in R; simpl in R;
                  destruct (H2 R L) as [-> W]; split;
                  [ simpl; rewrite U; now rewrite orb_true_r
                  | unfold writtenPaths in *; simpl; rewrite W, U, D;
                    reflexivity ] ]).
      all: split; [intros b E; discriminate E|].
      all: intros R L; exfalso; unfold allReturned in R; simpl in R.
      all: try discriminate R.
      all: destruct L; congruence.
    + intros t' o' [H1 H2]. split; simpl; rewrite ?U in *; simpl; auto.
Qed.

(** What holds of the loop over the [afterSync] hooks and of
    [printLocizeFunnel]. *)
Definition QuietSpec (t : list Event) (o : Outcome unit) : Prop :=
  (allReturned t -> o = Returned tt) /\ writtenPaths t = [].

Lemma afterSyncHooks_spec (results : list TranslationResult)
      (plugins : list Plugin) :
  always (forEach plugins tt
                  (fun _ plugin =>
                     if has_afterSync plugin
                     then afterSync plugin results (withDefaults config)
                     else Ret tt))
         QuietSpec.
Proof.
  apply (always_forEach _ (fun _ _ => QuietSpec)).
  - intros []. split; reflexivity.
  - intros plugin l []. destruct (has_afterSync plugin); crunch.
    + intros t' o' H. exact H.
    + split; [discriminate | reflexivity].
    + intros t' o' H. exact H.
Qed.

Lemma printLocizeFunnel_spec (l : option Logger) :
  always (printLocizeFunnel l) QuietSpec.
Proof.
  unfold printLocizeFunnel, funnelLines. crunch.
  all: split; [|reflexivity].
  all: try reflexivity.
  all: discriminate.
Qed.

(** What holds of [runExtractor]: if it returns, and when every call
    returns. *)
Definition RunSpec (t : list Event) (o : Outcome RunResult) : Prop :=
  (forall v, o = Returned v ->
             exists evk allKeys objectKeys fileErrors evt results,
               In evk t
               /\ keysFound evk = Some (allKeys, objectKeys, fileErrors)
               /\ In evt t /\ translationsGot evt = Some results
               /\ v = mkRunResult (existsb updated results)
                                  (0 <? List.length fileErrors)%nat)
  /\ (allReturned t -> loggerOk ->
      exists evk allKeys objectKeys fileErrors evt results,
        In evk t
        /\ keysFound evk = Some (allKeys, objectKeys, fileErrors)
        /\ In evt t /\ translationsGot evt = Some results
        /\ o = Returned (mkRunResult (existsb updated results)
                                     (0 <? List.length fileErrors)%nat)
        /\ writtenPaths t
           = if dry then [] else map path (filter updated results)).

Lemma allReturned_cons (ev : Event) (t : list Event) :
  allReturned (ev :: t) <-> returned ev = true /\ allReturned t.
Proof. unfold allReturned. simpl. apply andb_true_iff. Qed.

Lemma writtenPaths_cons (ev : Event) (t : list Event) :
  writtenPaths (ev :: t)
  = ((match cmdOf ev with WriteFile p _ => [p] | _ => [] end)
       ++ writtenPaths t)%list.
Proof. reflexivity. Qed.

(** The leaves of [runExtractor_spec].  The calls to [findKeys] and to
    [getTranslations] are the third and the fifth of the trace. *)
Ltac split_returned R :=
  repeat (rewrite ?allReturned_app, ?allReturned_cons in R);
  repeat match type of R with _ /\ _ => destruct R as [? R] end.

Ltac name_calls :=
  match goal with
  | |- context [Ev (FindKeys ?a ?b ?c) ?r] =>
      match goal with
      | |- context [Ev (GetTranslations ?x ?y ?z ?u ?v) ?w] =>
          exists (Ev (FindKeys a b c) r);
          do 3 eexists;
          exists (Ev (GetTranslations x y z u v) w);
          eexists
      end
  end.

Ltac threw_leaf :=
  split;
  [ intros ? E; discriminate E
  | let R := fresh "R" in
    let L := fresh "L" in
    intros R L; exfalso; split_returned R;
    try discriminate;
    repeat match goal with
           | H : allReturned ?t -> _, K : allReturned ?t |- _ =>
               specialize (H K)
           | H : loggerOk -> _ |- _ => specialize (H L)
           | H : _ /\ _ |- _ => destruct H
           end;
    discriminate ].

Ltac returned_leaf :=
  split;
  [ intros ? E; inversion E; subst; name_calls;
    repeat split;
    first [ right; right; left; reflexivity
          | do 4 right; left; reflexivity
          | congruence ]
  | let R := fresh "R" in
    let L := fresh "L" in
    intros R L; split_returned R;
    repeat match goal with
           | H : allReturned ?t -> _, K : allReturned ?t |- _ =>
               specialize (H K)
           | H : loggerOk -> _ |- _ => specialize (H L)
           | H : _ /\ _ |- _ => destruct H
           end;
    name_calls;
    repeat split;
    first [ right; right; left; reflexivity
          | do 4 right; left; reflexivity
          | congruence
          | repeat (rewrite ?writtenPaths_cons, ?writtenPaths_app; simpl);
            repeat match goal with
                   | H : writtenPaths _ = _ |- _ => rewrite H
                   end;
            rewrite ?app_nil_r; reflexivity ] ].

Lemma runExtractor_spec : always (runExtractor config options) RunSpec.
Proof.
  unfold runExtractor. fold internalLoggerOf.
  simpl. intros [[]|e]; simpl.
  2:{ split; [discriminate|]. intros R. discriminate R. }
  intros []. intros [[[allKeys objectKeys] fileErrors]|e]; simpl.
  2:{ intros []. split; [discriminate|]. intros R. discriminate R. }
  intros []. intros [results|e]; simpl.
  2:{ intros []. split; [discriminate|]. intros R. discriminate R. }
  apply always_try_catch. apply always_bind.
  eapply always_mono; [|apply syncResults_spec].
  intros t1 [any|e] [S1 S2].
  2:{ simpl. intros []. split; [discriminate|].
      intros R L. exfalso.
      repeat (rewrite ?allReturned_app, ?allReturned_cons in R).
      destruct R as (_ & _ & _ & _ & _ & R & _).
      destruct (S2 R L) as [E _]. discriminate E. }
  specialize (S1 any eq_refl). simpl in S1. subst any.
  apply always_bind.
  destruct (0 <? _)%nat; simpl.
  - intros []. eapply always_mono; [|apply afterSyncHooks_spec].
    intros t2 [[]|e] [Q1 Q2]; simpl.
    + intros []. apply always_bind.
      destruct (existsb updated results) eqn:EU.
      * eapply always_mono; [|apply printLocizeFunnel_spec].
        intros t3 [[]|e] [F1 F2]; simpl.
        -- returned_leaf.
        -- intros []. threw_leaf.
      * simpl. returned_leaf.
    + intros []. threw_leaf.
  - intros []. apply always_bind.
    destruct (existsb updated results) eqn:EU.
    + eapply always_mono; [|apply printLocizeFunnel_spec].
      intros t3 [[]|e] [F1 F2]; simpl.
      * returned_leaf.
      * intros []. threw_leaf.
    + simpl. returned_leaf.
Qed.

(** Validation is the first call, and the only one when it throws. *)
Lemma runExtractor_validates_first :
  always (runExtractor config options)
         (fun t o =>
            exists first rest,
              t = first :: rest
              /\ cmdOf first = ValidateExtractorConfig (withDefaults config)
              /\ forall e, thrownBy first = Some e ->
                           rest = [] /\ o = Threw e).
Proof.
  unfold runExtractor. apply always_bind. unfold validateExtractorConfig.
  intros [[]|e]; cbv beta iota delta [await always].
  - apply always_any. intros t o. eexists _, _.
    split; [reflexivity|]. split; [reflexivity|]. intros e E. discriminate E.
  - eexists _, _. split; [reflexivity|]. split; [reflexivity|].
    intros e' E. inversion E. auto.
Qed.

(** A write of the trace writes an updated result of [results], serialized
    in the format that is explicit in the configuration or, failing that,
    inferred from the path of the result. *)
Definition WriteOk (results : list TranslationResult) (ev : Event) : Prop :=
  forall p content,
    cmdOf ev = WriteFile p content ->
    exists result raw,
      In result results /\ updated result = true /\ p = path result
      /\ content
         = serializeTranslationFile
             (newTranslations result)
             (match outputFormat (extract config) with
              | Some f => f
              | None => inferFormatFromPath p
              end)
             (indentation (extract config)) raw.

End WithExternals.

(** Going through a program call by call: [solve_call] proves the property
    of a call. *)
Ltac calls_with solve_call :=
  repeat first
         [ apply calls_ret
         | apply calls_throw
         | apply calls_await
         | apply calls_try_catch
         | apply calls_bind
         | apply calls_vis; [intro; solve_call|]
         | intro
         | match goal with
           | |- calls _ (if ?b then _ else _) => destruct b eqn:?
           | |- calls _ (match ?x with _ => _ end) => destruct x eqn:?
           end ].

Section WithExternals.

Context {X : Externals}.

Variables (config : Config) (options : Options).

Lemma syncResults_writes (results : list TranslationResult) (any : bool) :
  calls (WriteOk config results)
        (forEach results any
                 (syncResult (withDefaults config) options
                             (internalLoggerOf options))).
Proof.
  apply calls_forEach. intros s x Hin.
  unfold syncResult, writeResult, loadRawJson5Content, mkdir, writeFile,
    info.
  calls_with ltac:(intros p content E; try discriminate E).
  all: inversion E; subst; eexists x, _; repeat split; auto.
Qed.

Lemma runExtractor_writes :
  always (runExtractor config options)
         (fun t _ =>
            forall ev, In ev t ->
              forall p content, cmdOf ev = WriteFile p content ->
                exists evt results,
                  In evt t /\ translationsGot evt = Some results
                  /\ WriteOk config results ev).
Proof.
  unfold runExtractor.
  simpl. intros [[]|e]; simpl.
  2:{ intros ev Hin p content E.
      repeat (destruct Hin as [<-|Hin]; [discriminate E|]). contradiction. }
  intros []. intros [[[allKeys objectKeys] fileErrors]|e]; simpl.
  2:{ intros [] ev Hin p content E.
      repeat (destruct Hin as [<-|Hin]; [discriminate E|]). contradiction. }
  intros []. intros [results|e]; simpl.
  2:{ intros [] ev Hin p content E.
      repeat (destruct Hin as [<-|Hin]; [discriminate E|]). contradiction. }
  eapply (always_mono _ (fun t _ => Forall (WriteOk config results) t)).
  - intros t _ HF ev Hin p content E.
    eexists (Ev (GetTranslations _ _ _ _ _) (Returned results)), results.
    split; [do 4 right; left; reflexivity|]. split; [reflexivity|].
    repeat (destruct Hin as [<-|Hin]; [discriminate E|]).
    rewrite Forall_forall in HF. now apply HF.
  - unfold spinnerText, spinnerSucceed, spinnerFail, printLocizeFunnel,
      shouldShowFunnel, recordFunnelShown, consoleLog, afterSync.
    calls_with ltac:(intros p content E; discriminate E).
    all: try apply syncResults_writes.
    all: apply calls_forEach; intros.
    all: calls_with ltac:(intros p content E; discriminate E).
Qed.

Lemma runExtractor_dry_run :
  isDryRun options = Some true ->
  calls (fun ev => touchesOutput ev = false) (runExtractor config options).
Proof.
  intros D.
  unfold runExtractor, validateExtractorConfig, createSpinnerLike, findKeys,
    getTranslations, spinnerText, spinnerSucceed, spinnerFail,
    printLocizeFunnel, shouldShowFunnel, recordFunnelShown, consoleLog.
  calls_with reflexivity.
  all: apply calls_forEach; intros.
  all: unfold syncResult, afterSync; rewrite ?D; simpl.
  all: calls_with reflexivity.
Qed.

End WithExternals.

End RunExtractorFacts.

(* ================================================================== *)
(** * The claims on the extractor *)

Section ExtractorClaims.

Import Effects Extractor.

Context {X : Externals}.

Variables (St : Type) (handle : forall c : Cmd, St -> Resp c * St).

(** C1. When no call to the parser gives a syntax tree for a file, not even
    the retry with the markup syntax, [processFile] does not reject: it
    returns, having logged the warning that the file is skipped, traversed
    nothing, and appended the path of the file to [fileErrors] (when the
    caller gave that list).  Whatever the calls answer, [processFile]
    returns. *)
Theorem processFile_skips_unparsable_file :
  forall (s : St) (file : string) (plugins : list Plugin)
         (astVisitors : ASTVisitors) (pluginContext : PluginContext)
         (config : Config) (logger : Logger)
         (fileErrors : option (list string)),
    let p := processFile file plugins astVisitors pluginContext config
                         logger fileErrors in
    (exists fe, outcomeOf handle p s = Returned fe)
    /\ (existsb parsedOk (traceOf handle p s) = false ->
        outcomeOf handle p s = Returned (pushIfAny fileErrors file)
        /\ In (Ev (LoggerWarn logger
                     (styleText ["yellow"] "Skipping file due to error:"
                        ++ " " ++ file) None) tt)
              (traceOf handle p s)
        /\ existsb traverses (traceOf handle p s) = false).
Proof.
  intros s file plugins astVisitors pluginContext config logger fileErrors p.
  exact (@EffectFacts.always_run
           X _ p _
           (@ProcessFileFacts.processFile_skipsUnparsable
              X logger file fileErrors plugins astVisitors pluginContext
              config)
           St handle s).
Qed.

(** C4. In a run of [processFile], when the [onLoad] hook of a plugin
    throws, the next call is the warning of that failure, and the call
    after it (the next hook, or the parser) is given the very code the
    failed hook was given; when a hook returns [undefined], the next call is
    given the code that hook was given. *)
Theorem onLoad_failure_keeps_code :
  forall (s : St) (file : string) (plugins : list Plugin)
         (astVisitors : ASTVisitors) (pluginContext : PluginContext)
         (config : Config) (logger : Logger)
         (fileErrors : option (list string))
         (pre : list Event) (ev : Event) (post : list Event)
         (plugin : Plugin) (code f : string),
    traceOf handle
            (processFile file plugins astVisitors pluginContext config
                         logger fileErrors) s
    = (pre ++ ev :: post)%list ->
    cmdOf ev = PluginOnLoad plugin code f ->
    (forall e, thrownBy ev = Some e ->
               exists next rest,
                 post = Ev (LoggerWarn logger
                              ("Plugin " ++ plugin_name plugin
                                 ++ " onLoad failed:") (Some e)) tt
                           :: next :: rest
                 /\ codeGiven (cmdOf next) = Some code)
    /\ (answeredUndefined ev = true ->
        exists next rest,
          post = next :: rest /\ codeGiven (cmdOf next) = Some code).
Proof.
  intros s file plugins astVisitors pluginContext config logger fileErrors
         pre ev post plugin code f Ht Hc.
  pose proof (@EffectFacts.always_run
                X _ _ _
                (@ProcessFileFacts.processFile_keepsCode
                   X logger file plugins astVisitors pluginContext config
                   fileErrors)
                St handle s) as K.
  simpl in K.
  exact (@ProcessFileFacts.keepsCode_split X logger _ K pre ev post Ht
                                           plugin code f Hc).
Qed.

(** C6. In a run of [processFile] the comment scan
    ([extractKeysFromComments]) is called at most once, and when it is
    called the call right before it is the traversal ([visit]) of the
    visitor object it reads the scopes from, which has returned; it is not
    called when [config.extract.extractFromComments] is [false]. *)
Theorem comment_scan_follows_traversal :
  forall (s : St) (file : string) (plugins : list Plugin)
         (astVisitors : ASTVisitors) (pluginContext : PluginContext)
         (config : Config) (logger : Logger)
         (fileErrors : option (list string)),
    let t := traceOf handle
                     (processFile file plugins astVisitors pluginContext
                                  config logger fileErrors) s in
    (existsb isCommentScan t = false
     \/ exists pre ast code r post,
         t = (pre ++ Ev (Visit astVisitors ast) (Returned tt)
                  :: Ev (ExtractKeysFromComments code pluginContext config
                                                 astVisitors) r
                  :: post)%list
         /\ existsb isCommentScan pre = false
         /\ existsb isCommentScan post = false)
    /\ List.length (filter isCommentScan t) <= 1
    /\ (extractFromComments (extract config) = Some false ->
        existsb isCommentScan t = false).
Proof.
  intros s file plugins astVisitors pluginContext config logger fileErrors t.
  pose proof (@EffectFacts.always_run
                X _ _ _
                (@ProcessFileFacts.processFile_ScanShape
                   X astVisitors pluginContext config logger file plugins
                   fileErrors)
                St handle s) as K.
  cbv beta in K. fold t in K.
  split; [exact (ProcessFileFacts.ScanShape_split K)|].
  split; [exact (ProcessFileFacts.ScanShape_once K)|].
  exact (ProcessFileFacts.ScanShape_off K).
Qed.

(** C5. The first call of [runExtractor] is [validateExtractorConfig], on
    the configuration with its defaults filled in; when it throws,
    [runExtractor] throws the same value and makes no other call: no source
    file is read, no key collected, no translation file written. *)
Theorem validation_failure_aborts_first :
  forall (s : St) (config : Config) (options : Options),
    let t := traceOf handle (runExtractor config options) s in
    exists first rest,
      t = first :: rest
      /\ cmdOf first = ValidateExtractorConfig (withDefaults config)
      /\ forall e, thrownBy first = Some e ->
                   rest = []
                   /\ outcomeOf handle (runExtractor config options) s
                      = Threw e.
Proof.
  intros s config options t.
  exact (@EffectFacts.always_run
           X _ _ _
           (@RunExtractorFacts.runExtractor_validates_first X config options)
           St handle s).
Qed.

(** C2. In a run of [runExtractor] where every call returns (and the logger
    has the [info] method called after a write), whatever list of skipped
    files [findKeys] left in [fileErrors], every updated result of
    [getTranslations] is written, in order, unless the run is a dry one; and
    the value returned tells whether some result was updated
    ([anyFileUpdated]) and whether some file was skipped ([hasErrors], true
    exactly when [fileErrors] is not empty). *)
Theorem skipped_files_do_not_block_writes :
  forall (s : St) (config : Config) (options : Options),
    let t := traceOf handle (runExtractor config options) s in
    forallb returned t = true ->
    isTrue (isDryRun options) = true
    \/ info_is_function
         (match logger options with Some l => l | None => ConsoleLogger end)
       = true ->
    exists evk allKeys objectKeys fileErrors evt results v,
      In evk t /\ keysFound evk = Some (allKeys, objectKeys, fileErrors)
      /\ In evt t /\ translationsGot evt = Some results
      /\ outcomeOf handle (runExtractor config options) s = Returned v
      /\ anyFileUpdated v = existsb updated results
      /\ (hasErrors v = true <-> fileErrors <> [])
      /\ writtenPaths t
         = if isTrue (isDryRun options) then []
           else map path (filter updated results).
Proof.
  intros s config options t R L.
  destruct (@EffectFacts.always_run
              X _ _ _
              (@RunExtractorFacts.runExtractor_spec X config options)
              St handle s) as [_ H].
  destruct (H R L)
    as (evk & allKeys & objectKeys & fileErrors & evt & results
        & Hk & Ek & Ht & Et & Eo & W).
  exists evk, allKeys, objectKeys, fileErrors, evt, results,
    (mkRunResult (existsb updated results)
                 (0 <? List.length fileErrors)%nat).
  repeat split; auto.
  - simpl. destruct fileErrors; simpl; [discriminate | discriminate].
  - simpl. destruct fileErrors; simpl; [congruence | reflexivity].
Qed.

(** C7. Every file [runExtractor] writes is an updated result of
    [getTranslations], serialized in [config.extract.outputFormat] when that
    is set, whatever the path, and otherwise in the format inferred from the
    path of that result. *)
Theorem written_format_explicit_or_inferred :
  forall (s : St) (config : Config) (options : Options)
         (ev : Event) (p content : string),
    In ev (traceOf handle (runExtractor config options) s) ->
    cmdOf ev = WriteFile p content ->
    exists evt results result raw,
      In evt (traceOf handle (runExtractor config options) s)
      /\ translationsGot evt = Some results
      /\ In result results /\ updated result = true /\ p = path result
      /\ content
         = serializeTranslationFile
             (newTranslations result)
             (match outputFormat (extract config) with
              | Some f => f
              | None => inferFormatFromPath (path result)
              end)
             (indentation (extract config)) raw.
Proof.
  intros s config options ev p content Hin Hc.
  destruct (@EffectFacts.always_run
              X _ _ _
              (@RunExtractorFacts.runExtractor_writes X config options)
              St handle s ev Hin p content Hc)
    as (evt & results & Ht & Et & W).
  destruct (W p content Hc) as (result & raw & Hr & U & Ep & Ec).
  exists evt, results, result, raw.
  repeat (split; [assumption|]). rewrite <- Ep. exact Ec.
Qed.

(** C8. In a dry run of [runExtractor] ([options.isDryRun] is [true]) no
    call reads an old translation file, makes a directory or writes a file,
    even when results are updated; the run returns when every call returns,
    and the [anyFileUpdated] it returns tells whether some result of
    [getTranslations] was updated. *)
Theorem dry_run_writes_nothing :
  forall (s : St) (config : Config) (options : Options),
    isDryRun options = Some true ->
    let t := traceOf handle (runExtractor config options) s in
    let o := outcomeOf handle (runExtractor config options) s in
    existsb touchesOutput t = false
    /\ (forall v, o = Returned v ->
                  exists evt results,
                    In evt t /\ translationsGot evt = Some results
                    /\ anyFileUpdated v = existsb updated results)
    /\ (forallb returned t = true -> exists v, o = Returned v).
Proof.
  intros s config options D t o.
  pose proof (@EffectFacts.always_run
                X _ _ _
                (@RunExtractorFacts.runExtractor_dry_run X config options D)
                St handle s) as C.
  destruct (@EffectFacts.always_run
              X _ _ _
              (@RunExtractorFacts.runExtractor_spec X config options)
              St handle s) as [H1 H2].
  fold t in C, H1, H2. fold o in H1, H2. simpl in C.
  split; [|split].
  - clear H1 H2. induction C as [|ev l Hev _ IH]; simpl; auto.
    now rewrite Hev, IH.
  - intros v E.
    destruct (H1 v E) as (evk & allKeys & objectKeys & fileErrors & evt
                          & results & _ & _ & Ht & Et & ->).
    exists evt, results. auto.
  - intros R.
    assert (L : RunExtractorFacts.loggerOk options).
    { left. unfold RunExtractorFacts.dry. now rewrite D. }
    destruct (H2 R L) as (evk & allKeys & objectKeys & fileErrors & evt
                          & results & _ & _ & _ & _ & E & _).
    eauto.
Qed.

End ExtractorClaims.

(* ================================================================== *)
(** * The claims at work in the small world *)

(** C9 on the call [t('Hello {{name}}', { count: 1, nam })]: [count] is not
    reported, and a site without placeholder adds nothing. *)
Lemma option_keys_never_reported_unused_witness :
  snd (Linter.checkCallSite Demo.greetingCode Demo.config (O, [])
                            Demo.plainSite)
  = snd (O, @nil Linter.LintIssue).
Proof.
  exact (proj2 (option_keys_never_reported_unused
                  Demo.greetingAst Demo.greetingCode Demo.config None
                  (issues := Demo.greetingIssues) eq_refl)
               Demo.plainSite (O, []) eq_refl).
Defined.

(** C1 on a file that does not parse: it is recorded in [fileErrors]. *)
Lemma processFile_skips_unparsable_file_witness :
  Effects.outcomeOf (Demo.answer Demo.world) Demo.oneFile tt
  = Returned (Some ["src/a.ts"]).
Proof.
  exact (proj1 (proj2 (@processFile_skips_unparsable_file
                         Demo.externals unit (Demo.answer Demo.world) tt
                         "src/a.ts" [Demo.failing; Demo.passive] tt tt
                         Demo.config Demo.silent (Some []))
                      eq_refl)).
Defined.

(** C4 on the plugin whose hook throws: the warning follows, and the next
    hook is given the code as read. *)
Lemma onLoad_failure_keeps_code_witness :
  exists next rest,
    skipn 2 (Effects.traceOf (Demo.answer Demo.world) Demo.oneFile tt)
    = Effects.Ev (Effects.LoggerWarn Demo.silent
                    "Plugin failing onLoad failed:" (Some Demo.hookError)) tt
                 :: next :: rest
    /\ Effects.codeGiven (Effects.cmdOf next) = Some "t('k'".
Proof.
  exact (proj1 (@onLoad_failure_keeps_code
                  Demo.externals unit (Demo.answer Demo.world) tt
                  "src/a.ts" [Demo.failing; Demo.passive] tt tt
                  Demo.config Demo.silent (Some [])
                  (firstn 1 (Effects.traceOf (Demo.answer Demo.world)
                                             Demo.oneFile tt))
                  (Effects.Ev (Effects.PluginOnLoad Demo.failing "t('k'"
                                                    "src/a.ts")
                              (Threw Demo.hookError))
                  (skipn 2 (Effects.traceOf (Demo.answer Demo.world)
                                            Demo.oneFile tt))
                  Demo.failing "t('k'" "src/a.ts" eq_refl eq_refl)
               Demo.hookError eq_refl).
Defined.

(** C2 in the world where [findKeys] skipped [src/bad.ts]: the English file
    is written all the same and both flags are reported. *)
Lemma skipped_files_do_not_block_writes_witness :
  exists evk allKeys objectKeys fileErrors evt results v,
    In evk (Effects.traceOf (Demo.answer Demo.world) Demo.extraction tt)
    /\ Effects.keysFound evk = Some (allKeys, objectKeys, fileErrors)
    /\ In evt (Effects.traceOf (Demo.answer Demo.world) Demo.extraction tt)
    /\ Effects.translationsGot evt = Some results
    /\ Effects.outcomeOf (Demo.answer Demo.world) Demo.extraction tt
       = Returned v
    /\ Extractor.anyFileUpdated v = existsb updated results
    /\ (Extractor.hasErrors v = true <-> fileErrors <> [])
    /\ Effects.writtenPaths
         (Effects.traceOf (Demo.answer Demo.world) Demo.extraction tt)
       = map path (filter updated results).
Proof.
  exact (@skipped_files_do_not_block_writes
           Demo.externals unit (Demo.answer Demo.world) tt
           Demo.config Demo.defaultOptions eq_refl (or_intror eq_refl)).
Defined.

(** C7 on the write of [locales/en.json]: no format is configured, the
    format is the one of the path. *)
Lemma written_format_explicit_or_inferred_witness :
  exists evt results result raw,
    In evt (Effects.traceOf (Demo.answer Demo.world) Demo.extraction tt)
    /\ Effects.translationsGot evt = Some results
    /\ In result results /\ updated result = true
    /\ "locales/en.json" = path result
    /\ "json"
       = @serializeTranslationFile
           Demo.externals (newTranslations result)
           (@inferFormatFromPath Demo.externals (path result)) None raw.
Proof.
  refine (@written_format_explicit_or_inferred
            Demo.externals unit (Demo.answer Demo.world) tt
            Demo.config Demo.defaultOptions
            (Effects.Ev (Effects.WriteFile "locales/en.json" "json")
                        (Returned tt))
            "locales/en.json" "json" _ eq_refl).
  do 6 right. left. reflexivity.
Defined.

(** C8 on the dry run of the same world: nothing touches the output, and
    the update is reported. *)
Lemma dry_run_writes_nothing_witness :
  existsb Effects.touchesOutput
          (Effects.traceOf (Demo.answer Demo.world) Demo.dryExtraction tt)
  = false
  /\ Effects.outcomeOf (Demo.answer Demo.world) Demo.dryExtraction tt
     = Returned (Extractor.mkRunResult true true).
Proof.
  split.
  - exact (proj1 (@dry_run_writes_nothing
                    Demo.externals unit (Demo.answer Demo.world) tt
                    Demo.config Demo.dryOptions eq_refl)).
  - reflexivity.
Defined.

(** C5 in the world whose configuration does not validate: validation is
    the one call made. *)
Lemma validation_failure_aborts_first_witness :
  exists first rest,
    Effects.traceOf (Demo.answer Demo.invalidWorld) Demo.extraction tt
    = first :: rest
    /\ Effects.cmdOf first
       = Effects.ValidateExtractorConfig (Extractor.withDefaults Demo.config)
    /\ forall e, Effects.thrownBy first = Some e ->
                 rest = []
                 /\ Effects.outcomeOf (Demo.answer Demo.invalidWorld)
                                      Demo.extraction tt
                    = Threw e.
Proof.
  exact (@validation_failure_aborts_first
           Demo.externals unit (Demo.answer Demo.invalidWorld) tt
           Demo.config Demo.defaultOptions).
Defined.

(** C6 in the world where the file parses: one comment scan, after the
    traversal. *)
Lemma comment_scan_follows_traversal_witness :
  List.length
    (filter Effects.isCommentScan
            (Effects.traceOf (Demo.answer Demo.soundWorld) Demo.oneFile tt))
  <= 1.
Proof.
  exact (proj1 (proj2 (@comment_scan_follows_traversal
                         Demo.externals unit (Demo.answer Demo.soundWorld) tt
                         "src/a.ts" [Demo.failing; Demo.passive] tt tt
                         Demo.config Demo.silent (Some [])))).
Defined.

(* ================================================================== *)
(** * Further properties of the extractor *)

Section Defaults.

Import Extractor.



Lemma orElse_truthy (a b : string) :
  JsString.truthy b = true -> JsString.truthy (orElse a b) = true.
Proof.
  intros H. unfold orElse. destruct (JsString.truthy a) eqn:E; assumption.
Qed.

(** The primary language the defaults settle on. *)
Lemma withDefaults_primary (config : Config) :
  exists p,
    primaryLanguage (extract (withDefaults config)) = Some p
    /\ JsString.truthy p = true
    /\ secondaryLanguages (extract (withDefaults config))
       = Some (match secondaryLanguages (extract config) with
               | Some l => l
               | None => filter (fun l => negb (String.eqb l p))
                                (locales config)
               end).
Proof.
  unfold withDefaults. simpl.
  destruct (primaryLanguage (extract config)) as [p|].
  - destruct (JsString.truthy p) eqn:E.
    + exists p. auto.
    + destruct (locales config) as [|l ls]; eexists; repeat split.
      apply orElse_truthy. reflexivity.
  - destruct (locales config) as [|l ls]; eexists; repeat split.
    apply orElse_truthy. reflexivity.
Qed.

(** X1. Filling in the defaults twice is filling them in once: a configuration
    object that [runExtractor] has already been given, as in watch mode, is
    left as it is by the next run. *)
Theorem withDefaults_idempotent :
  forall config : Config,
    withDefaults (withDefaults config) = withDefaults config.
Proof.
  intros [locs [pl sl fn tc fmt ind efc ip isf rest] li plugs].
  unfold withDefaults. simpl.
  destruct pl as [[|c p]|]; simpl;
    try (destruct locs as [|[|c l] ls]; simpl);
    destruct sl, fn, tc; reflexivity.
Qed.

(** X2. After the defaults the primary language is a string that is not empty:
    the configured one when it is not empty, else the first locale when that
    is not empty, else ['en']. Secondary languages that were not configured
    are the locales other than the primary language, in their order and as
    often as they are listed; configured ones, an empty list included, are
    kept. *)
Theorem withDefaults_languages :
  forall config : Config,
    exists p,
      primaryLanguage (extract (withDefaults config)) = Some p
      /\ p <> EmptyString
      /\ (forall q, primaryLanguage (extract config) = Some q ->
                    q <> EmptyString -> p = q)
      /\ (primaryLanguage (extract config) = None
          \/ primaryLanguage (extract config) = Some EmptyString ->
          (forall l rest, locales config = l :: rest ->
                          l <> EmptyString -> p = l)
          /\ (forall rest, locales config = EmptyString :: rest -> p = "en")
          /\ (locales config = [] -> p = "en"))
      /\ (forall l, secondaryLanguages (extract config) = Some l ->
                    secondaryLanguages (extract (withDefaults config))
                    = Some l)
      /\ (secondaryLanguages (extract config) = None ->
          secondaryLanguages (extract (withDefaults config))
          = Some (filter (fun l => negb (String.eqb l p)) (locales config))).
Proof.
  intros config.
  destruct (withDefaults_primary config) as (p & Hp & Tp & Hs).
  exists p. split; [exact Hp|]. split; [|split; [|split; [|split]]].
  - intros ->. discriminate Tp.
  - intros q Hq Nq. unfold withDefaults in Hp. simpl in Hp.
    rewrite Hq in Hp. destruct q; [congruence|]. simpl in Hp. congruence.
  - intros Hq. unfold withDefaults in Hp. simpl in Hp.
    assert (Hd : Some (match locales config with
                       | l :: _ => orElse l "en"
                       | [] => "en"
                       end) = Some p).
    { destruct Hq as [Hq | Hq]; rewrite Hq in Hp; exact Hp. }
    clear Hp. inversion Hd as [Hd']. clear Hd.
    split; [|split].
    + intros l rest -> Nl. destruct l; [congruence | reflexivity].
    + intros rest ->. reflexivity.
    + intros ->. reflexivity.
  - intros l Hl. rewrite Hs, Hl. reflexivity.
  - intros Hn. rewrite Hn in Hs. exact Hs.
Qed.






End Defaults.

(** The configuration of the small world names no language: English, the
    first locale, becomes the primary language and German the secondary
    one. *)
Lemma withDefaults_languages_witness :
  primaryLanguage (extract (Extractor.withDefaults Demo.config)) = Some "en"
  /\ secondaryLanguages (extract (Extractor.withDefaults Demo.config))
     = Some ["de"].
Proof.
  destruct (withDefaults_languages Demo.config)
    as (p & H1 & _ & _ & H4 & _ & H6).
  destruct (H4 (or_introl eq_refl)) as (Hfirst & _ & _).
  assert (Hp : p = "en").
  { apply (Hfirst "en" ["de"] eq_refl). discriminate. }
  specialize (H6 eq_refl). rewrite Hp in H1, H6.
  split; [exact H1 | exact H6].
Defined.


Module MoreProcessFileFacts.

Import Effects Extractor EffectFacts ProcessFileFacts Traces.

Section WithExternals.

Context {X : Externals}.

Variables (logger : Logger) (file : string).

Lemma hookish_not_parse (t l : list Event) :
  forallb hookish t = true -> parseCalls (t ++ l)%list = parseCalls l.
Proof.
  unfold parseCalls.
  induction t as [|[c r] t IH]; simpl; auto.
  intros H. apply andb_prop in H. destruct H as [Hc Ht].
  rewrite <- (IH Ht). destruct c; try discriminate; reflexivity.
Qed.

Lemma after_read_and_hooks (r : Outcome string) (t l : list Event) :
  forallb hookish t = true ->
  parseCalls (Ev (ReadFile file) r :: t ++ l)%list = parseCalls l.
Proof. intros H. exact (hookish_not_parse t l H). Qed.

Definition fileExtOf : string := JsString.toLowerCase (extname file).

Definition firstOptions : ParseOptions :=
  firstParseOptions
    (String.eqb fileExtOf ".ts" || String.eqb fileExtOf ".tsx"
     || String.eqb fileExtOf ".mts" || String.eqb fileExtOf ".cts")
    (String.eqb fileExtOf ".tsx") (String.eqb fileExtOf ".jsx").

(** The calls to the parser in a run of [processFile]. *)
Definition ParseShape (t : list Event) : Prop :=
  parseCalls t = []
  \/ (exists code ast,
         parseCalls t = [Ev (Parse code firstOptions) (Returned ast)])
  \/ (exists code e,
         parseCalls t = [Ev (Parse code firstOptions) (Threw e)]
         /\ fileExtOf <> ".ts" /\ fileExtOf <> ".js")
  \/ (exists code e r,
         parseCalls t = [Ev (Parse code firstOptions) (Threw e);
                         Ev (Parse code tsxFallbackOptions) r]
         /\ fileExtOf = ".ts")
  \/ (exists code e r,
         parseCalls t = [Ev (Parse code firstOptions) (Threw e);
                         Ev (Parse code jsxFallbackOptions) r]
         /\ fileExtOf = ".js").

Lemma retried_ts (ext : string) :
  String.eqb ext ".ts" && negb (String.eqb ext ".tsx") = true ->
  ext = ".ts".
Proof. intros H. apply andb_prop in H. now apply String.eqb_eq. Qed.

Lemma retried_js (ext : string) :
  String.eqb ext ".js" && negb (String.eqb ext ".jsx") = true ->
  ext = ".js".
Proof. intros H. apply andb_prop in H. now apply String.eqb_eq. Qed.

Lemma not_retried_ts (ext : string) :
  String.eqb ext ".ts" && negb (String.eqb ext ".tsx") = false ->
  ext <> ".ts".
Proof. intros H ->. discriminate H. Qed.

Lemma not_retried_js (ext : string) :
  String.eqb ext ".js" && negb (String.eqb ext ".jsx") = false ->
  ext <> ".js".
Proof. intros H ->. discriminate H. Qed.

Lemma processFile_ParseShape
      (plugins : list Plugin) (astVisitors : ASTVisitors)
      (pluginContext : PluginContext) (config : Config)
      (fileErrors : option (list string)) :
  always (processFile file plugins astVisitors pluginContext config logger
                      fileErrors)
         (fun t _ => ParseShape t).
Proof.
  unfold processFile.
  apply always_try_catch. apply always_bind. simpl. intros [code|e]; simpl.
  - apply always_bind.
    eapply always_mono; [|apply runOnLoadHooks_always].
    intros t o (final & -> & HR). apply HookRun_hookish in HR.
    unfold parseWithFallback. fold fileExtOf. crunch.
    all: unfold ParseShape; repeat rewrite <- app_assoc.
    all: rewrite (after_read_and_hooks _ _ _ HR).
    all: unfold parseCalls, firstOptions; simpl.
    all: first
           [ right; left; eexists _, _; reflexivity
           | right; right; left; eexists _, _;
             split; [reflexivity|];
             split; [eapply not_retried_ts | eapply not_retried_js];
             eassumption
           | right; right; right; left; eexists _, _, _;
             split; [reflexivity | eapply retried_ts; eassumption]
           | right; right; right; right; eexists _, _, _;
             split; [reflexivity | eapply retried_js; eassumption] ].
  - crunch. all: left; reflexivity.
Qed.

(** The warning that carries the message of the value caught. *)
Definition reasonWarning (err : Thrown) : Event :=
  Ev (LoggerWarn logger ("  " ++ skipMessage err) None) tt.

(** When no call to the parser returns, the warning tells the error of the
    last call. *)
Definition NamesLastError (t : list Event) : Prop :=
  existsb parsedOk t = false ->
  forall pre pev e,
    parseCalls t = (pre ++ [pev])%list ->
    thrownBy pev = Some e ->
    In (reasonWarning (ExtractorError "Failed to process file" file e)) t.

Lemma processFile_NamesLastError
      (plugins : list Plugin) (astVisitors : ASTVisitors)
      (pluginContext : PluginContext) (config : Config)
      (fileErrors : option (list string)) :
  always (processFile file plugins astVisitors pluginContext config logger
                      fileErrors)
         (fun t _ => NamesLastError t).
Proof.
  unfold processFile.
  apply always_try_catch. apply always_bind. simpl. intros [code|e]; simpl.
  - apply always_bind.
    eapply always_mono; [|apply runOnLoadHooks_always].
    intros t o (final & -> & HR). apply HookRun_hookish in HR.
    unfold parseWithFallback. crunch.
    all: unfold NamesLastError; repeat rewrite <- app_assoc.
    all: rewrite (after_read_and_hooks _ _ _ HR).
    all: simpl; rewrite (hookish_not_parsedOk _ _ HR); simpl.
    all: try discriminate.
    all: intros _ pre pev e' Hs He.
    all: unfold parseCalls in Hs; simpl in Hs.
    all: match type of Hs with
         | [?a] = _ => change [a] with ([] ++ [a])%list in Hs
         | [?a; ?b] = _ => change [a; b] with ([a] ++ [b])%list in Hs
         end.
    all: apply app_inj_tail in Hs; destruct Hs as [_ <-].
    all: simpl in He; inversion He; subst.
    all: right; apply in_or_app; right; unfold reasonWarning; simpl; auto 10.
  - crunch.
    all: intros _ pre pev e' Hs; unfold parseCalls in Hs; simpl in Hs.
    all: destruct pre; discriminate Hs.
Qed.

(** Hooks that all returned logged nothing, and no call of a hook loop
    throws outright. *)
Lemma HookRun_quiet code t final :
  HookRun logger file code t final ->
  forallb returned t = true -> existsb isWarning t = false.
Proof.
  induction 1; simpl; auto; try discriminate.
Qed.

Lemma HookRun_not_outright code t final :
  HookRun logger file code t final -> existsb threwOutright t = false.
Proof. induction 1; simpl; auto. Qed.

Lemma HookRun_afterHooks code t final :
  HookRun logger file code t final -> afterHooks t code = final.
Proof. unfold afterHooks. induction 1; simpl; auto. Qed.

Lemma forallb_around (f : Event -> bool) (a : Event) (t l : list Event) :
  forallb f (a :: t ++ l)%list = f a && (forallb f t && forallb f l).
Proof. simpl. now rewrite forallb_app. Qed.

Lemma existsb_around (f : Event -> bool) (a : Event) (t l : list Event) :
  existsb f (a :: t ++ l)%list = f a || (existsb f t || existsb f l).
Proof. simpl. now rewrite existsb_app. Qed.

(** When the file is recorded. *)
Definition RecordsOnFailure (fileErrors : option (list string))
           (t : list Event) (o : Outcome (option (list string))) : Prop :=
  (o = Returned fileErrors
   \/ (o = Returned (pushIfAny fileErrors file)
       /\ In (skipWarning logger file) t))
  /\ (forallb returned t = true ->
      o = Returned fileErrors /\ existsb isWarning t = false)
  /\ (existsb threwOutright t = true ->
      o = Returned (pushIfAny fileErrors file)
      /\ In (skipWarning logger file) t).

Lemma processFile_RecordsOnFailure
      (plugins : list Plugin) (astVisitors : ASTVisitors)
      (pluginContext : PluginContext) (config : Config)
      (fileErrors : option (list string)) :
  always (processFile file plugins astVisitors pluginContext config logger
                      fileErrors)
         (RecordsOnFailure fileErrors).
Proof.
  assert (W : forall (t l : list Event) r,
             In (skipWarning logger file) l ->
             In (skipWarning logger file)
                (Ev (ReadFile file) r :: t ++ l)%list).
  { intros t l r H. right. apply in_or_app. now right. }
  unfold processFile.
  apply always_try_catch. apply always_bind. simpl. intros [code|e]; simpl.
  - apply always_bind.
    eapply always_mono; [|apply runOnLoadHooks_always].
    intros t o (final & -> & HR).
    unfold parseWithFallback. crunch.
    all: unfold RecordsOnFailure; repeat rewrite <- app_assoc.
    all: split; [|split].
    all: try (intros R; rewrite forallb_around in R;
              apply andb_prop in R; destruct R as [_ R];
              apply andb_prop in R; destruct R as [R1 R2];
              simpl in R2;
              first [ discriminate R2
                    | split;
                      [ reflexivity
                      | rewrite existsb_around, (HookRun_quiet HR R1);
                        reflexivity ] ]).
    all: try (intros F;
              rewrite existsb_around, (HookRun_not_outright HR) in F;
              simpl in F;
              first [ discriminate F
                    | split;
                      [ reflexivity
                      | apply W; unfold skipWarning; simpl;
                        repeat (first [left; reflexivity | right]) ] ]).
    all: first [ left; reflexivity
               | right; split;
                 [ reflexivity
                 | apply W; unfold skipWarning; simpl;
                   repeat (first [left; reflexivity | right]) ] ].
  - crunch.
    all: unfold RecordsOnFailure; split; [|split].
    all: try (intros R; discriminate R).
    all: try (intros _; split; [reflexivity|]).
    all: try (right; split; [reflexivity|]).
    all: unfold skipWarning; simpl; auto 10.
Qed.

(** The parser, the visitor object and the comment scan are given the
    source as the hooks left it; the tree traversed is one the parser
    returned; its spans are normalized against that source. *)
Definition SameSource (t : list Event) : Prop :=
  forall ev, In ev t ->
    (forall c, codeSeen (cmdOf ev) = Some c -> sourceOf t = Some c)
    /\ (forall v ast, cmdOf ev = Visit v ast ->
                      exists pev, In pev t /\ astParsed pev = Some ast)
    /\ (forall ast base, cmdOf ev = NormalizeASTSpans ast base ->
                         exists c, sourceOf t = Some c
                                   /\ base = (spanStart ast
                                              - findFirstTokenIndex c)%Z).

Lemma hook_call_sees_nothing (ev : Event) :
  hookish ev = true ->
  (forall c, codeSeen (cmdOf ev) = Some c -> False)
  /\ (forall v ast, cmdOf ev = Visit v ast -> False)
  /\ (forall ast base, cmdOf ev = NormalizeASTSpans ast base -> False).
Proof.
  destruct ev as [c r]. destruct c; simpl; try discriminate.
  all: intros _; repeat split; intros; discriminate.
Qed.

Lemma processFile_SameSource
      (plugins : list Plugin) (astVisitors : ASTVisitors)
      (pluginContext : PluginContext) (config : Config)
      (fileErrors : option (list string)) :
  always (processFile file plugins astVisitors pluginContext config logger
                      fileErrors)
         (fun t _ => SameSource t).
Proof.
  unfold processFile.
  apply always_try_catch. apply always_bind. simpl. intros [code|e]; simpl.
  - apply always_bind.
    eapply always_mono; [|apply runOnLoadHooks_always].
    intros t o (final & -> & HR).
    pose proof (HookRun_afterHooks HR) as HA.
    apply HookRun_hookish in HR.
    unfold parseWithFallback. crunch.
    all: unfold SameSource; repeat rewrite <- app_assoc.
    all: intros ev Hin.
    all: match goal with
         | |- context [sourceOf (?r :: (?t0 ++ ?l)%list)] =>
             assert (S : sourceOf (r :: t0 ++ l)%list = Some final)
               by (unfold sourceOf, afterHooks; simpl contentRead;
                   cbv iota; rewrite fold_left_app;
                   fold (afterHooks t code); rewrite HA; reflexivity)
         end.
    all: clear HA.
    all: destruct Hin as [<-|Hin];
      [repeat split; intros; discriminate|].
    all: apply in_app_or in Hin; destruct Hin as [Hin|Hin];
      [ rewrite forallb_forall in HR;
        destruct (hook_call_sees_nothing _ (HR _ Hin)) as (A & B & C);
        repeat split; intros; exfalso; eauto |].
    all: simpl in Hin.
    all: repeat (destruct Hin as [<-|Hin];
                 [ repeat split; intros;
                   first
                     [ discriminate
                     | match goal with
                       | H : codeSeen _ = Some _ |- _ =>
                           simpl in H; inversion H; subst; exact S
                       end
                     | match goal with
                       | H : _ = NormalizeASTSpans _ _ |- _ =>
                           inversion H; subst; exists final;
                           split; [exact S | reflexivity]
                       end
                     | match goal with
                       | H : _ = Visit _ _ |- _ => inversion H; subst
                       end;
                       first
                         [ eexists; split;
                           [ right; apply in_or_app; right; left;
                             reflexivity | reflexivity ]
                         | eexists; split;
                           [ right; apply in_or_app; right; right; left;
                             reflexivity | reflexivity ] ] ] |]).
    all: contradiction.
  - crunch.
    all: intros ev Hin; simpl in Hin.
    all: repeat (destruct Hin as [<-|Hin];
                 [repeat split; intros; discriminate|]).
    all: contradiction.
Qed.

End WithExternals.

End MoreProcessFileFacts.

(** ** One file, against any world *)

Section ProcessFileExtras.

Import Effects Extractor Traces.

Context {X : Externals}.

Variables (St : Type) (handle : forall c : Cmd, St -> Resp c * St).

(** X4. In a run of [processFile] the parser is called at most twice. The
    first call has the options read off the lower-cased extension of the file.
    There is a second call only when the first one threw and the extension is
    exactly [.ts] or [.js]; it is given the same source, with [tsx] for [.ts]
    and [jsx] for [.js]; its failure is final. *)
Theorem parser_retried_once_with_markup :
  forall (s : St) (file : string) (plugins : list Plugin)
         (astVisitors : ASTVisitors) (pluginContext : PluginContext)
         (config : Config) (logger : Logger)
         (fileErrors : option (list string)),
    let t := traceOf handle
                     (processFile file plugins astVisitors pluginContext
                                  config logger fileErrors) s in
    let ext := JsString.toLowerCase (extname file) in
    let first :=
      firstParseOptions
        (String.eqb ext ".ts" || String.eqb ext ".tsx"
         || String.eqb ext ".mts" || String.eqb ext ".cts")
        (String.eqb ext ".tsx") (String.eqb ext ".jsx") in
    parseCalls t = []
    \/ (exists code ast,
           parseCalls t = [Ev (Parse code first) (Returned ast)])
    \/ (exists code e,
           parseCalls t = [Ev (Parse code first) (Threw e)]
           /\ ext <> ".ts" /\ ext <> ".js")
    \/ (exists code e r,
           parseCalls t = [Ev (Parse code first) (Threw e);
                           Ev (Parse code tsxFallbackOptions) r]
           /\ ext = ".ts")
    \/ (exists code e r,
           parseCalls t = [Ev (Parse code first) (Threw e);
                           Ev (Parse code jsxFallbackOptions) r]
           /\ ext = ".js").
Proof.
  intros s file plugins astVisitors pluginContext config logger fileErrors.
  exact (@EffectFacts.always_run
           X _ _ _
           (@MoreProcessFileFacts.processFile_ParseShape
              X logger file plugins astVisitors pluginContext config
              fileErrors)
           St handle s).
Qed.

(** X5. When no call to the parser returned a tree, the second warning of the
    skipped file carries the message of an [ExtractorError] built from the
    error of the last call to the parser: the error of the retry when there
    was one, not the error of the first attempt. *)
Theorem skip_warning_names_last_parse_error :
  forall (s : St) (file : string) (plugins : list Plugin)
         (astVisitors : ASTVisitors) (pluginContext : PluginContext)
         (config : Config) (logger : Logger)
         (fileErrors : option (list string))
         (earlier : list Event) (last : Event) (e : Thrown),
    let t := traceOf handle
                     (processFile file plugins astVisitors pluginContext
                                  config logger fileErrors) s in
    existsb parsedOk t = false ->
    parseCalls t = (earlier ++ [last])%list ->
    thrownBy last = Some e ->
    In (Ev (LoggerWarn
              logger
              ("  " ++ skipMessage
                         (ExtractorError "Failed to process file" file e))
              None) tt)
       t.
Proof.
  intros s file plugins astVisitors pluginContext config logger fileErrors
         earlier last e t Hnone.
  exact (@EffectFacts.always_run
           X _ _ _
           (@MoreProcessFileFacts.processFile_NamesLastError
              X logger file plugins astVisitors pluginContext config
              fileErrors)
           St handle s Hnone earlier last e).
Qed.

(** X6. [processFile] never rejects, and [fileErrors] tells what happened: it
    comes back either as it was, or with the path of the file appended after
    the warning that the file is skipped. When every call returned it is as it
    was and nothing was logged as a warning; when a call other than a hook or
    the parser threw (reading the file, normalizing the spans, the visitors,
    the comment scan) the file is recorded. *)
Theorem file_recorded_exactly_on_failure :
  forall (s : St) (file : string) (plugins : list Plugin)
         (astVisitors : ASTVisitors) (pluginContext : PluginContext)
         (config : Config) (logger : Logger)
         (fileErrors : option (list string)),
    let p := processFile file plugins astVisitors pluginContext config
                         logger fileErrors in
    let skipped :=
      Ev (LoggerWarn logger
            (styleText ["yellow"] "Skipping file due to error:"
               ++ " " ++ file) None) tt in
    (outcomeOf handle p s = Returned fileErrors
     \/ (outcomeOf handle p s = Returned (pushIfAny fileErrors file)
         /\ In skipped (traceOf handle p s)))
    /\ (forallb returned (traceOf handle p s) = true ->
        outcomeOf handle p s = Returned fileErrors
        /\ existsb isWarning (traceOf handle p s) = false)
    /\ (existsb threwOutright (traceOf handle p s) = true ->
        outcomeOf handle p s = Returned (pushIfAny fileErrors file)
        /\ In skipped (traceOf handle p s)).
Proof.
  intros s file plugins astVisitors pluginContext config logger fileErrors.
  exact (@EffectFacts.always_run
           X _ _ _
           (@MoreProcessFileFacts.processFile_RecordsOnFailure
              X logger file plugins astVisitors pluginContext config
              fileErrors)
           St handle s).
Qed.

(** X7. One source text goes through a run of [processFile]: what [readFile]
    returned, replaced in turn by every string an [onLoad] hook returned. The
    parser (the retry included), [setCurrentFile] and the comment scan are
    given that text; the tree traversed is one the parser returned in this
    run; and spans are rebased by [ast.span.start] less the index of the first
    token of that text. *)
Theorem one_source_text_throughout :
  forall (s : St) (file : string) (plugins : list Plugin)
         (astVisitors : ASTVisitors) (pluginContext : PluginContext)
         (config : Config) (logger : Logger)
         (fileErrors : option (list string)) (ev : Event),
    let t := traceOf handle
                     (processFile file plugins astVisitors pluginContext
                                  config logger fileErrors) s in
    In ev t ->
    (forall code, codeSeen (cmdOf ev) = Some code -> sourceOf t = Some code)
    /\ (forall v ast, cmdOf ev = Visit v ast ->
                      exists parsed, In parsed t
                                     /\ astParsed parsed = Some ast)
    /\ (forall ast base,
           cmdOf ev = NormalizeASTSpans ast base ->
           exists code,
             sourceOf t = Some code
             /\ base = (spanStart ast - findFirstTokenIndex code)%Z).
Proof.
  intros s file plugins astVisitors pluginContext config logger fileErrors
         ev t.
  exact (@EffectFacts.always_run
           X _ _ _
           (@MoreProcessFileFacts.processFile_SameSource
              X logger file plugins astVisitors pluginContext config
              fileErrors)
           St handle s ev).
Qed.

End ProcessFileExtras.

(** The warning of the unparsable file of the small world tells the error
    of the retry. *)
Lemma skip_warning_names_last_parse_error_witness :
  In (Effects.Ev (Effects.LoggerWarn
                    Demo.silent "  Failed to process file: src/a.ts" None)
                 tt)
     (Effects.traceOf (Demo.answer Demo.world) Demo.oneFile tt).
Proof.
  exact (@skip_warning_names_last_parse_error
           Demo.externals unit (Demo.answer Demo.world) tt
           "src/a.ts" [Demo.failing; Demo.passive] tt tt
           Demo.config Demo.silent (Some [])
           [Effects.Ev (Effects.Parse
                          "t('k'"
                          (Extractor.firstParseOptions true false false))
                       (Threw Demo.syntaxError)]
           (Effects.Ev (Effects.Parse "t('k'" Extractor.tsxFallbackOptions)
                       (Threw Demo.syntaxError))
           Demo.syntaxError eq_refl eq_refl eq_refl).
Defined.

(** In the world where the file parses nothing is recorded although a hook
    threw; in the world where it does not, the file is. *)
Lemma file_recorded_exactly_on_failure_witness :
  Effects.outcomeOf (Demo.answer Demo.soundWorld) Demo.oneFile tt
  = Returned (Some [])
  \/ (Effects.outcomeOf (Demo.answer Demo.soundWorld) Demo.oneFile tt
      = Returned (Some ["src/a.ts"])
      /\ In (Effects.Ev (Effects.LoggerWarn
                           Demo.silent
                           "Skipping file due to error: src/a.ts" None) tt)
            (Effects.traceOf (Demo.answer Demo.soundWorld) Demo.oneFile tt)).
Proof.
  exact (proj1 (@file_recorded_exactly_on_failure
                  Demo.externals unit (Demo.answer Demo.soundWorld) tt
                  "src/a.ts" [Demo.failing; Demo.passive] tt tt
                  Demo.config Demo.silent (Some []))).
Defined.

(** The traversal of the small world is of the tree the parser returned,
    and the parser was given the file as read. *)
Lemma one_source_text_throughout_witness :
  exists parsed,
    In parsed
       (Effects.traceOf (Demo.answer Demo.soundWorld) Demo.oneFile tt)
    /\ Traces.astParsed parsed = Some "t('k'".
Proof.
  refine (proj1 (proj2 (@one_source_text_throughout
                          Demo.externals unit (Demo.answer Demo.soundWorld)
                          tt "src/a.ts" [Demo.failing; Demo.passive] tt tt
                          Demo.config Demo.silent (Some [])
                          (@Effects.Ev
                             Demo.externals
                             (@Effects.Visit Demo.externals tt "t('k'")
                             (Returned tt))
                          _))
                tt "t('k'" eq_refl).
  do 8 right. left. reflexivity.
Defined.

(** ** The phases of [runExtractor] *)

Module RunPhases.

Import Effects Extractor EffectFacts ProcessFileFacts RunExtractorFacts Traces.

Section WithExternals.

Context {X : Externals}.

(** The calls of the loop over [results]. *)
Definition inSync (ev : Event) : bool :=
  match cmdOf ev with
  | LoadRawJson5Content _ | Mkdir _ | WriteFile _ _ | LoggerInfo _ _ => true
  | _ => false
  end.

(** The calls of the [afterSync] block. *)
Definition inHooks (ev : Event) : bool :=
  match cmdOf ev with
  | SpinnerText _ | PluginAfterSync _ _ _ => true
  | _ => false
  end.

(** The calls of [printLocizeFunnel]. *)
Definition inFunnel (ev : Event) : bool :=
  match cmdOf ev with
  | ShouldShowFunnel _ | RecordFunnelShown _ | ConsoleLog _
  | LoggerInfo _ _ => true
  | _ => false
  end.

Variables (config : Config) (options : Options).

Definition pluginsOf : list Plugin :=
  match plugins (withDefaults config) with Some l => l | None => [] end.

(** The plugins that have an [afterSync] hook, in their order. *)
Definition hooksOf : list Plugin := filter has_afterSync pluginsOf.

Definition validated : Event :=
  Ev (ValidateExtractorConfig (withDefaults config)) (Returned tt).

Definition spinning : Event :=
  Ev (CreateSpinner ("Running i18next key extractor..." ++ newline)
                    (isTrue (quiet options)) (logger options)) tt.

Definition failed : Event :=
  Ev (SpinnerFail (styleText ["red"] "Extraction failed.")) tt.

Definition succeeded (fileErrors : list string) : Event :=
  Ev (SpinnerSucceed (completionMessage fileErrors)) tt.

Definition findingKeys (r : Outcome (Keys * ObjectKeys * list string))
  : Event :=
  Ev (FindKeys (withDefaults config) (internalLoggerOf options) []) r.

Definition counted (allKeys : Keys) : Event :=
  Ev (SpinnerText ("Found " ++ decimal (keysSize allKeys)
                     ++ " unique keys. Updating translation files..."))
     tt.

Definition translating (allKeys : Keys) (objectKeys : ObjectKeys)
           (r : Outcome (list TranslationResult)) : Event :=
  Ev (GetTranslations allKeys objectKeys (withDefaults config)
                      (syncPrimaryWithDefaults options) (syncAll options))
     r.

(** What [spinner.fail] adds when the run rejects. *)
Definition closing (o : Outcome RunResult) : list Event :=
  match o with
  | Returned _ => []
  | Threw _ => [failed]
  end.

(** An [afterSync] hook is given the results and the configuration. *)
Definition hookGiven (results : list TranslationResult) (ev : Event)
  : Prop :=
  forall p rs c,
    cmdOf ev = PluginAfterSync p rs c ->
    rs = results /\ c = withDefaults config.

(** The calls after [getTranslations] returned [results]: those of the loop
    over the results, those of the hooks, and the end: the success message
    and the calls of the tip. *)
Definition Phases (results : list TranslationResult)
           (fileErrors : list string)
           (tsync thooks tend : list Event) (o : Outcome RunResult)
  : Prop :=
  forallb inSync tsync = true
  /\ forallb inHooks thooks = true
  /\ Forall (hookGiven results) thooks
  /\ (exists rest, hooksOf = (afterSyncCalled thooks ++ rest)%list)
  /\ (tend = []
      \/ exists tfunnel,
          tend = succeeded fileErrors :: tfunnel
          /\ forallb inFunnel tfunnel = true
          /\ afterSyncCalled thooks = hooksOf
          /\ (tfunnel = [] \/ existsb updated results = true))
  /\ (forall v, o = Returned v ->
                tend <> []
                /\ v = mkRunResult (existsb updated results)
                                   (0 <? List.length fileErrors)%nat).

(** The anatomy of a run. *)
Definition Anatomy (t : list Event) (o : Outcome RunResult) : Prop :=
  (exists e,
      t = [Ev (ValidateExtractorConfig (withDefaults config)) (Threw e)]
      /\ o = Threw e)
  \/ (exists e,
         t = [validated; spinning; findingKeys (Threw e); failed]
         /\ o = Threw e)
  \/ (exists allKeys objectKeys fileErrors e,
         t = [validated; spinning;
              findingKeys (Returned (allKeys, objectKeys, fileErrors));
              counted allKeys;
              translating allKeys objectKeys (Threw e); failed]
         /\ o = Threw e)
  \/ (exists allKeys objectKeys fileErrors results tsync thooks tend,
         t = ([validated; spinning;
               findingKeys (Returned (allKeys, objectKeys, fileErrors));
               counted allKeys;
               translating allKeys objectKeys (Returned results)]
                ++ tsync ++ thooks ++ tend ++ closing o)%list
         /\ Phases results fileErrors tsync thooks tend o).

Lemma Forall_forallb (f : Event -> bool) (t : list Event) :
  Forall (fun ev => f ev = true) t -> forallb f t = true.
Proof. induction 1; simpl; auto. rewrite H. exact IHForall. Qed.

Lemma syncResults_inSync (results : list TranslationResult) (any : bool) :
  always (forEach results any
                  (syncResult (withDefaults config) options
                              (internalLoggerOf options)))
         (fun t _ => forallb inSync t = true).
Proof.
  eapply always_mono; [intros t o; apply Forall_forallb|].
  apply calls_forEach. intros s x Hin.
  unfold syncResult, writeResult, loadRawJson5Content, mkdir, writeFile,
    info.
  calls_with reflexivity.
Qed.

Lemma printLocizeFunnel_inFunnel (l : option Logger) :
  always (printLocizeFunnel l) (fun t _ => forallb inFunnel t = true).
Proof.
  eapply always_mono; [intros t o; apply Forall_forallb|].
  unfold printLocizeFunnel, shouldShowFunnel, recordFunnelShown, consoleLog.
  calls_with reflexivity.
  all: apply calls_forEach; intros; calls_with reflexivity.
Qed.

(** The loop over the plugins. *)
Definition HooksRun (results : list TranslationResult)
           (l : list Plugin) (t : list Event) (o : Outcome unit) : Prop :=
  forallb inHooks t = true
  /\ Forall (hookGiven results) t
  /\ (exists rest, filter has_afterSync l = (afterSyncCalled t ++ rest)%list)
  /\ (o = Returned tt -> afterSyncCalled t = filter has_afterSync l).

Lemma afterSyncHooks_run (results : list TranslationResult)
      (l : list Plugin) :
  always (forEach l tt
                  (fun _ plugin =>
                     if has_afterSync plugin
                     then afterSync plugin results (withDefaults config)
                     else Ret tt))
         (HooksRun results l).
Proof.
  apply (always_forEach _ (fun l _ => HooksRun results l)).
  - intros []. repeat split; auto. now exists [].
  - intros plugin rest []. unfold HooksRun.
    destruct (has_afterSync plugin) eqn:H; unfold afterSync; crunch;
      simpl; rewrite ?H.
    + intros t' o' (A & B & (r & C) & D). repeat split; auto.
      * constructor; auto. intros p rs c E. inversion E. auto.
      * exists r. simpl. now rewrite C.
      * intros E. simpl. now rewrite (D E).
    + repeat split; auto.
      * constructor; auto. intros p rs c E. inversion E. auto.
      * now exists (filter has_afterSync rest).
      * discriminate.
    + intros t' o' K. exact K.
Qed.

Lemma always_conj {A} (p : Prog A) :
  forall (Q Q' : list Event -> Outcome A -> Prop),
    always p Q -> always p Q' -> always p (fun t o => Q t o /\ Q' t o).
Proof.
  induction p as [a | e | c k IH]; intros Q Q' H H'; simpl in *; auto.
Qed.

Lemma no_plugins : (0 <? List.length pluginsOf)%nat = false -> hooksOf = [].
Proof.
  unfold hooksOf. destruct pluginsOf; [reflexivity | discriminate].
Qed.

Ltac phases_leaf tsync thooks tend :=
  do 3 right;
  match goal with
  | |- context [Ev (FindKeys _ _ _) (Returned (?a, ?b, ?c))] =>
      match goal with
      | |- context [Ev (GetTranslations _ _ _ _ _) (Returned ?r)] =>
          exists a, b, c, r, tsync, thooks, tend
      end
  end;
  split; [repeat (first [progress simpl | rewrite <- app_assoc]);
          reflexivity|].

(** The hooks part of [Phases], without plugins and with. *)
Definition HooksPart (results : list TranslationResult)
           (thooks : list Event) (done : bool) : Prop :=
  forallb inHooks thooks = true
  /\ Forall (hookGiven results) thooks
  /\ (exists rest, hooksOf = (afterSyncCalled thooks ++ rest)%list)
  /\ (done = true -> afterSyncCalled thooks = hooksOf).

Lemma HooksPart_none (results : list TranslationResult) (done : bool) :
  (0 <? List.length pluginsOf)%nat = false ->
  HooksPart results [] done.
Proof.
  intros H. unfold HooksPart. rewrite (no_plugins H).
  repeat split; auto. now exists [].
Qed.

Lemma HooksPart_not_reached (results : list TranslationResult) :
  HooksPart results [] false.
Proof.
  repeat split; auto; [now exists hooksOf | discriminate].
Qed.

Lemma HooksPart_some (results : list TranslationResult) (text : string)
      (t : list Event) (o : Outcome unit) (done : bool) :
  HooksRun results pluginsOf t o ->
  (done = true -> o = Returned tt) ->
  HooksPart results (Ev (SpinnerText text) tt :: t) done.
Proof.
  intros (A & B & C & D) E. repeat split; auto.
  constructor; auto. intros p rs c F. discriminate F.
Qed.

Lemma Phases_intro (results : list TranslationResult)
      (fileErrors : list string) (tsync thooks tend : list Event)
      (o : Outcome RunResult) (done : bool) :
  forallb inSync tsync = true ->
  HooksPart results thooks done ->
  (tend = []
   \/ exists tfunnel,
       tend = succeeded fileErrors :: tfunnel
       /\ forallb inFunnel tfunnel = true
       /\ done = true
       /\ (tfunnel = [] \/ existsb updated results = true)) ->
  (forall v, o = Returned v ->
             tend <> []
             /\ v = mkRunResult (existsb updated results)
                                (0 <? List.length fileErrors)%nat) ->
  Phases results fileErrors tsync thooks tend o.
Proof.
  intros S (A & B & C & D) E R. unfold Phases. repeat split; auto.
  - destruct E as [E | (tf & E1 & E2 & E3 & E4)]; [now left | right].
    exists tf. auto.
  - exact (proj1 (R v H)).
  - exact (proj2 (R v H)).
Qed.

Lemma runExtractor_anatomy : always (runExtractor config options) Anatomy.
Proof.
  unfold runExtractor. fold (internalLoggerOf options). fold pluginsOf.
  simpl. intros [[]|e]; simpl.
  2:{ left. exists e. split; reflexivity. }
  intros []. intros [[[allKeys objectKeys] fileErrors]|e]; simpl.
  2:{ intros []. right. left. exists e. split; reflexivity. }
  intros []. intros [results|e]; simpl.
  2:{ intros []. right. right. left.
      exists allKeys, objectKeys, fileErrors, e. split; reflexivity. }
  apply always_try_catch. apply always_bind.
  eapply always_mono;
    [|apply (@always_conj
               _ _ _ _ (syncResults_inSync results false)
               (syncResults_spec config options results false))].
  intros tsync [any|e] [S1 [S2 _]].
  2:{ simpl. intros []. phases_leaf tsync (@nil Event) (@nil Event).
      apply (@Phases_intro _ _ _ _ _ _ false); auto.
      - apply HooksPart_not_reached.
      - intros v E. discriminate E. }
  specialize (S2 any eq_refl). simpl in S2. subst any.
  apply always_bind.
  destruct (0 <? _)%nat eqn:NP; simpl.
  - intros []. eapply always_mono; [|apply afterSyncHooks_run].
    intros t2 [[]|e] HR; simpl.
    + intros []. apply always_bind.
      destruct (existsb updated results) eqn:EU.
      * eapply always_mono; [|apply printLocizeFunnel_inFunnel].
        intros t3 [[]|e] F; simpl.
        -- phases_leaf tsync
             (Ev (SpinnerText "Running post-extraction plugins...") tt
                 :: t2)
             (succeeded fileErrors :: t3).
           apply (@Phases_intro _ _ _ _ _ _ true); auto.
           ++ eapply HooksPart_some; eauto.
           ++ right. exists t3. auto.
           ++ intros v E. inversion E. split; [discriminate | now rewrite EU].
        -- intros [].
           phases_leaf tsync
             (Ev (SpinnerText "Running post-extraction plugins...") tt
                 :: t2)
             (succeeded fileErrors :: t3).
           apply (@Phases_intro _ _ _ _ _ _ true); auto.
           ++ eapply HooksPart_some; eauto.
           ++ right. exists t3. auto.
           ++ intros v E. discriminate E.
      * simpl.
        phases_leaf tsync
          (Ev (SpinnerText "Running post-extraction plugins...") tt :: t2)
          [succeeded fileErrors].
        apply (@Phases_intro _ _ _ _ _ _ true); auto.
        ++ eapply HooksPart_some; eauto.
        ++ right. exists []. auto.
        ++ intros v E. inversion E. split; [discriminate | now rewrite EU].
    + intros [].
      phases_leaf tsync
        (Ev (SpinnerText "Running post-extraction plugins...") tt :: t2)
        (@nil Event).
      apply (@Phases_intro _ _ _ _ _ _ false); auto.
      * eapply HooksPart_some; eauto. discriminate.
      * intros v E. discriminate E.
  - intros []. apply always_bind.
    destruct (existsb updated results) eqn:EU.
    + eapply always_mono; [|apply printLocizeFunnel_inFunnel].
      intros t3 [[]|e] F; simpl.
      * phases_leaf tsync (@nil Event) (succeeded fileErrors :: t3).
        apply (@Phases_intro _ _ _ _ _ _ true); auto.
        -- now apply HooksPart_none.
        -- right. exists t3. auto.
        -- intros v E. inversion E. split; [discriminate | now rewrite EU].
      * intros [].
        phases_leaf tsync (@nil Event) (succeeded fileErrors :: t3).
        apply (@Phases_intro _ _ _ _ _ _ true); auto.
        -- now apply HooksPart_none.
        -- right. exists t3. auto.
        -- intros v E. discriminate E.
    + simpl.
      phases_leaf tsync (@nil Event) [succeeded fileErrors].
      apply (@Phases_intro _ _ _ _ _ _ true); auto.
      * now apply HooksPart_none.
      * right. exists []. auto.
      * intros v E. inversion E. split; [discriminate | now rewrite EU].
Qed.

(** *** Reading the anatomy *)

Lemma class_excludes (f g : Event -> bool) (t : list Event) :
  (forall ev, f ev = true -> g ev = false) ->
  forallb f t = true -> existsb g t = false.
Proof.
  intros H. induction t as [|ev t IH]; simpl; auto.
  intros E. apply andb_prop in E. destruct E as [E1 E2].
  now rewrite (H ev E1), (IH E2).
Qed.

Lemma split_skip (f : Event -> bool) (A l pre : list Event) (ev : Event)
      (post : list Event) :
  (A ++ l)%list = (pre ++ ev :: post)%list ->
  existsb f A = false -> f ev = true ->
  exists pre', pre = (A ++ pre')%list /\ l = (pre' ++ ev :: post)%list.
Proof.
  revert pre. induction A as [|a A IH]; simpl; intros pre E N F.
  - now exists pre.
  - apply orb_false_elim in N. destruct N as [N1 N2].
    destruct pre as [|x pre]; simpl in E; inversion E; subst.
    + congruence.
    + destruct (IH pre H1 N2 F) as (pre' & -> & ->). now exists pre'.
Qed.

Lemma split_keep (f : Event -> bool) (l1 l2 pre : list Event) (ev : Event)
      (post : list Event) :
  (l1 ++ l2)%list = (pre ++ ev :: post)%list ->
  existsb f l2 = false -> f ev = true ->
  exists rest, l1 = (pre ++ ev :: rest)%list /\ post = (rest ++ l2)%list.
Proof.
  revert pre. induction l1 as [|a l1 IH]; simpl; intros pre E N F.
  - subst l2. rewrite existsb_app in N. simpl in N. rewrite F in N.
    rewrite orb_true_r in N. discriminate N.
  - destruct pre as [|x pre]; simpl in E; inversion E; subst.
    + now exists l1.
    + destruct (IH pre H1 N F) as (rest & -> & ->). now exists rest.
Qed.

Lemma afterSyncCalled_none (t : list Event) :
  existsb isAfterSync t = false -> afterSyncCalled t = [].
Proof.
  unfold afterSyncCalled.
  induction t as [|[c r] t IH]; simpl; auto.
  intros E. apply orb_false_elim in E. destruct E as [E1 E2].
  rewrite (IH E2). destruct c; try reflexivity. discriminate E1.
Qed.

Lemma afterSyncCalled_app (a b : list Event) :
  afterSyncCalled (a ++ b)%list
  = (afterSyncCalled a ++ afterSyncCalled b)%list.
Proof. apply flat_map_app. Qed.

(** The end of a run with its closing call. *)
Lemma ending_classes (results : list TranslationResult)
      (fileErrors : list string) (tsync thooks tend : list Event)
      (o : Outcome RunResult) (g : Event -> bool) :
  Phases results fileErrors tsync thooks tend o ->
  g (succeeded fileErrors) = false -> g failed = false ->
  (forall ev, inFunnel ev = true -> g ev = false) ->
  existsb g (tend ++ closing o)%list = false.
Proof.
  intros (_ & _ & _ & _ & E & _) G1 G2 G3.
  rewrite existsb_app.
  assert (C : existsb g (closing o) = false).
  { destruct o; simpl; [reflexivity | now rewrite G2]. }
  rewrite C, orb_false_r.
  destruct E as [-> | (tf & -> & F & _)]; [reflexivity|].
  simpl. rewrite G1. simpl. exact (@class_excludes _ _ _ G3 F).
Qed.

(** The end of a run without its closing call. *)
Lemma tend_classes (results : list TranslationResult)
      (fileErrors : list string) (tsync thooks tend : list Event)
      (o : Outcome RunResult) (g : Event -> bool) :
  Phases results fileErrors tsync thooks tend o ->
  g (succeeded fileErrors) = false ->
  (forall ev, inFunnel ev = true -> g ev = false) ->
  existsb g tend = false.
Proof.
  intros (_ & _ & _ & _ & E & _) G1 G3.
  destruct E as [-> | (tf & -> & F & _)]; [reflexivity|].
  simpl. rewrite G1. simpl. exact (@class_excludes _ _ _ G3 F).
Qed.

Ltac by_class :=
  let ev := fresh "ev" in
  intros ev; destruct ev as [c r]; destruct c; simpl;
  first [reflexivity | discriminate | auto].

(** [spinner.fail] is the closing call of a run that rejects, and of no
    other. *)
Definition Reports (t : list Event) (o : Outcome RunResult) : Prop :=
  (forall v, o = Returned v ->
     existsb isSpinnerFail t = false
     /\ exists evk allKeys objectKeys fileErrors,
         In evk t
         /\ keysFound evk = Some (allKeys, objectKeys, fileErrors)
         /\ In (succeeded fileErrors) t)
  /\ (forall e, o = Threw e ->
        t = [Ev (ValidateExtractorConfig (withDefaults config)) (Threw e)]
        \/ exists pre, t = (pre ++ [failed])%list
                       /\ existsb isSpinnerFail pre = false).

Lemma Anatomy_Reports (t : list Event) (o : Outcome RunResult) :
  Anatomy t o -> Reports t o.
Proof.
  intros [(e & -> & ->) | [(e & -> & ->) | [(ak & ok & fe & e & -> & ->)
         | (ak & ok & fe & results & tsync & thooks & tend & -> & Ph)]]].
  - split; [discriminate|]. intros e' E. inversion E. now left.
  - split; [discriminate|]. intros e' E. right.
    exists [validated; spinning; findingKeys (Threw e)]. now split.
  - split; [discriminate|]. intros e' E. right.
    exists [validated; spinning; findingKeys (Returned (ak, ok, fe));
            counted ak; translating ak ok (Threw e)].
    now split.
  - assert (N : existsb isSpinnerFail
                        ([validated; spinning;
                          findingKeys (Returned (ak, ok, fe));
                          counted ak;
                          translating ak ok (Returned results)]
                           ++ tsync ++ thooks ++ tend)%list = false).
    { rewrite existsb_app. simpl.
      rewrite !existsb_app.
      pose proof Ph as (S & H & _).
      rewrite (@class_excludes inSync isSpinnerFail tsync); auto;
        [|by_class].
      rewrite (@class_excludes inHooks isSpinnerFail thooks); auto;
        [|by_class].
      simpl.
      eapply tend_classes; [exact Ph | reflexivity | by_class]. }
    split.
    + intros v ->. simpl closing. rewrite !app_nil_r. split; [exact N|].
      exists (findingKeys (Returned (ak, ok, fe))), ak, ok, fe.
      split; [right; right; left; reflexivity|].
      split; [reflexivity|].
      destruct Ph as (_ & _ & _ & _ & E & R).
      destruct (R v eq_refl) as [NE _].
      destruct E as [E | (tf & -> & _)]; [contradiction|].
      apply in_or_app. right. apply in_or_app. right.
      apply in_or_app. right. now left.
    + intros e ->. right. simpl closing.
      eexists. split; [|exact N].
      now rewrite <- !app_assoc.
Qed.

(** The [afterSync] hooks: called in the order of the plugins, each given
    the results and the configuration, and followed by no call that
    touches the output. *)
Definition HooksLast (t : list Event) (o : Outcome RunResult) : Prop :=
  (exists rest, hooksOf = (afterSyncCalled t ++ rest)%list)
  /\ (forall v, o = Returned v -> afterSyncCalled t = hooksOf)
  /\ (forall pre ev post p rs c,
         t = (pre ++ ev :: post)%list ->
         cmdOf ev = PluginAfterSync p rs c ->
         c = withDefaults config
         /\ (exists evt, In evt pre /\ translationsGot evt = Some rs)
         /\ existsb touchesOutput post = false).

Lemma explicit_no_hook (t pre : list Event) (ev : Event)
      (post : list Event) :
  t = (pre ++ ev :: post)%list ->
  existsb isAfterSync t = false -> isAfterSync ev = true -> False.
Proof.
  intros -> N E. rewrite existsb_app in N. simpl in N. rewrite E in N.
  rewrite orb_true_r in N. discriminate N.
Qed.

Lemma Anatomy_HooksLast (t : list Event) (o : Outcome RunResult) :
  Anatomy t o -> HooksLast t o.
Proof.
  assert (K : forall ev p rs c, cmdOf ev = PluginAfterSync p rs c ->
                                isAfterSync ev = true).
  { intros ev p rs c E. unfold isAfterSync. now rewrite E. }
  intros [(e & -> & ->) | [(e & -> & ->) | [(ak & ok & fe & e & -> & ->)
         | (ak & ok & fe & results & tsync & thooks & tend & -> & Ph)]]].
  1-3: split; [now exists hooksOf|]; split; [discriminate|];
    intros pre ev post p rs c E C; exfalso;
    exact (explicit_no_hook _ _ _ E eq_refl (K _ _ _ _ C)).
  assert (T : existsb isAfterSync (tend ++ closing o)%list = false).
  { eapply ending_classes; [exact Ph | reflexivity | reflexivity
                            | by_class]. }
  assert (TO : existsb touchesOutput (tend ++ closing o)%list = false).
  { eapply ending_classes; [exact Ph | reflexivity | reflexivity
                            | by_class]. }
  destruct Ph as (S & H & HG & (rest & HP) & E & R).
  assert (SA : existsb isAfterSync tsync = false).
  { apply (@class_excludes inSync); auto. by_class. }
  assert (C : afterSyncCalled
                ([validated; spinning;
                  findingKeys (Returned (ak, ok, fe)); counted ak;
                  translating ak ok (Returned results)]
                   ++ tsync ++ thooks ++ tend ++ closing o)%list
              = afterSyncCalled thooks).
  { rewrite !afterSyncCalled_app.
    rewrite (afterSyncCalled_none tsync SA).
    rewrite <- afterSyncCalled_app.
    rewrite (afterSyncCalled_none _ T).
    simpl. now rewrite app_nil_r. }
  split; [|split].
  - rewrite C. now exists rest.
  - intros v ->. rewrite C.
    destruct (R v eq_refl) as [NE _].
    destruct E as [E | (tf & _ & _ & D & _)]; [contradiction | exact D].
  - intros pre ev post p rs c Et Ec.
    pose proof (K _ _ _ _ Ec) as Ka.
    destruct (split_skip isAfterSync _ _ _ _ _ Et eq_refl Ka)
      as (pre1 & -> & E1).
    destruct (split_skip isAfterSync _ _ _ _ _ E1 SA Ka)
      as (pre2 & -> & E2).
    destruct (split_keep isAfterSync _ _ _ _ _ E2 T Ka)
      as (more & -> & ->).
    rewrite Forall_forall in HG.
    destruct (HG ev (in_elt ev pre2 more) p rs c Ec) as [-> ->].
    split; [reflexivity|]. split.
    + exists (translating ak ok (Returned results)).
      split; [do 4 right; left; reflexivity | reflexivity].
    + rewrite existsb_app, TO, orb_false_r.
      rewrite forallb_app in H. apply andb_prop in H.
      destruct H as [_ H]. simpl in H. apply andb_prop in H.
      destruct H as [_ H].
      apply (@class_excludes inHooks); auto. by_class.
Qed.

(** The calls of the tip ([shouldShowFunnel], [console.log],
    [recordFunnelShown]) come only after [spinner.succeed], in a run in
    which some result is updated. *)
Definition TipAfterUpdate (t : list Event) : Prop :=
  forall pre ev post,
    t = (pre ++ ev :: post)%list ->
    isFunnel ev = true ->
    (exists evt results,
        In evt pre /\ translationsGot evt = Some results
        /\ existsb updated results = true)
    /\ (exists message, In (Ev (SpinnerSucceed message) tt) pre)
    /\ existsb touchesOutput post = false
    /\ existsb isAfterSync post = false.

Lemma Anatomy_TipAfterUpdate (t : list Event) (o : Outcome RunResult) :
  Anatomy t o -> TipAfterUpdate t.
Proof.
  intros [(e & -> & ->) | [(e & -> & ->) | [(ak & ok & fe & e & -> & ->)
         | (ak & ok & fe & results & tsync & thooks & tend & -> & Ph)]]].
  1-3: intros pre ev post E F; exfalso;
    assert (N : existsb isFunnel (pre ++ ev :: post)%list = false)
      by (rewrite <- E; reflexivity);
    rewrite existsb_app in N; simpl in N; rewrite F in N;
    rewrite orb_true_r in N; discriminate N.
  intros pre ev post Et F.
  assert (C : existsb isFunnel (closing o) = false)
    by (destruct o; reflexivity).
  pose proof Ph as (S & H & HG & _ & E & R).
  assert (SA : existsb isFunnel tsync = false).
  { apply (@class_excludes inSync); auto. by_class. }
  assert (HA : existsb isFunnel thooks = false).
  { apply (@class_excludes inHooks); auto. by_class. }
  destruct (split_skip isFunnel _ _ _ _ _ Et eq_refl F)
    as (pre1 & -> & E1).
  destruct (split_skip isFunnel _ _ _ _ _ E1 SA F) as (pre2 & -> & E2).
  destruct (split_skip isFunnel _ _ _ _ _ E2 HA F) as (pre3 & -> & E3).
  destruct (split_keep isFunnel _ _ _ _ _ E3 C F) as (more & E4 & ->).
  destruct E as [-> | (tf & -> & TF & _ & U)];
    [destruct pre3; discriminate E4|].
  destruct pre3 as [|x pre3]; simpl in E4; inversion E4; subst.
  { discriminate F. }
  destruct U as [U | U]; [destruct pre3; discriminate U|].
  split; [|split; [|split]].
  - exists (translating ak ok (Returned results)), results.
    split; [do 4 right; left; reflexivity | now split].
  - exists (completionMessage fe).
    apply in_or_app. right. apply in_or_app. right.
    apply in_or_app. right. now left.
  - rewrite existsb_app.
    rewrite forallb_app in TF. apply andb_prop in TF.
    destruct TF as [_ TF]. simpl in TF. apply andb_prop in TF.
    destruct TF as [_ TF].
    rewrite (@class_excludes inFunnel touchesOutput more); auto;
      [|by_class].
    destruct o; reflexivity.
  - rewrite existsb_app.
    rewrite forallb_app in TF. apply andb_prop in TF.
    destruct TF as [_ TF]. simpl in TF. apply andb_prop in TF.
    destruct TF as [_ TF].
    rewrite (@class_excludes inFunnel isAfterSync more); auto;
      [|by_class].
    destruct o; reflexivity.
Qed.

End WithExternals.

End RunPhases.

(** ** Properties of a trace that compose *)

Module ShapeFacts.

Import Effects EffectFacts.

Section WithExternals.

Context {X : Externals}.

Section Shapes.

(** [G] holds of the empty trace and of the concatenation of two traces it
    holds of. *)
Variable G : list Event -> Prop.
Hypothesis G_nil : G [].
Hypothesis G_app : forall a b, G a -> G b -> G (a ++ b)%list.

(** [G] holds of every trace of [p]. *)
Definition shaped {A} (p : Prog A) : Prop := always p (fun t _ => G t).

Lemma shaped_ret {A} (a : A) : shaped (Ret a).
Proof. exact G_nil. Qed.

Lemma shaped_throw {A} (e : Thrown) : shaped (@Throw _ A e).
Proof. exact G_nil. Qed.

Lemma shaped_await {A} (o : Outcome A) : shaped (await o).
Proof. destruct o; exact G_nil. Qed.

Lemma shaped_vis {A} (c : Cmd) (k : Resp c -> Prog A) :
  (forall r, G [Ev c r]) -> (forall r, shaped (k r)) -> shaped (Vis c k).
Proof.
  intros Hc Hk r. eapply always_mono; [|apply Hk].
  intros t o H. exact (G_app (Hc r) H).
Qed.

Lemma shaped_bind {A B} (p : Prog A) (f : A -> Prog B) :
  shaped p -> (forall a, shaped (f a)) -> shaped (bind p f).
Proof.
  intros Hp Hf. apply always_bind. eapply always_mono; [|apply Hp].
  intros t [a|e] H; auto.
  eapply always_mono; [|apply Hf]. intros t' o' H'. now apply G_app.
Qed.

Lemma shaped_try_catch {A} (p : Prog A) (h : Thrown -> Prog A) :
  shaped p -> (forall e, shaped (h e)) -> shaped (try_catch p h).
Proof.
  intros Hp Hh. apply always_try_catch. eapply always_mono; [|apply Hp].
  intros t [a|e] H; auto.
  eapply always_mono; [|apply Hh]. intros t' o' H'. now apply G_app.
Qed.

Lemma shaped_forEach {A S} (body : S -> A -> Prog S) (l : list A) :
  (forall s x, In x l -> shaped (body s x)) ->
  forall s, shaped (forEach l s body).
Proof.
  induction l as [|x l IH]; intros H s; simpl.
  - exact G_nil.
  - apply shaped_bind; [apply H; now left|].
    intros s'. apply IH. intros s0 y Hy. apply H. now right.
Qed.

End Shapes.

(** *** A write follows the making of its directory *)

(** The call before a write of [p]: a [mkdir] of the directory of [p],
    which returned. *)
Definition mkdirFor (p : string) (prev : option Event) : bool :=
  match prev with
  | Some ev =>
      match cmdOf ev with
      | Mkdir d => String.eqb d (dirname p) && returned ev
      | _ => false
      end
  | None => false
  end.

(** Every write of [t] comes right after the [mkdir] for it; [prev] is the
    call before [t]. *)
Fixpoint writesPrepared (prev : option Event) (t : list Event) : bool :=
  match t with
  | [] => true
  | ev :: rest =>
      match cmdOf ev with
      | WriteFile p _ => mkdirFor p prev
      | _ => true
      end && writesPrepared (Some ev) rest
  end.

Lemma writesPrepared_weaken (prev : option Event) (t : list Event) :
  writesPrepared None t = true -> writesPrepared prev t = true.
Proof.
  destruct t as [|[c r] t]; simpl; auto.
  destruct c; simpl; auto. discriminate.
Qed.

Lemma writesPrepared_app (a b : list Event) :
  forall prev,
    writesPrepared prev a = true -> writesPrepared None b = true ->
    writesPrepared prev (a ++ b)%list = true.
Proof.
  induction a as [|ev a IH]; simpl; intros prev Ha Hb.
  - now apply writesPrepared_weaken.
  - apply andb_prop in Ha. destruct Ha as [H1 H2].
    now rewrite H1, (IH _ H2 Hb).
Qed.

Lemma mkdirFor_inv (p : string) (ev : Event) :
  mkdirFor p (Some ev) = true -> ev = Ev (Mkdir (dirname p)) (Returned tt).
Proof.
  destruct ev as [c r]. destruct c; simpl; try discriminate.
  intros H. apply andb_prop in H. destruct H as [H1 H2].
  apply String.eqb_eq in H1. subst.
  destruct r as [[]|e]; [reflexivity | discriminate H2].
Qed.

Lemma last_cons_default {A} (l : list A) :
  forall a d, last (a :: l) d = last l a.
Proof.
  induction l as [|b l IH]; intros a d; [reflexivity|].
  change (last (a :: b :: l) d) with (last (b :: l) d).
  now rewrite !IH.
Qed.

Lemma writesPrepared_split (pre : list Event) :
  forall prev t ev post p content,
    writesPrepared prev t = true ->
    t = (pre ++ ev :: post)%list ->
    cmdOf ev = WriteFile p content ->
    mkdirFor p (last (map Some pre) prev) = true.
Proof.
  induction pre as [|x pre IH]; intros prev t ev post p content W -> C.
  - simpl in *. rewrite C in W. apply andb_prop in W. now destruct W.
  - simpl app in W. simpl in W. apply andb_prop in W. destruct W as [_ W].
    specialize (IH (Some x) _ ev post p content W eq_refl C).
    change (map Some (x :: pre)) with (Some x :: map Some pre).
    now rewrite last_cons_default.
Qed.

(** Read as a statement on the place of a write in the trace. *)
Lemma writesPrepared_spec (t pre : list Event) (ev : Event)
      (post : list Event) (p content : string) :
  writesPrepared None t = true ->
  t = (pre ++ ev :: post)%list ->
  cmdOf ev = WriteFile p content ->
  exists before,
    pre = (before ++ [Ev (Mkdir (dirname p)) (Returned tt)])%list.
Proof.
  intros W E C.
  pose proof (@writesPrepared_split pre None _ _ _ _ _ W E C) as M.
  destruct (@exists_last _ (map Some pre)) as (l & a & L).
  - destruct pre; simpl in *; [discriminate M | discriminate].
  - rewrite L in M. rewrite last_last in M.
    destruct a as [m|]; [|discriminate M].
    apply mkdirFor_inv in M. subst m.
    destruct (@exists_last _ pre) as (before & b & ->).
    + destruct pre; [|discriminate].
      simpl in L. destruct l; discriminate L.
    + rewrite map_app in L. simpl in L.
      apply app_inj_tail in L. destruct L as [_ L]. inversion L.
      now exists before.
Qed.

End WithExternals.

(** Going through a program call by call for a property that composes;
    [nil] and [app] are its two closure proofs, [known] applies what is
    proved of parts of the program, [solve_one] proves the property of a
    trace of one call. *)
Ltac shaped_with nil app known solve_one :=
  repeat first
         [ known
         | apply (@shaped_ret _ _ nil)
         | apply (@shaped_throw _ _ nil)
         | apply (@shaped_await _ _ nil)
         | apply (@shaped_try_catch _ _ app)
         | apply (@shaped_bind _ _ app)
         | apply (@shaped_vis _ _ app); [intro; solve_one|]
         | intro
         | match goal with
           | |- shaped _ (if ?b then _ else _) => destruct b eqn:?
           | |- shaped _ (match ?x with _ => _ end) => destruct x eqn:?
           end ].

End ShapeFacts.

(** ** What [runExtractor] does to the output *)

Module OutputFacts.

Import Effects Extractor EffectFacts ProcessFileFacts RunExtractorFacts
       ShapeFacts.

Section WithExternals.

Context {X : Externals}.

Variables (config : Config) (options : Options).

Definition Prepared (t : list Event) : Prop := writesPrepared None t = true.

Lemma Prepared_nil : Prepared [].
Proof. reflexivity. Qed.

Lemma Prepared_app (a b : list Event) :
  Prepared a -> Prepared b -> Prepared (a ++ b)%list.
Proof. apply writesPrepared_app. Qed.

Lemma writeResult_prepared (cfg : Config) (internalLogger : Logger)
      (result : TranslationResult) :
  shaped Prepared (writeResult cfg internalLogger result).
Proof.
  unfold shaped, writeResult, loadRawJson5Content, mkdir, writeFile.
  crunch.
  all: unfold Prepared; simpl; rewrite ?String.eqb_refl; reflexivity.
Qed.

Lemma runExtractor_prepared : shaped Prepared (runExtractor config options).
Proof.
  unfold runExtractor, validateExtractorConfig, createSpinnerLike, findKeys,
    getTranslations, spinnerText, spinnerSucceed, spinnerFail,
    printLocizeFunnel, shouldShowFunnel, recordFunnelShown, consoleLog.
  shaped_with Prepared_nil Prepared_app fail reflexivity.
  all: apply (@shaped_forEach _ _ Prepared_nil Prepared_app); intros.
  all: unfold syncResult, afterSync.
  all: shaped_with Prepared_nil Prepared_app
                   ltac:(apply writeResult_prepared) reflexivity.
Qed.

(** A call that touches the output does so for an updated result of
    [results]: it reads the old file, and then only when the format to
    write is [json5], makes the directory of the path, or writes the
    file. *)
Definition ForUpdated (results : list TranslationResult) (ev : Event)
  : Prop :=
  touchesOutput ev = true ->
  exists result,
    In result results /\ updated result = true
    /\ ((cmdOf ev = LoadRawJson5Content (path result)
         /\ effectiveFormat (withDefaults config) (path result) = json5)
        \/ cmdOf ev = Mkdir (dirname (path result))
        \/ exists content, cmdOf ev = WriteFile (path result) content).

Lemma syncResults_forUpdated (results : list TranslationResult)
      (any : bool) :
  calls (ForUpdated results)
        (forEach results any
                 (syncResult (withDefaults config) options
                             (internalLoggerOf options))).
Proof.
  apply calls_forEach. intros s x Hin.
  unfold syncResult, writeResult, loadRawJson5Content, mkdir, writeFile,
    info.
  calls_with ltac:(intros E; try discriminate E).
  all: exists x; split; [exact Hin|]; split; [assumption|].
  all: first [ left; split; [reflexivity | assumption]
             | right; left; reflexivity
             | right; right; eexists; reflexivity ].
Qed.

Lemma runExtractor_forUpdated :
  always (runExtractor config options)
         (fun t _ =>
            forall ev, In ev t -> touchesOutput ev = true ->
              exists evt results,
                In evt t /\ translationsGot evt = Some results
                /\ ForUpdated results ev).
Proof.
  unfold runExtractor.
  simpl. intros [[]|e]; simpl.
  2:{ intros ev Hin E.
      repeat (destruct Hin as [<-|Hin]; [discriminate E|]). contradiction. }
  intros []. intros [[[allKeys objectKeys] fileErrors]|e]; simpl.
  2:{ intros [] ev Hin E.
      repeat (destruct Hin as [<-|Hin]; [discriminate E|]). contradiction. }
  intros []. intros [results|e]; simpl.
  2:{ intros [] ev Hin E.
      repeat (destruct Hin as [<-|Hin]; [discriminate E|]). contradiction. }
  eapply (always_mono _ (fun t _ => Forall (ForUpdated results) t)).
  - intros t _ HF ev Hin E.
    eexists (Ev (GetTranslations _ _ _ _ _) (Returned results)), results.
    split; [do 4 right; left; reflexivity|]. split; [reflexivity|].
    repeat (destruct Hin as [<-|Hin]; [discriminate E|]).
    rewrite Forall_forall in HF. now apply HF.
  - unfold spinnerText, spinnerSucceed, spinnerFail, printLocizeFunnel,
      shouldShowFunnel, recordFunnelShown, consoleLog, afterSync.
    calls_with ltac:(intros E; discriminate E).
    all: try apply syncResults_forUpdated.
    all: apply calls_forEach; intros.
    all: calls_with ltac:(intros E; discriminate E).
Qed.

End WithExternals.

End OutputFacts.

(** ** A whole extraction, against any world *)

Section RunExtractorExtras.

Import Effects Extractor Traces.

Context {X : Externals}.

Variables (St : Type) (handle : forall c : Cmd, St -> Resp c * St).

(** X8. [spinner.fail] closes exactly the runs that reject after validation.
    When [runExtractor] returns, [spinner.fail] was not called and
    [spinner.succeed] was, with the completion message of the files that
    [findKeys] reported as skipped. When it rejects, either validation threw
    and that is the only call, or the last call is [spinner.fail('Extraction
    failed.')] and it is the only call to [spinner.fail]. *)
Theorem spinner_fails_exactly_on_rejection :
  forall (s : St) (config : Config) (options : Options),
    let t := traceOf handle (runExtractor config options) s in
    let o := outcomeOf handle (runExtractor config options) s in
    (forall v, o = Returned v ->
       existsb isSpinnerFail t = false
       /\ exists evk allKeys objectKeys fileErrors,
           In evk t
           /\ keysFound evk = Some (allKeys, objectKeys, fileErrors)
           /\ In (Ev (SpinnerSucceed (completionMessage fileErrors)) tt) t)
    /\ (forall e, o = Threw e ->
          t = [Ev (ValidateExtractorConfig (withDefaults config)) (Threw e)]
          \/ exists pre,
              t = (pre ++ [Ev (SpinnerFail
                                 (styleText ["red"] "Extraction failed."))
                              tt])%list
              /\ existsb isSpinnerFail pre = false).
Proof.
  intros s config options.
  exact (RunPhases.Anatomy_Reports
           (@EffectFacts.always_run
              X _ _ _ (@RunPhases.runExtractor_anatomy X config options)
              St handle s)).
Qed.

(** X9. The [afterSync] hooks are called in the order of the plugin list, one
    call for an entry of the list, a dry run included; when [runExtractor]
    returns, every plugin that has the hook was called. A hook is given the
    results of [getTranslations] and the configuration with its defaults, and
    no call after it reads, makes or writes an output file: the hooks see the
    files as the run leaves them. *)
Theorem afterSync_hooks_run_last_in_order :
  forall (s : St) (config : Config) (options : Options),
    let t := traceOf handle (runExtractor config options) s in
    let o := outcomeOf handle (runExtractor config options) s in
    let hooks :=
      filter has_afterSync
             (match plugins config with Some l => l | None => [] end) in
    (exists rest, hooks = (afterSyncCalled t ++ rest)%list)
    /\ (forall v, o = Returned v -> afterSyncCalled t = hooks)
    /\ (forall pre ev post plugin results c,
           t = (pre ++ ev :: post)%list ->
           cmdOf ev = PluginAfterSync plugin results c ->
           c = withDefaults config
           /\ (exists evt,
                  In evt pre /\ translationsGot evt = Some results)
           /\ existsb touchesOutput post = false).
Proof.
  intros s config options.
  exact (RunPhases.Anatomy_HooksLast
           (@EffectFacts.always_run
              X _ _ _ (@RunPhases.runExtractor_anatomy X config options)
              St handle s)).
Qed.

(** X10. The tip on the locize workflow is considered only in a run in which
    some result of [getTranslations] is updated, a dry run included, and only
    after [spinner.succeed]: every call to [shouldShowFunnel], [console.log]
    or [recordFunnelShown] has both before it, and no hook and no call on an
    output file after it. *)
Theorem tip_only_after_success_with_updates :
  forall (s : St) (config : Config) (options : Options)
         (pre : list Event) (ev : Event) (post : list Event),
    traceOf handle (runExtractor config options) s
    = (pre ++ ev :: post)%list ->
    isFunnel ev = true ->
    (exists evt results,
        In evt pre /\ translationsGot evt = Some results
        /\ existsb updated results = true)
    /\ (exists message, In (Ev (SpinnerSucceed message) tt) pre)
    /\ existsb touchesOutput post = false
    /\ existsb isAfterSync post = false.
Proof.
  intros s config options.
  exact (RunPhases.Anatomy_TipAfterUpdate
           (@EffectFacts.always_run
              X _ _ _ (@RunPhases.runExtractor_anatomy X config options)
              St handle s)).
Qed.

(** X11. The call right before a write is the [mkdir] of the directory of the
    path written, and it returned. *)
Theorem write_follows_mkdir :
  forall (s : St) (config : Config) (options : Options)
         (pre : list Event) (ev : Event) (post : list Event)
         (p content : string),
    traceOf handle (runExtractor config options) s
    = (pre ++ ev :: post)%list ->
    cmdOf ev = WriteFile p content ->
    exists before,
      pre = (before ++ [Ev (Mkdir (dirname p)) (Returned tt)])%list.
Proof.
  intros s config options pre ev post p content E C.
  exact (ShapeFacts.writesPrepared_spec
           _ _ _
           (@EffectFacts.always_run
              X _ _ _ (@OutputFacts.runExtractor_prepared X config options)
              St handle s)
           E C).
Qed.

(** X12. Only updated results touch the output. A call that reads an old
    translation file, makes a directory or writes a file does so for a result
    of [getTranslations] that is updated: it reads the file of the result, and
    then only when the format to write is [json5]; it makes the directory of
    the path of the result; or it writes that path. *)
Theorem only_updated_results_touch_output :
  forall (s : St) (config : Config) (options : Options) (ev : Event),
    let t := traceOf handle (runExtractor config options) s in
    In ev t ->
    touchesOutput ev = true ->
    exists evt results result,
      In evt t /\ translationsGot evt = Some results
      /\ In result results /\ updated result = true
      /\ ((cmdOf ev = LoadRawJson5Content (path result)
           /\ match outputFormat (extract config) with
              | Some f => f
              | None => inferFormatFromPath (path result)
              end = json5)
          \/ cmdOf ev = Mkdir (dirname (path result))
          \/ exists content, cmdOf ev = WriteFile (path result) content).
Proof.
  intros s config options ev t Hin Ht.
  destruct (@EffectFacts.always_run
              X _ _ _ (@OutputFacts.runExtractor_forUpdated X config options)
              St handle s ev Hin Ht)
    as (evt & results & H1 & H2 & H3).
  destruct (H3 Ht) as (result & H4 & H5 & H6).
  exists evt, results, result. auto.
Qed.

End RunExtractorExtras.

(** In the small world the run returns: [spinner.fail] is not called. *)
Lemma spinner_fails_exactly_on_rejection_witness :
  existsb Traces.isSpinnerFail
          (Effects.traceOf (Demo.answer Demo.world) Demo.extraction tt)
  = false
  /\ exists evk allKeys objectKeys fileErrors,
      In evk (Effects.traceOf (Demo.answer Demo.world) Demo.extraction tt)
      /\ Effects.keysFound evk = Some (allKeys, objectKeys, fileErrors)
      /\ In (@Effects.Ev
               Demo.externals
               (Effects.SpinnerSucceed
                  (@Extractor.completionMessage Demo.externals fileErrors))
               tt)
            (Effects.traceOf (Demo.answer Demo.world) Demo.extraction tt).
Proof.
  exact (proj1 (@spinner_fails_exactly_on_rejection
                  Demo.externals unit (Demo.answer Demo.world) tt
                  Demo.config Demo.defaultOptions)
               (Extractor.mkRunResult true true) eq_refl).
Defined.

(** In a dry run with two plugins the one that has the hook is called. *)
Lemma afterSync_hooks_run_last_in_order_witness :
  Traces.afterSyncCalled
    (Effects.traceOf (Demo.answer Demo.world) MoreDemo.hookedDryRun tt)
  = [MoreDemo.hooked].
Proof.
  exact (proj1 (proj2 (@afterSync_hooks_run_last_in_order
                         Demo.externals unit (Demo.answer Demo.world) tt
                         MoreDemo.hookedConfig Demo.dryOptions))
               (Extractor.mkRunResult true true) eq_refl).
Defined.

(** In the small world the tip is considered, last of all calls, after the
    English file was updated. *)
Lemma tip_only_after_success_with_updates_witness :
  exists evt results,
    In evt (firstn 9 (Effects.traceOf (Demo.answer Demo.world)
                                      Demo.extraction tt))
    /\ Effects.translationsGot evt = Some results
    /\ existsb updated results = true.
Proof.
  exact (proj1 (@tip_only_after_success_with_updates
                  Demo.externals unit (Demo.answer Demo.world) tt
                  Demo.config Demo.defaultOptions
                  (firstn 9 (Effects.traceOf (Demo.answer Demo.world)
                                             Demo.extraction tt))
                  (@Effects.Ev Demo.externals
                               (Effects.ShouldShowFunnel "extract")
                               (Returned false))
                  [] eq_refl eq_refl)).
Defined.

(** In the small world [locales] is made right before [locales/en.json] is
    written. *)
Lemma write_follows_mkdir_witness :
  exists before,
    firstn 6 (Effects.traceOf (Demo.answer Demo.world) Demo.extraction tt)
    = (before ++ [@Effects.Ev Demo.externals (Effects.Mkdir "locales")
                              (Returned tt)])%list.
Proof.
  exact (@write_follows_mkdir
           Demo.externals unit (Demo.answer Demo.world) tt
           Demo.config Demo.defaultOptions
           (firstn 6 (Effects.traceOf (Demo.answer Demo.world)
                                      Demo.extraction tt))
           (@Effects.Ev Demo.externals
                        (Effects.WriteFile "locales/en.json" "json")
                        (Returned tt))
           (skipn 7 (Effects.traceOf (Demo.answer Demo.world)
                                     Demo.extraction tt))
           "locales/en.json" "json" eq_refl eq_refl).
Defined.

(** In the small world the directory made is the one of the English file,
    the updated one. *)
Lemma only_updated_results_touch_output_witness :
  exists evt results result,
    In evt (Effects.traceOf (Demo.answer Demo.world) Demo.extraction tt)
    /\ Effects.translationsGot evt = Some results
    /\ In result results /\ updated result = true
    /\ ((Effects.cmdOf (@Effects.Ev Demo.externals (Effects.Mkdir "locales")
                                    (Returned tt))
         = Effects.LoadRawJson5Content (path result)
         /\ match outputFormat (extract Demo.config) with
            | Some f => f
            | None => @inferFormatFromPath Demo.externals (path result)
            end = json5)
        \/ Effects.cmdOf (@Effects.Ev Demo.externals
                                      (Effects.Mkdir "locales")
                                      (Returned tt))
           = Effects.Mkdir (@dirname Demo.externals (path result))
        \/ exists content,
            Effects.cmdOf (@Effects.Ev Demo.externals
                                       (Effects.Mkdir "locales")
                                       (Returned tt))
            = Effects.WriteFile (path result) content).
Proof.
  refine (@only_updated_results_touch_output
            Demo.externals unit (Demo.answer Demo.world) tt
            Demo.config Demo.defaultOptions
            (@Effects.Ev Demo.externals (Effects.Mkdir "locales")
                         (Returned tt))
            _ eq_refl).
  do 5 right. left. reflexivity.
Defined.

Section TipExtras.

Import Effects Extractor.

Context {X : Externals}.

Variables (St : Type) (handle : forall c : Cmd, St -> Resp c * St).

(** X13. [printLocizeFunnel] first asks [shouldShowFunnel('extract')] and
    stops there when the answer is not [true]. Otherwise it prints the five
    lines of the tip, in order and all to one sink: the [info] method of the
    logger (the given one, or a [ConsoleLogger]) when that is a function,
    [console.log] when it is not; then it calls
    [recordFunnelShown('extract')], whose outcome is its own. *)
Theorem tip_goes_to_one_sink :
  forall (s : St) (logger : option Logger),
    let p := printLocizeFunnel logger in
    let internalLogger :=
      match logger with Some l => l | None => ConsoleLogger end in
    let printed (line : string) : Event :=
      if info_is_function internalLogger
      then Ev (LoggerInfo internalLogger line) tt
      else Ev (ConsoleLog line) tt in
    (exists e,
        traceOf handle p s = [Ev (ShouldShowFunnel "extract") (Threw e)]
        /\ outcomeOf handle p s = Threw e)
    \/ (traceOf handle p s
        = [Ev (ShouldShowFunnel "extract") (Returned false)]
        /\ outcomeOf handle p s = Returned tt)
    \/ (exists r,
           traceOf handle p s
           = (Ev (ShouldShowFunnel "extract") (Returned true)
                 :: map printed funnelLines
                 ++ [Ev (RecordFunnelShown "extract") r])%list
           /\ outcomeOf handle p s = r).
Proof.
  intros s logger p internalLogger printed.
  apply (@EffectFacts.always_run
           X _ p
           (fun t o =>
              (exists e,
                  t = [Ev (ShouldShowFunnel "extract") (Threw e)]
                  /\ o = Threw e)
              \/ (t = [Ev (ShouldShowFunnel "extract") (Returned false)]
                  /\ o = Returned tt)
              \/ (exists r,
                     t = (Ev (ShouldShowFunnel "extract") (Returned true)
                             :: map printed funnelLines
                             ++ [Ev (RecordFunnelShown "extract") r])%list
                     /\ o = r))).
  subst p printed. unfold printLocizeFunnel. fold internalLogger.
  simpl. intros [[|]|e]; simpl.
  - destruct (info_is_function internalLogger); simpl.
    + intros [] [] [] [] [] [[]|e]; simpl; right; right; eexists;
        split; reflexivity.
    + intros [] [] [] [] [] [[]|e]; simpl; right; right; eexists;
        split; reflexivity.
  - right. left. split; reflexivity.
  - left. exists e. split; reflexivity.
Qed.

End TipExtras.

(** ** The [onLoad] hooks of a file *)

Module OnLoadOrder.

Import Effects Extractor EffectFacts ProcessFileFacts Traces.

Section WithExternals.

Context {X : Externals}.

Variables (logger : Logger) (file : string).

(** A hook call is made for the file, by a plugin of the list that has the
    hook. *)
Definition hookOf (plugins : list Plugin) (ev : Event) : Prop :=
  forall p code f,
    cmdOf ev = PluginOnLoad p code f ->
    f = file /\ In p plugins /\ has_onLoad p = true.

Lemma hookOf_more (plugin : Plugin) (plugins : list Plugin)
      (t : list Event) :
  Forall (hookOf plugins) t -> Forall (hookOf (plugin :: plugins)) t.
Proof.
  intros H. eapply Forall_impl; [|exact H].
  intros ev K p code f E. destruct (K p code f E) as (A & B & C).
  repeat split; auto. now right.
Qed.

Lemma runOnLoadHooks_order (plugins : list Plugin) :
  forall code,
    always (runOnLoadHooks logger file plugins code)
           (fun t _ =>
              onLoadCalled t = filter has_onLoad plugins
              /\ Forall (hookOf plugins) t).
Proof.
  induction plugins as [|plugin plugins IH]; intros code; simpl.
  - split; [reflexivity | constructor].
  - apply always_bind. unfold runOnLoadHook.
    destruct (has_onLoad plugin) eqn:H; simpl.
    + assert (K : forall r, hookOf (plugin :: plugins)
                                   (Ev (PluginOnLoad plugin code file) r)).
      { intros r p c f E. inversion E; subst. repeat split; auto.
        now left. }
      intros [[code'|]|e]; simpl.
      * eapply always_mono; [|apply IH]. intros t o [A B]. split.
        -- simpl. now rewrite A.
        -- constructor; [apply K | now apply hookOf_more].
      * eapply always_mono; [|apply IH]. intros t o [A B]. split.
        -- simpl. now rewrite A.
        -- constructor; [apply K | now apply hookOf_more].
      * intros []. simpl. eapply always_mono; [|apply IH].
        intros t o [A B]. split.
        -- simpl. now rewrite A.
        -- constructor; [apply K|].
           constructor; [intros p c f E; discriminate E|].
           now apply hookOf_more.
    + eapply always_mono; [|apply IH]. intros t o [A B].
      split; [exact A | now apply hookOf_more].
Qed.

(** The calls of [processFile]: the read, the hooks, the rest. *)
Definition Staged (plugins : list Plugin) (t : list Event) : Prop :=
  exists first thooks rest,
    t = (first :: thooks ++ rest)%list
    /\ cmdOf first = ReadFile file
    /\ forallb hookish thooks = true
    /\ existsb isOnLoad rest = false
    /\ Forall (hookOf plugins) thooks
    /\ (returned first = true ->
        onLoadCalled thooks = filter has_onLoad plugins)
    /\ (returned first = false -> thooks = []).

Lemma processFile_Staged
      (plugins : list Plugin) (astVisitors : ASTVisitors)
      (pluginContext : PluginContext) (config : Config)
      (fileErrors : option (list string)) :
  always (processFile file plugins astVisitors pluginContext config logger
                      fileErrors)
         (fun t _ => Staged plugins t).
Proof.
  unfold processFile.
  apply always_try_catch. apply always_bind. simpl. intros [code|e]; simpl.
  - apply always_bind.
    eapply always_mono;
      [|apply (@RunPhases.always_conj
                 _ _ _ _ _ (runOnLoadHooks_always logger file plugins code)
                 (runOnLoadHooks_order plugins code))].
    intros t o [(final & -> & HR) [O F]]. apply HookRun_hookish in HR.
    unfold parseWithFallback. crunch.
    all: unfold Staged; repeat rewrite <- app_assoc.
    all: eexists _, t, _; split; [reflexivity|].
    all: repeat split; auto; discriminate.
  - crunch.
    all: eexists _, [], _; split; [reflexivity|].
    all: repeat split; auto; discriminate.
Qed.

Lemma onLoadCalled_app (a b : list Event) :
  onLoadCalled (a ++ b)%list = (onLoadCalled a ++ onLoadCalled b)%list.
Proof. apply flat_map_app. Qed.

Lemma onLoadCalled_none (t : list Event) :
  existsb isOnLoad t = false -> onLoadCalled t = [].
Proof.
  unfold onLoadCalled.
  induction t as [|[c r] t IH]; simpl; auto.
  intros E. apply orb_false_elim in E. destruct E as [E1 E2].
  rewrite (IH E2). destruct c; try reflexivity. discriminate E1.
Qed.

Lemma hookish_no_others (f : Event -> bool) (t : list Event) :
  (forall ev, hookish ev = true -> f ev = false) ->
  forallb hookish t = true -> existsb f t = false.
Proof. intros H. now apply RunPhases.class_excludes. Qed.

(** What is read off the stages. *)
Definition HooksFirst (plugins : list Plugin) (t : list Event) : Prop :=
  (forall first rest content,
      t = first :: rest -> contentRead first = Some content ->
      onLoadCalled t = filter has_onLoad plugins)
  /\ (forall ev p code f,
         In ev t -> cmdOf ev = PluginOnLoad p code f ->
         f = file /\ In p plugins /\ has_onLoad p = true)
  /\ (forall pre ev post,
         t = (pre ++ ev :: post)%list -> isOnLoad ev = true ->
         existsb isParse pre = false /\ existsb traverses pre = false).

Lemma Staged_HooksFirst (plugins : list Plugin) (t : list Event) :
  Staged plugins t -> HooksFirst plugins t.
Proof.
  intros (first & thooks & rest & -> & C & H & N & F & R1 & R2).
  assert (L : isOnLoad first = false)
    by (unfold isOnLoad; now rewrite C).
  split; [|split].
  - intros first' rest' content E Rd. inversion E; subst.
    assert (Rt : returned first' = true).
    { destruct first' as [c r]. simpl in C. subst c.
      destruct r; [reflexivity | discriminate Rd]. }
    change (onLoadCalled ([first'] ++ thooks ++ rest)%list
            = filter has_onLoad plugins).
    rewrite !onLoadCalled_app, (onLoadCalled_none rest N), (R1 Rt).
    rewrite app_nil_r.
    rewrite (onLoadCalled_none [first']); [reflexivity|].
    simpl. now rewrite L.
  - intros ev p code f [<-|Hin] E; [rewrite C in E; discriminate E|].
    apply in_app_or in Hin. destruct Hin as [Hin|Hin].
    + rewrite Forall_forall in F. exact (F ev Hin p code f E).
    + exfalso.
      assert (T : existsb isOnLoad rest = true).
      { apply existsb_exists. exists ev. split; [exact Hin|].
        unfold isOnLoad. now rewrite E. }
      congruence.
  - intros pre ev post E O.
    change (first :: thooks ++ rest)%list
      with ((first :: thooks) ++ rest)%list in E.
    destruct (@RunPhases.split_keep _ isOnLoad _ _ _ _ _ E N O)
      as (more & E1 & _).
    assert (P : forall g, g first = false ->
                          (forall x, hookish x = true -> g x = false) ->
                          existsb g pre = false).
    { intros g G1 G2.
      assert (A : existsb g (first :: thooks) = false).
      { simpl. rewrite G1. simpl. exact (@hookish_no_others g thooks G2 H). }
      rewrite E1, existsb_app in A. now apply orb_false_elim in A. }
    split; apply P.
    + unfold isParse. now rewrite C.
    + intros [c r]; destruct c; simpl; first [reflexivity | discriminate].
    + unfold traverses. now rewrite C.
    + intros [c r]; destruct c; simpl; first [reflexivity | discriminate].
Qed.

End WithExternals.

End OnLoadOrder.

(** ** Errors of an extraction *)

Module ErrorFacts.

Import Effects Extractor EffectFacts ProcessFileFacts RunExtractorFacts.

Section WithExternals.

Context {X : Externals}.

(** No error is swallowed: the outcome is the error of any call that
    threw. *)
Definition Propagates {A} (t : list Event) (o : Outcome A) : Prop :=
  forall ev e, In ev t -> thrownBy ev = Some e -> o = Threw e.

Definition propagates {A} (p : Prog A) : Prop := always p Propagates.

Lemma propagates_ret {A} (a : A) : propagates (Ret a).
Proof. intros ev e []. Qed.

Lemma propagates_throw {A} (e : Thrown) : propagates (@Throw _ A e).
Proof. intros ev e' []. Qed.

Lemma propagates_await {A} (o : Outcome A) : propagates (await o).
Proof. destruct o; intros ev e' []. Qed.

Lemma propagates_bind {A B} (p : Prog A) (f : A -> Prog B) :
  propagates p -> (forall a, propagates (f a)) -> propagates (bind p f).
Proof.
  intros Hp Hf. apply always_bind. eapply always_mono; [|apply Hp].
  intros t [a|e] H.
  2:{ intros ev e0 Hin Th. specialize (H ev e0 Hin Th).
      inversion H. reflexivity. }
  eapply always_mono; [|apply Hf]. intros t' o' H' ev e0 Hin Th.
  apply in_app_or in Hin. destruct Hin as [Hin|Hin].
  - discriminate (H ev e0 Hin Th).
  - exact (H' ev e0 Hin Th).
Qed.

(** A call whose failure is the failure of the program. *)
Lemma propagates_vis {A} (c : Cmd) (k : Resp c -> Prog A) :
  (forall r, match thrownBy (Ev c r) with
             | Some e => k r = Throw e
             | None => propagates (k r)
             end) ->
  propagates (Vis c k).
Proof.
  intros H r. specialize (H r).
  destruct (thrownBy (Ev c r)) as [e|] eqn:T.
  - rewrite H. simpl. intros ev e0 [<-|[]] Th. congruence.
  - eapply always_mono; [|exact H].
    intros t o H' ev e0 [<-|Hin] Th; [congruence | exact (H' ev e0 Hin Th)].
Qed.

(** [try { p } catch (error) { quiet; throw error }] *)
Lemma propagates_rethrow {A} (p : Prog A) (h : Thrown -> Prog A) :
  propagates p ->
  (forall e, always (h e)
                    (fun t o => o = Threw e /\ forallb returned t = true)) ->
  propagates (try_catch p h).
Proof.
  intros Hp Hh. apply always_try_catch. eapply always_mono; [|apply Hp].
  intros t [a|e] H; [exact H|].
  eapply always_mono; [|apply Hh]. intros t' o' [-> R] ev e0 Hin Th.
  apply in_app_or in Hin. destruct Hin as [Hin|Hin].
  - exact (H ev e0 Hin Th).
  - rewrite forallb_forall in R. specialize (R ev Hin).
    unfold returned in R. rewrite Th in R. discriminate R.
Qed.

Lemma propagates_forEach {A S} (body : S -> A -> Prog S) (l : list A) :
  (forall s x, propagates (body s x)) ->
  forall s, propagates (forEach l s body).
Proof.
  intros H. induction l as [|x l IH]; intros s; simpl.
  - apply propagates_ret.
  - apply propagates_bind; auto.
Qed.

End WithExternals.

Ltac propagate :=
  repeat first
         [ apply propagates_ret
         | apply propagates_throw
         | apply propagates_await
         | apply propagates_bind
         | apply propagates_forEach
         | apply propagates_vis;
           let r := fresh "r" in
           intro r; simpl in r;
           first [ destruct r as [?|?]; simpl; [|reflexivity]
                 | simpl ]
         | intro
         | match goal with
           | |- propagates (if ?b then _ else _) => destruct b eqn:?
           | |- propagates (match ?x with _ => _ end) => destruct x eqn:?
           end ].

Section WithExternals.

Context {X : Externals}.

Variables (config : Config) (options : Options).

Lemma runExtractor_propagates : propagates (runExtractor config options).
Proof.
  unfold runExtractor, validateExtractorConfig, createSpinnerLike.
  apply propagates_bind; [propagate|]. intros _.
  apply propagates_bind; [propagate|]. intros _.
  apply propagates_rethrow.
  - unfold findKeys, getTranslations, spinnerText, spinnerSucceed,
      printLocizeFunnel, shouldShowFunnel, recordFunnelShown, consoleLog,
      syncResult, writeResult, loadRawJson5Content, mkdir, writeFile, info,
      afterSync.
    propagate.
  - intros e. simpl. intros []. split; reflexivity.
Qed.

End WithExternals.

End ErrorFacts.

Section OrderAndErrorExtras.

Import Effects Extractor Traces.

Context {X : Externals}.

Variables (St : Type) (handle : forall c : Cmd, St -> Resp c * St).

(** X24. Once [readFile] has returned, [processFile] calls the [onLoad] hook
    of every plugin that has one, in the order of the plugins, whether or not
    an earlier hook threw. Each hook is called for the file. The hooks come
    before the parser and the traversal: no hook is called after them. *)
Theorem every_onLoad_hook_runs_before_parsing :
  forall (s : St) (file : string) (plugins : list Plugin)
         (astVisitors : ASTVisitors) (pluginContext : PluginContext)
         (config : Config) (logger : Logger)
         (fileErrors : option (list string)),
    let t := traceOf handle
                     (processFile file plugins astVisitors pluginContext
                                  config logger fileErrors) s in
    (forall first rest content,
        t = first :: rest -> contentRead first = Some content ->
        onLoadCalled t = filter has_onLoad plugins)
    /\ (forall ev plugin code f,
           In ev t -> cmdOf ev = PluginOnLoad plugin code f ->
           f = file /\ In plugin plugins /\ has_onLoad plugin = true)
    /\ (forall pre ev post,
           t = (pre ++ ev :: post)%list -> isOnLoad ev = true ->
           existsb isParse pre = false /\ existsb traverses pre = false).
Proof.
  intros s file plugins astVisitors pluginContext config logger fileErrors.
  exact (OnLoadOrder.Staged_HooksFirst
           (@EffectFacts.always_run
              X _ _ _
              (@OnLoadOrder.processFile_Staged
                 X logger file plugins astVisitors pluginContext config
                 fileErrors)
              St handle s)).
Qed.

(** X25. [runExtractor] swallows no error: when a call it makes throws, it
    rejects with the very value thrown. So it returns only when every call
    returned. *)
Theorem runExtractor_swallows_no_error :
  forall (s : St) (config : Config) (options : Options),
    let t := traceOf handle (runExtractor config options) s in
    let o := outcomeOf handle (runExtractor config options) s in
    (forall ev e, In ev t -> thrownBy ev = Some e -> o = Threw e)
    /\ (forall v, o = Returned v -> forallb returned t = true).
Proof.
  intros s config options t o.
  pose proof (@EffectFacts.always_run
                X _ _ _
                (@ErrorFacts.runExtractor_propagates X config options)
                St handle s) as P.
  split; [exact P|].
  intros v E. apply forallb_forall. intros ev Hin.
  unfold returned. destruct (thrownBy ev) as [e|] eqn:T; [|reflexivity].
  pose proof (P ev e Hin T) as F. fold o in F. congruence.
Qed.

End OrderAndErrorExtras.

(** Both hooks of the small world are called, the one that throws first. *)
Lemma every_onLoad_hook_runs_before_parsing_witness :
  Traces.onLoadCalled
    (Effects.traceOf (Demo.answer Demo.world) Demo.oneFile tt)
  = [Demo.failing; Demo.passive].
Proof.
  exact (proj1 (@every_onLoad_hook_runs_before_parsing
                  Demo.externals unit (Demo.answer Demo.world) tt
                  "src/a.ts" [Demo.failing; Demo.passive] tt tt
                  Demo.config Demo.silent (Some []))
               (@Effects.Ev Demo.externals (Effects.ReadFile "src/a.ts")
                            (Returned "t('k'"))
               (skipn 1 (Effects.traceOf (Demo.answer Demo.world)
                                         Demo.oneFile tt))
               "t('k'" eq_refl eq_refl).
Defined.

(** In the world whose configuration does not validate, the run rejects
    with the error of the validation. *)
Lemma runExtractor_swallows_no_error_witness :
  Effects.outcomeOf (Demo.answer Demo.invalidWorld) Demo.extraction tt
  = Threw (ThrownError (mkError "ExtractorError"
                                "extract.input is required" None)).
Proof.
  refine (proj1 (@runExtractor_swallows_no_error
                   Demo.externals unit (Demo.answer Demo.invalidWorld) tt
                   Demo.config Demo.defaultOptions)
                (@Effects.Ev
                   Demo.externals
                   (Effects.ValidateExtractorConfig
                      (@Extractor.withDefaults Demo.config))
                   (Threw (ThrownError
                             (mkError "ExtractorError"
                                      "extract.input is required" None))))
                _ _ eq_refl).
  left. reflexivity.
Defined.

(* ================================================================== *)
(** * Further properties of the linter *)

(** ** Placeholders found in a translation string *)

Module KeyFacts.

Import Linter.

(** Every code unit of [s] satisfies [f]. *)
Fixpoint every (f : ascii -> bool) (s : string) : bool :=
  match s with
  | EmptyString => true
  | String c s' => f c && every f s'
  end.

Lemma prefix_split (p s : string) :
  String.prefix p s = true -> exists rest, s = p ++ rest.
Proof.
  revert s. induction p as [|c p IH]; intros s H.
  - now exists s.
  - destruct s as [|d s]; simpl in H; [discriminate|].
    destruct (ascii_dec c d) as [->|]; [|discriminate].
    destruct (IH s H) as (rest & ->). now exists rest.
Qed.

Lemma prefix_append (p s : string) : String.prefix p (p ++ s) = true.
Proof. exact (JsStringFacts.startsWith_append p s). Qed.

Lemma every_append (f : ascii -> bool) (a b : string) :
  every f (a ++ b) = every f a && every f b.
Proof.
  induction a as [|c a IH]; simpl; [reflexivity|].
  now rewrite IH, andb_assoc.
Qed.

Lemma keyChar_not_whiteSpace (c : ascii) :
  isKeyChar c = true -> JsString.isWhiteSpace c = false.
Proof.
  destruct c as [[] [] [] [] [] [] [] []]; vm_compute;
    first [reflexivity | discriminate].
Qed.

Section Delimiters.

Variables (prefix suffix : string).

Lemma suffixHere_sound (s : string) (n : nat) :
  suffixHere suffix s = Some n ->
  (exists rest, s = suffix ++ rest) /\ n = String.length suffix.
Proof.
  unfold suffixHere. destruct (String.prefix suffix s) eqn:P; [|discriminate].
  intros E. inversion E. split; [now apply prefix_split | reflexivity].
Qed.

(** What [\s* suffix] matched. *)
Definition Tail (s : string) (n : nat) : Prop :=
  exists ws rest,
    s = ws ++ suffix ++ rest
    /\ every JsString.isWhiteSpace ws = true
    /\ n = String.length ws + String.length suffix.

Lemma Tail_here (s : string) (n : nat) :
  suffixHere suffix s = Some n -> Tail s n.
Proof.
  intros H. apply suffixHere_sound in H. destruct H as [(rest & ->) ->].
  exists EmptyString, rest. auto.
Qed.

Lemma matchTail_sound (s : string) :
  forall n, matchTail suffix s = Some n -> Tail s n.
Proof.
  induction s as [|c s IH]; intros n H; simpl in H.
  - now apply Tail_here.
  - destruct (JsString.isWhiteSpace c) eqn:W; [|now apply Tail_here].
    destruct (matchTail suffix s) as [m|]; [|now apply Tail_here].
    inversion H; subst.
    destruct (IH m eq_refl) as (ws & rest & -> & E & ->).
    exists (String c ws), rest. simpl. rewrite W, E. auto.
Qed.

(** What [([\w.-]+) \s* suffix] matched. *)
Definition Keyed (s key : string) (n : nat) : Prop :=
  exists ws rest,
    s = key ++ ws ++ suffix ++ rest
    /\ key <> EmptyString
    /\ every isKeyChar key = true
    /\ every JsString.isWhiteSpace ws = true
    /\ n = String.length key + (String.length ws + String.length suffix).

Lemma matchKey_sound (s : string) :
  forall key n, matchKey suffix s = Some (key, n) -> Keyed s key n.
Proof.
  induction s as [|c s IH]; intros key n H; simpl in H; [discriminate|].
  destruct (isKeyChar c) eqn:K; [|discriminate].
  destruct (matchKey suffix s) as [[key' m]|].
  - inversion H; subst.
    destruct (IH key' m eq_refl) as (ws & rest & -> & _ & E & W & ->).
    exists ws, rest. simpl. rewrite K, E.
    repeat split; auto. discriminate.
  - destruct (matchTail suffix s) as [m|] eqn:T; [|discriminate].
    inversion H; subst.
    destruct (matchTail_sound _ T) as (ws & rest & -> & W & ->).
    exists ws, rest. simpl. rewrite K.
    repeat split; auto. discriminate.
Qed.

Lemma skipWhiteSpace_sound (s : string) :
  forall n r,
    skipWhiteSpace s = (n, r) ->
    exists ws, s = ws ++ r /\ every JsString.isWhiteSpace ws = true
               /\ n = String.length ws.
Proof.
  induction s as [|c s IH]; intros n r H; simpl in H.
  - inversion H. now exists EmptyString.
  - destruct (JsString.isWhiteSpace c) eqn:W.
    + destruct (skipWhiteSpace s) as [m r'] eqn:E. inversion H; subst.
      destruct (IH m r eq_refl) as (ws & -> & Hw & ->).
      exists (String c ws). simpl. now rewrite W, Hw.
    + inversion H. now exists EmptyString.
Qed.

(** A placeholder at the head of [s]: the delimiters, the key and the white
    space around it. *)
Definition Placeholder (s key : string) : Prop :=
  exists ws1 ws2 rest,
    s = prefix ++ ws1 ++ key ++ ws2 ++ suffix ++ rest
    /\ key <> EmptyString
    /\ every isKeyChar key = true
    /\ every JsString.isWhiteSpace ws1 = true
    /\ every JsString.isWhiteSpace ws2 = true.

Lemma matchHere_sound (s key : string) (n : nat) :
  matchHere prefix suffix s = Some (key, n) -> Placeholder s key.
Proof.
  unfold matchHere.
  destruct (String.prefix prefix s) eqn:P; [|discriminate].
  destruct (prefix_split _ _ P) as (r & ->).
  rewrite JsStringFacts.slice_append.
  destruct (skipWhiteSpace r) as [m r'] eqn:S.
  destruct (skipWhiteSpace_sound _ S) as (ws1 & -> & W1 & ->).
  destruct (matchKey suffix r') as [[k j]|] eqn:M; [|discriminate].
  intros E. inversion E; subst.
  destruct (matchKey_sound _ M) as (ws2 & rest & -> & N & K & W2 & _).
  exists ws1, ws2, rest. auto.
Qed.

Lemma execAll_sound (s : string) :
  forall skip key,
    In key (execAll prefix suffix s skip) ->
    exists before, Placeholder (JsString.slice before s) key.
Proof.
  induction s as [|c s IH]; intros skip key H; simpl in H; [contradiction|].
  assert (L : forall k, In key (execAll prefix suffix s k) ->
                        exists before,
                          Placeholder (JsString.slice before (String c s))
                                      key).
  { intros k Hk. destruct (IH k key Hk) as (before & P).
    now exists (S before). }
  destruct skip as [|k]; [|now apply (L k)].
  destruct (matchHere prefix suffix (String c s)) as [[k n]|] eqn:M;
    [|now apply (L 0)].
  destruct (JsString.truthy k); [|now apply (L (n - 1))].
  destruct H as [<-|H]; [|now apply (L (n - 1))].
  exists 0. now apply (@matchHere_sound _ _ n).
Qed.

Lemma slice_split (n : nat) :
  forall s, exists before, s = before ++ JsString.slice n s.
Proof.
  induction n as [|n IH]; intros s.
  - now exists EmptyString.
  - destruct s as [|c s]; [now exists EmptyString|].
    destruct (IH s) as (before & E). exists (String c before).
    simpl. now rewrite <- E.
Qed.

(** *** A placeholder alone *)

Lemma matchTail_complete (ws : string) :
  forall c rest,
    every JsString.isWhiteSpace ws = true ->
    suffix = String c rest ->
    JsString.isWhiteSpace c = false ->
    matchTail suffix (ws ++ suffix)
    = Some (String.length ws + String.length suffix).
Proof.
  intros c rest W E Nc.
  assert (B : matchTail suffix suffix = Some (String.length suffix)).
  { pose proof (prefix_append suffix EmptyString) as P.
    assert (A : suffix ++ EmptyString = suffix).
    { clear. induction suffix; simpl; congruence. }
    rewrite A in P.
    rewrite E at 2. simpl. rewrite Nc. rewrite <- E.
    unfold suffixHere. now rewrite P. }
  induction ws as [|d ws IH]; simpl; [exact B|].
  simpl in W. apply andb_prop in W. destruct W as [W1 W2].
  now rewrite W1, (IH W2).
Qed.

Lemma matchKey_complete (key : string) :
  forall ws c rest,
    key <> EmptyString ->
    every isKeyChar key = true ->
    every JsString.isWhiteSpace ws = true ->
    suffix = String c rest ->
    JsString.isWhiteSpace c = false ->
    isKeyChar c = false ->
    matchKey suffix (key ++ ws ++ suffix)
    = Some (key, String.length key
                 + (String.length ws + String.length suffix)).
Proof.
  intros ws c rest N K W E Nw Nk.
  assert (Stop : matchKey suffix (ws ++ suffix) = None).
  { destruct ws as [|d ws]; simpl.
    - rewrite E. simpl. now rewrite Nk.
    - simpl in W. apply andb_prop in W. destruct W as [W _].
      destruct (isKeyChar d) eqn:Kd; [|reflexivity].
      apply keyChar_not_whiteSpace in Kd. congruence. }
  induction key as [|d key IH]; [congruence|].
  simpl in K. apply andb_prop in K. destruct K as [K1 K2].
  simpl. rewrite K1.
  destruct key as [|d' key].
  - simpl. simpl in Stop. rewrite Stop.
    now rewrite (@matchTail_complete ws c rest W E Nw).
  - rewrite IH; [reflexivity | discriminate | exact K2].
Qed.

Lemma skipWhiteSpace_complete (ws r : string) :
  every JsString.isWhiteSpace ws = true ->
  (forall c r', r = String c r' -> JsString.isWhiteSpace c = false) ->
  skipWhiteSpace (ws ++ r) = (String.length ws, r).
Proof.
  intros W H. induction ws as [|d ws IH]; simpl.
  - destruct r as [|c r']; [reflexivity|]. simpl.
    now rewrite (H c r' eq_refl).
  - simpl in W. apply andb_prop in W. destruct W as [W1 W2].
    now rewrite W1, (IH W2).
Qed.

Lemma execAll_skipped (s : string) :
  forall skip, String.length s <= skip ->
               execAll prefix suffix s skip = [].
Proof.
  induction s as [|c s IH]; intros skip H; [reflexivity|].
  simpl in H. destruct skip as [|k]; [lia|]. simpl. apply IH. lia.
Qed.

Lemma execAll_lone (ws1 key ws2 : string) (c : ascii) (rest : string) :
  suffix = String c rest ->
  isKeyChar c = false ->
  JsString.isWhiteSpace c = false ->
  key <> EmptyString ->
  every isKeyChar key = true ->
  every JsString.isWhiteSpace ws1 = true ->
  every JsString.isWhiteSpace ws2 = true ->
  execAll prefix suffix (prefix ++ ws1 ++ key ++ ws2 ++ suffix) 0 = [key].
Proof.
  intros E Nk Nw N K W1 W2.
  assert (M : matchHere prefix suffix
                        (prefix ++ ws1 ++ key ++ ws2 ++ suffix)
              = Some (key,
                      String.length
                        (prefix ++ ws1 ++ key ++ ws2 ++ suffix))).
  { unfold matchHere.
    rewrite prefix_append, JsStringFacts.slice_append.
    rewrite skipWhiteSpace_complete; auto.
    - rewrite (@matchKey_complete key ws2 c rest); auto.
      rewrite !JsStringFacts.append_length. do 2 f_equal. lia.
    - intros d r' Er. destruct key as [|k key]; [congruence|].
      simpl in Er. inversion Er; subst. simpl in K.
      apply andb_prop in K. destruct K as [K _].
      now apply keyChar_not_whiteSpace. }
  destruct (prefix ++ ws1 ++ key ++ ws2 ++ suffix) as [|a s] eqn:S.
  - apply (f_equal String.length) in S.
    rewrite !JsStringFacts.append_length in S.
    destruct key; [congruence | simpl in S; lia].
  - change (execAll prefix suffix (String a s) 0)
      with (match matchHere prefix suffix (String a s) with
            | Some (key, n) =>
                if JsString.truthy key
                then key :: execAll prefix suffix s (n - 1)
                else execAll prefix suffix s (n - 1)
            | None => execAll prefix suffix s 0
            end).
    rewrite M. destruct key as [|k key]; [congruence|].
    simpl JsString.truthy. cbv iota.
    rewrite execAll_skipped; [reflexivity | simpl; lia].
Qed.

End Delimiters.

End KeyFacts.

(** X14. A key that [extractInterpolationKeys] returns is a name that stands
    in the string between the two delimiters: it is not empty, it is made of
    letters, digits, [_], [.] and [-], and the string holds the prefix, white
    space, the key, white space and the suffix in a row. *)
Theorem interpolation_keys_are_delimited_names :
  forall (str : string) (config : Config) (key : string),
    In key (Linter.extractInterpolationKeys str config) ->
    key <> EmptyString
    /\ KeyFacts.every Linter.isKeyChar key = true
    /\ exists before ws1 ws2 after,
        str = before
                ++ match interpolationPrefix (extract config) with
                   | Some p => p
                   | None => "{{"
                   end
                ++ ws1 ++ key ++ ws2
                ++ match interpolationSuffix (extract config) with
                   | Some p => p
                   | None => "}}"
                   end
                ++ after
        /\ KeyFacts.every JsString.isWhiteSpace ws1 = true
        /\ KeyFacts.every JsString.isWhiteSpace ws2 = true.
Proof.
  intros str config key H. unfold Linter.extractInterpolationKeys in H.
  apply KeyFacts.execAll_sound in H.
  destruct H as (n & ws1 & ws2 & rest & E & N & K & W1 & W2).
  split; [exact N|]. split; [exact K|].
  destruct (KeyFacts.slice_split n str) as (before & S).
  exists before, ws1, ws2, rest. split; [|now split].
  rewrite S at 1. now rewrite E.
Qed.

(** The key of [Hello {{ name }}!] stands between the default
    delimiters. *)
Lemma interpolation_keys_are_delimited_names_witness :
  exists before ws1 ws2 after,
    "Hello {{ name }}!"
    = before ++ "{{" ++ ws1 ++ "name" ++ ws2 ++ "}}" ++ after
    /\ KeyFacts.every JsString.isWhiteSpace ws1 = true
    /\ KeyFacts.every JsString.isWhiteSpace ws2 = true.
Proof.
  exact (proj2 (proj2 (interpolation_keys_are_delimited_names
                         "Hello {{ name }}!" Demo.config "name"
                         (or_introl eq_refl)))).
Defined.

(** X15. A string that is one placeholder yields its key and nothing else: the
    prefix, white space, a name, white space and the suffix, for a suffix that
    begins with a code unit that is neither white space nor a character of
    names, as the default [}}] does. *)
Theorem lone_placeholder_yields_its_key :
  forall (config : Config) (ws1 key ws2 : string) (c : ascii)
         (rest : string),
    match interpolationSuffix (extract config) with
    | Some p => p
    | None => "}}"
    end = String c rest ->
    Linter.isKeyChar c = false ->
    JsString.isWhiteSpace c = false ->
    key <> EmptyString ->
    KeyFacts.every Linter.isKeyChar key = true ->
    KeyFacts.every JsString.isWhiteSpace ws1 = true ->
    KeyFacts.every JsString.isWhiteSpace ws2 = true ->
    Linter.extractInterpolationKeys
      (match interpolationPrefix (extract config) with
       | Some p => p
       | None => "{{"
       end ++ ws1 ++ key ++ ws2 ++ String c rest)
      config
    = [key].
Proof.
  intros config ws1 key ws2 c rest E Nk Nw N K W1 W2.
  unfold Linter.extractInterpolationKeys. rewrite <- E.
  now apply (@KeyFacts.execAll_lone _ _ ws1 key ws2 c rest).
Qed.

(** [{{ first-name }}] with the default delimiters. *)
Lemma lone_placeholder_yields_its_key_witness :
  Linter.extractInterpolationKeys "{{ first-name }}" Demo.config
  = ["first-name"].
Proof.
  refine (@lone_placeholder_yields_its_key
            Demo.config " " "first-name" " " "}"%char "}"
            eq_refl eq_refl eq_refl _ eq_refl eq_refl eq_refl).
  discriminate.
Defined.

(** ** The issues of a call site *)

Module IssueFacts.

Import Linter LinterFacts.

Lemma includes_false (l : list string) (k : string) :
  includes l k = false <-> ~ In k l.
Proof.
  rewrite <- includes_In. destruct (includes l k); split; congruence.
Qed.

Lemma existsb_false {A} (f : A -> bool) (l : list A) :
  existsb f l = false <-> forall x, In x l -> f x = false.
Proof.
  induction l as [|a l IH]; simpl.
  - split; [contradiction | reflexivity].
  - rewrite orb_false_iff, IH. split.
    + intros [Ha Hl] x [<-|Hx]; auto.
    + intros H. split; [apply H; now left|]. intros x Hx. apply H.
      now right.
Qed.

(** [k] is missing: neither it nor its root is among the parameters. *)
Definition missing (params : list string) (k : string) : Prop :=
  ~ In k params /\ ~ In (JsString.beforeFirstDot k) params.

(** [pk] is unused: it is not an option of [t] and it is neither a key nor
    the root of a key. *)
Definition unused (keys : list string) (pk : string) : Prop :=
  isI18nextOptionKey pk = false
  /\ forall k, In k keys -> k <> pk /\ JsString.beforeFirstDot k <> pk.

Lemma missingIssues_iff (keys params : list string) (n : nat)
      (issue : LintIssue) :
  In issue (missingIssues keys params n)
  <-> exists k, In k keys /\ missing params k
                /\ issue = mkIssue (missingText k) n "interpolation".
Proof.
  unfold missingIssues, missing. rewrite in_flat_map. split.
  - intros (k & Hk & Hi). exists k. split; [exact Hk|].
    destruct (includes params k) eqn:E1; simpl in Hi; [contradiction|].
    destruct (includes params (JsString.beforeFirstDot k)) eqn:E2;
      simpl in Hi; [contradiction|].
    destruct Hi as [<-|[]].
    apply includes_false in E1. apply includes_false in E2. auto.
  - intros (k & Hk & [M1 M2] & ->). exists k. split; [exact Hk|].
    apply includes_false in M1. apply includes_false in M2.
    rewrite M1, M2. now left.
Qed.

Lemma unusedIssues_iff (keys params : list string) (n : nat)
      (issue : LintIssue) :
  In issue (unusedIssues keys params n)
  <-> exists pk, In pk params /\ unused keys pk
                 /\ issue = mkIssue (unusedText pk) n "interpolation".
Proof.
  unfold unusedIssues, unused. rewrite in_flat_map. split.
  - intros (pk & Hp & Hi). exists pk. split; [exact Hp|].
    destruct (isI18nextOptionKey pk); [contradiction|].
    match type of Hi with
    | In _ (if negb ?b then _ else _) => destruct b eqn:U
    end; simpl in Hi; [contradiction|].
    destruct Hi as [<-|[]]. split; [|reflexivity]. split; [reflexivity|].
    intros k Hk. rewrite existsb_false in U. specialize (U k Hk).
    apply orb_false_elim in U. destruct U as [U1 U2].
    split; now apply String.eqb_neq.
  - intros (pk & Hp & [O U] & ->). exists pk. split; [exact Hp|].
    rewrite O.
    assert (E : existsb (fun k => String.eqb k pk
                                  || String.eqb (JsString.beforeFirstDot k)
                                                pk) keys = false).
    { apply existsb_false. intros k Hk. destruct (U k Hk) as [U1 U2].
      apply String.eqb_neq in U1. apply String.eqb_neq in U2.
      now rewrite U1, U2. }
    rewrite E. now left.
Qed.

(** *** Line numbers *)

(** A list of numbers that never goes down. *)
Fixpoint nonDecreasing (l : list nat) : Prop :=
  match l with
  | [] => True
  | a :: l' => Forall (le a) l' /\ nonDecreasing l'
  end.

Lemma nonDecreasing_app (a b : list nat) :
  nonDecreasing a -> nonDecreasing b ->
  (forall x y, In x a -> In y b -> x <= y) ->
  nonDecreasing (a ++ b)%list.
Proof.
  induction a as [|x a IH]; simpl; intros Ha Hb H; [exact Hb|].
  destruct Ha as [H1 H2]. split.
  - apply Forall_app. split; [exact H1|].
    apply Forall_forall. intros y Hy. apply H; auto.
  - apply IH; auto.
Qed.

Lemma nonDecreasing_constant (n : nat) (l : list nat) :
  (forall x, In x l -> x = n) -> nonDecreasing l.
Proof.
  induction l as [|a l IH]; simpl; intros H; [exact I|]. split.
  - apply Forall_forall. intros y Hy.
    rewrite (H a (or_introl eq_refl)), (H y (or_intror Hy)). constructor.
  - apply IH. intros x Hx. apply H. now right.
Qed.

Lemma prefix_length (p s : string) :
  String.prefix p s = true -> String.length p <= String.length s.
Proof.
  intros H. destruct (KeyFacts.prefix_split _ _ H) as (rest & ->).
  rewrite JsStringFacts.append_length. lia.
Qed.

Lemma indexOfAt_eq (pat s : string) (from i : nat) :
  JsString.indexOfAt pat s from i
  = if (from <=? i)%nat && String.prefix pat s then Some i
    else match s with
         | EmptyString => None
         | String _ s' => JsString.indexOfAt pat s' from (S i)
         end.
Proof. destruct s; reflexivity. Qed.

Lemma indexOfAt_bounds (pat s : string) (from : nat) :
  forall i p,
    JsString.indexOfAt pat s from i = Some p ->
    from <= p /\ p + String.length pat <= i + String.length s.
Proof.
  induction s as [|c s IH]; intros i p H; rewrite indexOfAt_eq in H;
    destruct ((from <=? i)%nat && String.prefix pat _) eqn:E;
    try discriminate.
  - inversion H; subst. apply andb_prop in E. destruct E as [E1 E2].
    apply Nat.leb_le in E1. apply prefix_length in E2. simpl in *. lia.
  - inversion H; subst. apply andb_prop in E. destruct E as [E1 E2].
    apply Nat.leb_le in E1. apply prefix_length in E2. simpl in *. lia.
  - apply IH in H. simpl. lia.
Qed.

Lemma indexOf_bounds (s pat : string) (from p : nat) :
  JsString.indexOf s pat from = Some p ->
  Nat.min from (String.length s) <= p
  /\ p + String.length pat <= String.length s.
Proof.
  unfold JsString.indexOf. intros H. apply indexOfAt_bounds in H. lia.
Qed.

Lemma lineFeedsBefore_mono (s : string) :
  forall a b, a <= b ->
              JsString.lineFeedsBefore s a <= JsString.lineFeedsBefore s b.
Proof.
  induction s as [|c s IH]; intros a b H.
  - destruct a, b; simpl; lia.
  - destruct a as [|a]; [simpl; lia|].
    destruct b as [|b]; [lia|]. simpl.
    specialize (IH a b). lia.
Qed.

Lemma getLineNumber_mono (code : string) (a b : nat) :
  a <= b -> getLineNumber code a <= getLineNumber code b.
Proof.
  intros H. unfold getLineNumber.
  pose proof (lineFeedsBefore_mono code H). lia.
Qed.

Lemma callSiteIssues_line (keys params : list string) (n : nat)
      (issue : LintIssue) :
  In issue (callSiteIssues keys params n) ->
  line issue = n /\ type issue = "interpolation".
Proof.
  unfold callSiteIssues. destruct (0 <? List.length keys)%nat;
    [|contradiction].
  rewrite in_app_iff, missingIssues_iff, unusedIssues_iff.
  intros [(k & _ & _ & ->) | (pk & _ & _ & ->)]; auto.
Qed.

Section Lines.

Variables (code : string) (config : Config).

(** What holds of the state of the loop over the call sites. *)
Definition Inv (st : nat * list LintIssue) : Prop :=
  fst st <= String.length code
  /\ nonDecreasing (map line (snd st))
  /\ forall issue, In issue (snd st) ->
                   1 <= line issue <= getLineNumber code (fst st)
                   /\ type issue = "interpolation".

Lemma checkCallSite_Inv (st : nat * list LintIssue) (site : CallSite) :
  Inv st -> Inv (checkCallSite code config st site).
Proof.
  destruct st as [idx issues]. intros (B & S & L). unfold checkCallSite.
  destruct (JsString.indexOf code (searchText site) idx) as [pos|] eqn:E;
    [|exact (conj B (conj S L))].
  apply indexOf_bounds in E. destruct E as [E1 E2]. simpl in B.
  rewrite Nat.min_l in E1 by exact B.
  unfold Inv. simpl fst. simpl snd. split; [exact E2|]. split.
  - rewrite map_app. apply nonDecreasing_app; [exact S| |].
    + apply (@nonDecreasing_constant (getLineNumber code pos)).
      intros x Hx. apply in_map_iff in Hx. destruct Hx as (i & <- & Hi).
      now apply callSiteIssues_line in Hi.
    + intros x y Hx Hy.
      apply in_map_iff in Hx. destruct Hx as (i & <- & Hi).
      apply in_map_iff in Hy. destruct Hy as (j & <- & Hj).
      apply callSiteIssues_line in Hj. destruct Hj as [-> _].
      destruct (L i Hi) as [[_ Li] _]. simpl in Li.
      pose proof (getLineNumber_mono code E1). lia.
  - intros issue Hin. apply in_app_or in Hin. destruct Hin as [Hin|Hin].
    + destruct (L issue Hin) as [[L1 L2] T]. simpl in L2.
      split; [|exact T]. split; [exact L1|].
      assert (G : idx <= pos + String.length (searchText site)) by lia.
      pose proof (getLineNumber_mono code G). lia.
    + apply callSiteIssues_line in Hin. destruct Hin as [-> T].
      split; [|exact T]. split; [unfold getLineNumber; lia|].
      apply getLineNumber_mono. lia.
Qed.

Lemma fold_Inv (sites : list CallSite) :
  forall st, Inv st -> Inv (fold_left (checkCallSite code config) sites st).
Proof.
  induction sites as [|site sites IH]; intros st H; simpl; [exact H|].
  apply IH. now apply checkCallSite_Inv.
Qed.

End Lines.

End IssueFacts.



(** X17. The issues of [lintInterpolationParams] come in the order of the
    source: their line numbers never go down. Each line is a line of the code,
    counted from 1, and each issue has the type [interpolation]. *)
Theorem interpolation_issues_follow_the_source :
  forall (ast : JsVal) (code : string) (config : Config)
         (translationValues : option (list (string * string)))
         (issues : list Linter.LintIssue),
    Linter.lintInterpolationParams ast code config translationValues
    = Linter.Ok issues ->
    IssueFacts.nonDecreasing (map Linter.line issues)
    /\ forall issue,
        In issue issues ->
        1 <= Linter.line issue
          <= Linter.getLineNumber code (String.length code)
        /\ Linter.type issue = "interpolation".
Proof.
  intros ast code config tv issues H.
  unfold Linter.lintInterpolationParams in H.
  match type of H with
  | (if negb ?b then _ else _) = _ => destruct b
  end; simpl in H.
  - destruct (Linter.walk config tv ast [] []) as [sites| |];
      simpl in H; try discriminate.
    inversion H; subst.
    destruct (@IssueFacts.fold_Inv code config sites (0, []))
      as (B & S & L).
    + split; [simpl; lia|]. split; [exact I|]. intros issue [].
    + split; [exact S|]. intros issue Hin.
      destruct (L issue Hin) as [[L1 L2] T].
      split; [|exact T]. split; [exact L1|].
      pose proof (@IssueFacts.getLineNumber_mono code _ _ B). lia.
  - inversion H; subst. simpl. split; [exact I | contradiction].
Qed.

(** The two issues of the greeting are on line 1. *)
Lemma interpolation_issues_follow_the_source_witness :
  IssueFacts.nonDecreasing (map Linter.line Demo.greetingIssues)
  /\ forall issue,
      In issue Demo.greetingIssues ->
      1 <= Linter.line issue
        <= Linter.getLineNumber Demo.greetingCode
                                (String.length Demo.greetingCode)
      /\ Linter.type issue = "interpolation".
Proof.
  exact (@interpolation_issues_follow_the_source
           Demo.greetingAst Demo.greetingCode Demo.config None
           Demo.greetingIssues eq_refl).
Defined.

(** ** Extension hints *)

Module ExtensionFacts.

Import JsString LintPlugins.

Lemma isWhiteSpace_lowerChar (c : ascii) :
  isWhiteSpace (lowerChar c) = isWhiteSpace c.
Proof.
  destruct c as [[] [] [] [] [] [] [] []]; vm_compute; reflexivity.
Qed.

Lemma lowerChar_idempotent (c : ascii) :
  lowerChar (lowerChar c) = lowerChar c.
Proof.
  destruct c as [[] [] [] [] [] [] [] []]; vm_compute; reflexivity.
Qed.

Lemma toLowerCase_idempotent (s : string) :
  toLowerCase (toLowerCase s) = toLowerCase s.
Proof.
  induction s as [|c s IH]; simpl; [reflexivity|].
  now rewrite lowerChar_idempotent, IH.
Qed.

Lemma toLowerCase_empty (s : string) :
  toLowerCase s = EmptyString <-> s = EmptyString.
Proof. destruct s; simpl; split; congruence. Qed.

Lemma trimStart_lower (s : string) :
  trimStart (toLowerCase s) = toLowerCase (trimStart s).
Proof.
  induction s as [|c s IH]; simpl; [reflexivity|].
  rewrite isWhiteSpace_lowerChar.
  destruct (isWhiteSpace c); [exact IH | reflexivity].
Qed.

Lemma trimEnd_lower (s : string) :
  trimEnd (toLowerCase s) = toLowerCase (trimEnd s).
Proof.
  induction s as [|c s IH]; simpl; [reflexivity|].
  rewrite IH, isWhiteSpace_lowerChar.
  destruct (trimEnd s) as [|d r]; simpl; [|reflexivity].
  destruct (isWhiteSpace c); reflexivity.
Qed.

Lemma trim_lower (s : string) : trim (toLowerCase s) = toLowerCase (trim s).
Proof. unfold trim. now rewrite trimStart_lower, trimEnd_lower. Qed.

(** No white space at the head. *)
Definition headOk (s : string) : Prop :=
  match s with
  | String c _ => isWhiteSpace c = false
  | EmptyString => True
  end.

Lemma trimStart_headOk (s : string) : headOk (trimStart s).
Proof.
  induction s as [|c s IH]; simpl; [exact I|].
  destruct (isWhiteSpace c) eqn:W; [exact IH | exact W].
Qed.

Lemma headOk_trimStart (s : string) : headOk s -> trimStart s = s.
Proof. destruct s as [|c s]; simpl; [reflexivity|]. now intros ->. Qed.

Lemma trimEnd_headOk (s : string) : headOk s -> headOk (trimEnd s).
Proof.
  destruct s as [|c s]; simpl; [auto|]. intros W.
  destruct (trimEnd s); [rewrite W|]; exact W.
Qed.

Lemma trimEnd_idempotent (s : string) : trimEnd (trimEnd s) = trimEnd s.
Proof.
  induction s as [|c s IH]; simpl; [reflexivity|].
  destruct (trimEnd s) as [|d r] eqn:E.
  - destruct (isWhiteSpace c) eqn:W; simpl; [reflexivity|]. now rewrite W.
  - simpl. simpl in IH. now rewrite IH.
Qed.

(** No white space at either end. *)
Definition Trimmed (s : string) : Prop := trimStart s = s /\ trimEnd s = s.

Lemma trim_Trimmed (s : string) : Trimmed (trim s).
Proof.
  unfold trim. split.
  - apply headOk_trimStart, trimEnd_headOk, trimStart_headOk.
  - apply trimEnd_idempotent.
Qed.

Lemma Trimmed_trim (s : string) : Trimmed s -> trim s = s.
Proof. intros [H1 H2]. unfold trim. now rewrite H1, H2. Qed.

Lemma Trimmed_lower (s : string) : Trimmed s -> Trimmed (toLowerCase s).
Proof.
  intros [H1 H2]. split.
  - now rewrite trimStart_lower, H1.
  - now rewrite trimEnd_lower, H2.
Qed.

Lemma Trimmed_dot (s : string) :
  Trimmed s -> s <> EmptyString -> Trimmed ("." ++ s).
Proof.
  intros [H1 H2] N. split; [reflexivity|].
  simpl. rewrite H2. destruct s; [congruence | reflexivity].
Qed.

(** What [normalizeExtension] returns. *)
Definition Normal (n : string) : Prop :=
  Trimmed n /\ toLowerCase n = n
  /\ (n = EmptyString \/ startsWith n "." = true).

Lemma normalizeExtension_Normal (ext : string) :
  Normal (normalizeExtension ext).
Proof.
  unfold normalizeExtension.
  pose proof (Trimmed_lower (trim_Trimmed ext)) as T.
  pose proof (toLowerCase_idempotent (trim ext)) as L.
  destruct (toLowerCase (trim ext)) as [|c t] eqn:E.
  - simpl. repeat split; auto.
  - simpl truthy. simpl negb. cbv iota.
    destruct (startsWith (String c t) ".") eqn:D.
    + repeat split; try apply T; auto.
    + split; [|split].
      * apply Trimmed_dot; [exact T | discriminate].
      * simpl. simpl in L. now rewrite L.
      * right. reflexivity.
Qed.

Lemma Normal_fixed (n : string) : Normal n -> normalizeExtension n = n.
Proof.
  intros (T & L & D). unfold normalizeExtension.
  rewrite (Trimmed_trim T), L.
  destruct D as [-> | D]; [reflexivity|].
  rewrite D. destruct n; [discriminate D | reflexivity].
Qed.

Lemma truthy_iff (s : string) : truthy s = true <-> s <> EmptyString.
Proof. destruct s; simpl; split; congruence. Qed.

End ExtensionFacts.

(** X18. [normalizeExtension] is idempotent. What it returns is in lower case,
    has no white space at either end, and is empty or begins with a dot. *)
Theorem normalizeExtension_idempotent :
  forall ext : string,
    LintPlugins.normalizeExtension (LintPlugins.normalizeExtension ext)
    = LintPlugins.normalizeExtension ext
    /\ JsString.toLowerCase (LintPlugins.normalizeExtension ext)
       = LintPlugins.normalizeExtension ext
    /\ LintPlugins.trim (LintPlugins.normalizeExtension ext)
       = LintPlugins.normalizeExtension ext
    /\ (LintPlugins.normalizeExtension ext = EmptyString
        \/ JsString.startsWith (LintPlugins.normalizeExtension ext) "."
           = true).
Proof.
  intros ext.
  pose proof (ExtensionFacts.normalizeExtension_Normal ext) as N.
  split; [now apply ExtensionFacts.Normal_fixed|].
  destruct N as (T & L & D).
  split; [exact L|]. split; [now apply ExtensionFacts.Trimmed_trim|].
  exact D.
Qed.

Section HintExtras.

Context {X : Externals}.

(** X19. A plugin with at least one hint that is not blank runs on a file
    exactly when the extension of the file is one of its hints, up to case,
    white space at the ends and the leading dot; it does not run on a file
    without extension. *)
Theorem hints_match_up_to_case_space_and_dot :
  forall (plugin : LintPlugins.LinterPlugin) (filePath : string)
         (hints : list string),
    LintPlugins.lintExtensions plugin = Some hints ->
    (exists hint, In hint hints
                  /\ LintPlugins.normalizeExtension hint <> EmptyString) ->
    (LintPlugins.shouldRunLintPluginForFile plugin filePath = true
     <-> LintPlugins.normalizeExtension (extname filePath) <> EmptyString
         /\ exists hint,
             In hint hints
             /\ LintPlugins.normalizeExtension hint
                = LintPlugins.normalizeExtension (extname filePath)).
Proof.
  intros plugin filePath hints H (h0 & Hin0 & N0).
  unfold LintPlugins.shouldRunLintPluginForFile. rewrite H.
  destruct hints as [|h hints]; [contradiction|].
  set (ext := LintPlugins.normalizeExtension (extname filePath)).
  set (normalized := filter JsString.truthy
                            (map LintPlugins.normalizeExtension
                                 (h :: hints))).
  assert (M : forall x, In x normalized
                        <-> x <> EmptyString
                            /\ exists hint,
                                In hint (h :: hints)
                                /\ LintPlugins.normalizeExtension hint = x).
  { intros x. unfold normalized.
    rewrite filter_In, in_map_iff, ExtensionFacts.truthy_iff.
    split.
    - intros [(y & A1 & A2) B]. split; [exact B | now exists y].
    - intros [B (y & A1 & A2)]. split; [now exists y | exact B]. }
  destruct (JsString.truthy ext) eqn:T; simpl.
  - apply ExtensionFacts.truthy_iff in T.
    destruct normalized as [|n ns] eqn:E.
    + assert (F : In (LintPlugins.normalizeExtension h0) []).
      { apply M. split; [exact N0 | now exists h0]. }
      contradiction.
    + rewrite LinterFacts.includes_In, M. split.
      * intros [_ (hint & A & B)]. split; [exact T | now exists hint].
      * intros [_ (hint & A & B)]. split; [exact T | now exists hint].
  - split; [discriminate|]. intros [A _].
    apply ExtensionFacts.truthy_iff in A. congruence.
Qed.

End HintExtras.

(** ** The lint pipelines *)

Module LintFacts.

Import LintPlugins LintEffects.

Section WithIssues.

Variable Issue : Type.

Lemma lint_always_mono {A} (p : Prog Issue A) :
  forall (Q Q' : list (Event Issue) -> Outcome A -> Prop),
    (forall t o, Q t o -> Q' t o) -> always p Q -> always p Q'.
Proof.
  induction p as [a | e | c k IH]; intros Q Q' HQ H; simpl in *; auto.
  intros r. eapply IH; [|apply H]. intros t o. apply HQ.
Qed.

(** What holds of every run holds of the run against any handler. *)
Lemma lint_always_run {A} (p : Prog Issue A) :
  forall (Q : list (Event Issue) -> Outcome A -> Prop),
    always p Q ->
    forall St (handle : forall c : Cmd Issue, St -> Resp c * St) (s : St),
      Q (traceOf handle p s) (outcomeOf handle p s).
Proof.
  unfold traceOf, outcomeOf.
  induction p as [a | e | c k IH]; intros Q H St handle s; simpl in *; auto.
  destruct (handle c s) as [r s1].
  specialize (IH r _ (H r) St handle s1).
  destruct (run handle (k r) s1) as [[t o] s2]. exact IH.
Qed.

(** *** What a trace of [runLintOnLoadPipeline] shows *)

(** The code a [lintOnLoad] hook returned, when it returned a string. *)
Definition replaced (ev : Event Issue) : option string :=
  match ev with
  | Ev c r =>
      match c return Resp c -> option string with
      | LintOnLoad _ _ _ =>
          fun o => match o with
                   | Returned (JStr s) => Some s
                   | _ => None
                   end
      | _ => fun _ => None
      end r
  end.

(** A [lintOnLoad] hook that returned [null]. *)
Definition answeredNull (ev : Event Issue) : bool :=
  match ev with
  | Ev c r =>
      match c return Resp c -> bool with
      | LintOnLoad _ _ _ =>
          fun o => match o with Returned JNull => true | _ => false end
      | _ => fun _ => false
      end r
  end.

(** The code after the calls of [t]: each string a hook returned replaces
    it. *)
Definition codeAfter (t : list (Event Issue)) (code : string) : string :=
  fold_left (fun code ev => match replaced ev with
                            | Some code' => code'
                            | None => code
                            end) t code.

(** The value a call threw, if it threw. *)
Definition thrownBy (ev : Event Issue) : option Thrown :=
  match ev with
  | Ev c r =>
      let ofOutcome {A} (o : Outcome A) : option Thrown :=
        match o with Threw e => Some e | Returned _ => None end in
      match c return Resp c -> option Thrown with
      | LintSetup _ _ => ofOutcome
      | LintOnLoad _ _ _ => ofOutcome
      | LintOnResult _ _ _ => ofOutcome
      | EmitError _ => ofOutcome
      end r
  end.

Definition isHook (ev : Event Issue) : bool :=
  match cmdOf ev with
  | EmitError _ => false
  | _ => true
  end.

(** The plugins whose hooks were called, in order. *)
Definition hooksCalled (t : list (Event Issue)) : list LinterPlugin :=
  flat_map (fun ev => match cmdOf ev with
                      | LintSetup plugin _ => [plugin]
                      | LintOnLoad plugin _ _ => [plugin]
                      | LintOnResult plugin _ _ => [plugin]
                      | EmitError _ => []
                      end) t.

(** The issues a [lintOnResult] hook returned, when it returned an
    array. *)
Definition reissued (ev : Event Issue) : option (list Issue) :=
  match ev with
  | Ev c r =>
      match c return Resp c -> option (list Issue) with
      | LintOnResult _ _ _ =>
          fun o => match o with
                   | Returned (Some issues) => Some issues
                   | _ => None
                   end
      | _ => fun _ => None
      end r
  end.

(** The issues after the calls of [t]: each array a hook returned replaces
    them. *)
Definition issuesAfter (t : list (Event Issue)) (issues : list Issue)
  : list Issue :=
  fold_left (fun issues ev => match reissued ev with
                              | Some issues' => issues'
                              | None => issues
                              end) t issues.

Section Pipelines.

Context {X : Externals}.

Variable capturedStack : string -> option string.

Variable filePath : string.

(** The plugin takes part in the pipeline of [lintOnLoad]. *)
Definition loads (plugin : LinterPlugin) : bool :=
  shouldRunLintPluginForFile plugin filePath && has_lintOnLoad plugin.

Definition codeFrom (v : JsVal) (code : string) : string :=
  match v with JStr s => s | _ => code end.

Definition loading (plugin : LinterPlugin) (code : string)
           (r : Outcome JsVal) : Event Issue :=
  @Ev Issue (LintOnLoad plugin code filePath) r.

Definition emitting (e : Thrown) (r : Outcome unit) : Event Issue :=
  @Ev Issue (EmitError (Linter.wrapError capturedStack e)) r.

(** The runs of [runLintOnLoadPipeline] over [plugins] from [code]. *)
Inductive LoadRun
  : list LinterPlugin -> string -> list (Event Issue) -> Outcome (option string)
    -> Prop :=
| LoadRun_done code :
    LoadRun [] code [] (Returned (Some code))
| LoadRun_skip plugin rest code t o :
    loads plugin = false ->
    LoadRun rest code t o ->
    LoadRun (plugin :: rest) code t o
| LoadRun_null plugin rest code :
    loads plugin = true ->
    LoadRun (plugin :: rest) code
            [loading plugin code (Returned JNull)] (Returned None)
| LoadRun_next plugin rest code v t o :
    loads plugin = true ->
    v <> JNull ->
    LoadRun rest (codeFrom v code) t o ->
    LoadRun (plugin :: rest) code (loading plugin code (Returned v) :: t) o
| LoadRun_failed plugin rest code e t o :
    loads plugin = true ->
    LoadRun rest code t o ->
    LoadRun (plugin :: rest) code
            (loading plugin code (Threw e)
               :: emitting e (Returned tt) :: t) o
| LoadRun_rejected plugin rest code e e' :
    loads plugin = true ->
    LoadRun (plugin :: rest) code
            [loading plugin code (Threw e); emitting e (Threw e')]
            (Threw e').

Lemma runLintOnLoadPipeline_LoadRun (plugins : list LinterPlugin) :
  forall code,
    always (runLintOnLoadPipeline Issue capturedStack code filePath
                                  plugins)
           (LoadRun plugins code).
Proof.
  induction plugins as [|plugin rest IH]; intros code; simpl.
  - constructor.
  - destruct (shouldRunLintPluginForFile plugin filePath) eqn:S; simpl.
    2:{ eapply lint_always_mono; [|apply IH]. intros t o H.
        apply LoadRun_skip; auto. unfold loads. now rewrite S. }
    unfold onLoadTurn.
    destruct (has_lintOnLoad plugin) eqn:H; simpl.
    2:{ eapply lint_always_mono; [|apply IH]. intros t o K.
        apply LoadRun_skip; auto. unfold loads. now rewrite S, H. }
    assert (L : loads plugin = true) by (unfold loads; now rewrite S, H).
    intros [v|e]; simpl.
    + destruct v; simpl;
        try (eapply lint_always_mono; [|apply IH]; intros t o K;
             apply (@LoadRun_next plugin rest code _ t o L);
             [discriminate | exact K]).
      now apply LoadRun_null.
    + intros [[]|e']; simpl.
      * eapply lint_always_mono; [|apply IH]. intros t o K.
        now apply LoadRun_failed.
      * now apply LoadRun_rejected.
Qed.

Lemma codeAfter_cons (ev : Event Issue) (t : list (Event Issue)) (code : string) :
  codeAfter (ev :: t) code
  = codeAfter t (match replaced ev with Some c => c | None => code end).
Proof. reflexivity. Qed.

Lemma codeAfter_app (a b : list (Event Issue)) (code : string) :
  codeAfter (a ++ b)%list code = codeAfter b (codeAfter a code).
Proof. apply fold_left_app. Qed.

Lemma replaced_loading (plugin : LinterPlugin) (code : string) (v : JsVal) :
  match replaced (loading plugin code (Returned v)) with
  | Some c => c
  | None => code
  end = codeFrom v code.
Proof. destruct v; reflexivity. Qed.

(** What a hook is given. *)
Definition Threaded (plugins : list LinterPlugin) (code : string)
           (t : list (Event Issue)) : Prop :=
  forall pre ev post plugin c f,
    t = (pre ++ ev :: post)%list ->
    cmdOf ev = LintOnLoad plugin c f ->
    f = filePath /\ c = codeAfter pre code
    /\ In plugin plugins /\ loads plugin = true.

Lemma LoadRun_Threaded plugins code t o :
  LoadRun plugins code t o -> Threaded plugins code t.
Proof.
  induction 1 as [code | plugin rest code t o L R IH | plugin rest code L
                  | plugin rest code v t o L N R IH
                  | plugin rest code e t o L R IH
                  | plugin rest code e e' L];
    intros pre ev post p c f E C.
  - destruct pre; discriminate E.
  - destruct (IH pre ev post p c f E C) as (A & B & D & F).
    repeat split; auto. now right.
  - destruct pre as [|x pre]; simpl in E; inversion E; subst;
      [|destruct pre; discriminate].
    simpl in C. inversion C; subst. repeat split; auto. now left.
  - destruct pre as [|x pre]; simpl in E; inversion E; subst.
    + simpl in C. inversion C; subst. repeat split; auto. now left.
    + destruct (IH pre ev post p c f eq_refl C) as (A & B & D & F).
      repeat split; auto; [|now right].
      rewrite codeAfter_cons, replaced_loading. exact B.
  - destruct pre as [|x pre]; simpl in E; inversion E; subst.
    + simpl in C. inversion C; subst. repeat split; auto. now left.
    + destruct pre as [|y pre]; simpl in H1; inversion H1; subst.
      * discriminate C.
      * destruct (IH pre ev post p c f eq_refl C) as (A & B & D & F).
        repeat split; auto. now right.
  - destruct pre as [|x pre]; simpl in E; inversion E; subst.
    + simpl in C. inversion C; subst. repeat split; auto. now left.
    + destruct pre as [|y pre]; simpl in H1; inversion H1; subst.
      * discriminate C.
      * destruct pre; discriminate.
Qed.

(** How the pipeline ends. *)
Definition Ended (code : string) (t : list (Event Issue))
           (o : Outcome (option string)) : Prop :=
  match o with
  | Returned (Some final) =>
      final = codeAfter t code /\ existsb answeredNull t = false
  | Returned None =>
      exists pre plugin c,
        t = (pre ++ [loading plugin c (Returned JNull)])%list
  | Threw e' =>
      exists pre e, t = (pre ++ [emitting e (Threw e')])%list
  end.

Lemma answeredNull_loading plugin code v :
  v <> JNull -> answeredNull (loading plugin code (Returned v)) = false.
Proof. destruct v; simpl; congruence. Qed.

Lemma LoadRun_Ended plugins code t o :
  LoadRun plugins code t o -> Ended code t o.
Proof.
  induction 1 as [code | plugin rest code t o L R IH | plugin rest code L
                  | plugin rest code v t o L N R IH
                  | plugin rest code e t o L R IH
                  | plugin rest code e e' L].
  - simpl. auto.
  - exact IH.
  - exists [], plugin, code. reflexivity.
  - destruct o as [[final|]|e']; unfold Ended in *.
    + destruct IH as [-> IH]. split.
      * now rewrite codeAfter_cons, replaced_loading.
      * change (answeredNull (loading plugin code (Returned v))
                || existsb answeredNull t = false).
        now rewrite (answeredNull_loading _ _ N), IH.
    + destruct IH as (pre & p & c & ->).
      exists (loading plugin code (Returned v) :: pre), p, c. reflexivity.
    + destruct IH as (pre & e0 & ->).
      exists (loading plugin code (Returned v) :: pre), e0. reflexivity.
  - destruct o as [[final|]|e']; simpl in *.
    + exact IH.
    + destruct IH as (pre & p & c & ->).
      exists (loading plugin code (Threw e)
                :: emitting e (Returned tt) :: pre), p, c.
      reflexivity.
    + destruct IH as (pre & e0 & ->).
      exists (loading plugin code (Threw e)
                :: emitting e (Returned tt) :: pre), e0.
      reflexivity.
  - exists [loading plugin code (Threw e)], e. reflexivity.
Qed.

(** An error is emitted right after the hook that threw it, wrapped; and a
    hook that threw is followed by that. *)
Definition Reported (t : list (Event Issue)) : Prop :=
  (forall pre ev post err,
      t = (pre ++ ev :: post)%list ->
      cmdOf ev = EmitError err ->
      exists before hook e,
        pre = (before ++ [hook])%list
        /\ isHook hook = true
        /\ thrownBy hook = Some e
        /\ err = Linter.wrapError capturedStack e)
  /\ (forall pre ev post e,
         t = (pre ++ ev :: post)%list ->
         isHook ev = true ->
         thrownBy ev = Some e ->
         exists r rest, post = emitting e r :: rest).

Lemma Reported_nil : Reported [].
Proof.
  split; intros pre ev post ? E; destruct pre; discriminate E.
Qed.

(** A hook that returned, before a trace. *)
Lemma Reported_returned (ev : Event Issue) (t : list (Event Issue)) :
  isHook ev = true -> thrownBy ev = None ->
  Reported t -> Reported (ev :: t).
Proof.
  intros H N [R1 R2]. split.
  - intros pre x post err E C.
    destruct pre as [|y pre]; simpl in E; inversion E; subst.
    + unfold isHook in H. rewrite C in H. discriminate H.
    + destruct (R1 pre x post err eq_refl C) as (b & h & e & -> & K).
      exists (y :: b), h, e. split; [reflexivity | exact K].
  - intros pre x post e E Hx Tx.
    destruct pre as [|y pre]; simpl in E; inversion E; subst.
    + congruence.
    + exact (R2 pre x post e eq_refl Hx Tx).
Qed.

(** A hook that threw and the report of it, before a trace. *)
Lemma Reported_threw (ev : Event Issue) (e : Thrown) (r : Outcome unit)
      (t : list (Event Issue)) :
  isHook ev = true -> thrownBy ev = Some e ->
  Reported t -> Reported (ev :: emitting e r :: t).
Proof.
  intros H N [R1 R2]. split.
  - intros pre x post err E C.
    destruct pre as [|y pre]; simpl in E; inversion E; subst.
    { unfold isHook in H. rewrite C in H. discriminate H. }
    destruct pre as [|z pre]; simpl in H2; inversion H2; subst.
    { exists [], y, e. simpl in C. inversion C. auto. }
    destruct (R1 pre x post err eq_refl C) as (b & h & e0 & -> & K).
    exists (y :: emitting e r :: b), h, e0.
    split; [reflexivity | exact K].
  - intros pre x post e0 E Hx Tx.
    destruct pre as [|y pre]; simpl in E; inversion E; subst.
    { assert (e0 = e) by congruence. subst. eauto. }
    destruct pre as [|z pre]; simpl in H2; inversion H2; subst.
    { discriminate Hx. }
    exact (R2 pre x post e0 eq_refl Hx Tx).
Qed.

Lemma LoadRun_Reported plugins code t o :
  LoadRun plugins code t o -> Reported t.
Proof.
  induction 1 as [code | plugin rest code t o L R IH | plugin rest code L
                  | plugin rest code v t o L N R IH
                  | plugin rest code e t o L R IH
                  | plugin rest code e e' L].
  - apply Reported_nil.
  - exact IH.
  - apply Reported_returned; auto. apply Reported_nil.
  - apply Reported_returned; auto.
  - apply Reported_threw; auto.
  - apply Reported_threw; auto. apply Reported_nil.
Qed.

(** The hooks called are those of the plugins that take part, in the order
    of the plugins, up to the point where the pipeline stopped. *)
Lemma LoadRun_order plugins code t o :
  LoadRun plugins code t o ->
  (exists rest, filter loads plugins = (hooksCalled t ++ rest)%list)
  /\ (forall final, o = Returned (Some final) ->
                    hooksCalled t = filter loads plugins).
Proof.
  induction 1 as [code | plugin rest code t o L R IH | plugin rest code L
                  | plugin rest code v t o L N R IH
                  | plugin rest code e t o L R IH
                  | plugin rest code e e' L];
    simpl; rewrite ?L.
  - split; [now exists [] | reflexivity].
  - exact IH.
  - split; [now exists (filter loads rest) | discriminate].
  - destruct IH as [(more & E) IH]. split.
    + exists more. now rewrite E.
    + intros final F. now rewrite (IH final F).
  - destruct IH as [(more & E) IH]. split.
    + exists more. now rewrite E.
    + intros final F. now rewrite (IH final F).
  - split; [now exists (filter loads rest) | discriminate].
Qed.

(** *** [runLintOnResultPipeline] *)

(** The plugin takes part in the pipeline of [lintOnResult]. *)
Definition posts (plugin : LinterPlugin) : bool :=
  shouldRunLintPluginForFile plugin filePath && has_lintOnResult plugin.

Definition issuesFrom (r : option (list Issue)) (issues : list Issue)
  : list Issue :=
  match r with Some l => l | None => issues end.

Definition posting (plugin : LinterPlugin) (issues : list Issue)
           (r : Outcome (option (list Issue))) : Event Issue :=
  Ev (LintOnResult plugin filePath issues) r.

(** The runs of [runLintOnResultPipeline] over [plugins] from [issues]. *)
Inductive ResultRun
  : list LinterPlugin -> list Issue -> list (Event Issue)
    -> Outcome (list Issue) -> Prop :=
| ResultRun_done issues :
    ResultRun [] issues [] (Returned issues)
| ResultRun_skip plugin rest issues t o :
    posts plugin = false ->
    ResultRun rest issues t o ->
    ResultRun (plugin :: rest) issues t o
| ResultRun_next plugin rest issues r t o :
    posts plugin = true ->
    ResultRun rest (issuesFrom r issues) t o ->
    ResultRun (plugin :: rest) issues
              (posting plugin issues (Returned r) :: t) o
| ResultRun_failed plugin rest issues e t o :
    posts plugin = true ->
    ResultRun rest issues t o ->
    ResultRun (plugin :: rest) issues
              (posting plugin issues (Threw e)
                 :: emitting e (Returned tt) :: t) o
| ResultRun_rejected plugin rest issues e e' :
    posts plugin = true ->
    ResultRun (plugin :: rest) issues
              [posting plugin issues (Threw e); emitting e (Threw e')]
              (Threw e').

Lemma runLintOnResultPipeline_ResultRun (plugins : list LinterPlugin) :
  forall issues,
    always (runLintOnResultPipeline capturedStack filePath issues plugins)
           (ResultRun plugins issues).
Proof.
  induction plugins as [|plugin rest IH]; intros issues; simpl.
  - constructor.
  - destruct (shouldRunLintPluginForFile plugin filePath) eqn:S; simpl.
    2:{ eapply lint_always_mono; [|apply IH]. intros t o H.
        apply ResultRun_skip; auto. unfold posts. now rewrite S. }
    destruct (has_lintOnResult plugin) eqn:H; simpl.
    2:{ eapply lint_always_mono; [|apply IH]. intros t o K.
        apply ResultRun_skip; auto. unfold posts. now rewrite S, H. }
    assert (L : posts plugin = true) by (unfold posts; now rewrite S, H).
    intros [r|e]; simpl.
    + destruct r; simpl; (eapply lint_always_mono; [|apply IH]); intros t o K;
        now apply (@ResultRun_next plugin rest issues _ t o L).
    + intros [[]|e']; simpl.
      * eapply lint_always_mono; [|apply IH]. intros t o K.
        now apply ResultRun_failed.
      * now apply ResultRun_rejected.
Qed.

Lemma issuesAfter_cons (ev : Event Issue) (t : list (Event Issue))
      (issues : list Issue) :
  issuesAfter (ev :: t) issues
  = issuesAfter t (match reissued ev with
                   | Some l => l
                   | None => issues
                   end).
Proof. reflexivity. Qed.

Lemma reissued_posting (plugin : LinterPlugin) (issues : list Issue)
      (r : option (list Issue)) :
  match reissued (posting plugin issues (Returned r)) with
  | Some l => l
  | None => issues
  end = issuesFrom r issues.
Proof. destruct r; reflexivity. Qed.

(** What a [lintOnResult] hook is given. *)
Definition Handed (plugins : list LinterPlugin) (issues : list Issue)
           (t : list (Event Issue)) : Prop :=
  forall pre ev post plugin f given,
    t = (pre ++ ev :: post)%list ->
    cmdOf ev = LintOnResult plugin f given ->
    f = filePath /\ given = issuesAfter pre issues
    /\ In plugin plugins /\ posts plugin = true.

Lemma ResultRun_Handed plugins issues t o :
  ResultRun plugins issues t o -> Handed plugins issues t.
Proof.
  induction 1 as [issues | plugin rest issues t o L R IH
                  | plugin rest issues r t o L R IH
                  | plugin rest issues e t o L R IH
                  | plugin rest issues e e' L];
    intros pre ev post p f given E C.
  - destruct pre; discriminate E.
  - destruct (IH pre ev post p f given E C) as (A & B & D & F).
    repeat split; auto. now right.
  - destruct pre as [|x pre]; simpl in E; inversion E; subst.
    + simpl in C. inversion C; subst. repeat split; auto. now left.
    + destruct (IH pre ev post p f given eq_refl C) as (A & B & D & F).
      repeat split; auto; [|now right].
      rewrite issuesAfter_cons, reissued_posting. exact B.
  - destruct pre as [|x pre]; simpl in E; inversion E; subst.
    + simpl in C. inversion C; subst. repeat split; auto. now left.
    + destruct pre as [|y pre]; simpl in H1; inversion H1; subst.
      * discriminate C.
      * destruct (IH pre ev post p f given eq_refl C) as (A & B & D & F).
        repeat split; auto. now right.
  - destruct pre as [|x pre]; simpl in E; inversion E; subst.
    + simpl in C. inversion C; subst. repeat split; auto. now left.
    + destruct pre as [|y pre]; simpl in H1; inversion H1; subst.
      * discriminate C.
      * destruct pre; discriminate.
Qed.

(** How the pipeline of [lintOnResult] ends, and in which order it calls
    the hooks. *)
Definition Settled (plugins : list LinterPlugin) (issues : list Issue)
           (t : list (Event Issue)) (o : Outcome (list Issue)) : Prop :=
  (exists rest, filter posts plugins = (hooksCalled t ++ rest)%list)
  /\ match o with
     | Returned final =>
         final = issuesAfter t issues
         /\ hooksCalled t = filter posts plugins
     | Threw e' =>
         exists pre e, t = (pre ++ [emitting e (Threw e')])%list
     end.

Lemma ResultRun_Settled plugins issues t o :
  ResultRun plugins issues t o -> Settled plugins issues t o.
Proof.
  induction 1 as [issues | plugin rest issues t o L R IH
                  | plugin rest issues r t o L R IH
                  | plugin rest issues e t o L R IH
                  | plugin rest issues e e' L];
    unfold Settled in *; simpl filter; rewrite ?L.
  - split; [now exists [] | split; reflexivity].
  - exact IH.
  - destruct IH as [(more & E) IH].
    split; [exists more; simpl; now rewrite E|].
    destruct o as [final|e'].
    + destruct IH as [-> IH]. split.
      * now rewrite issuesAfter_cons, reissued_posting.
      * simpl. now rewrite IH.
    + destruct IH as (pre & e0 & ->).
      exists (posting plugin issues (Returned r) :: pre), e0. reflexivity.
  - destruct IH as [(more & E) IH].
    split; [exists more; simpl; now rewrite E|].
    destruct o as [final|e'].
    + destruct IH as [-> IH]. split; [reflexivity|].
      simpl. now rewrite IH.
    + destruct IH as (pre & e0 & ->).
      exists (posting plugin issues (Threw e)
                :: emitting e (Returned tt) :: pre), e0.
      reflexivity.
  - split; [now exists (filter posts rest)|].
    exists [posting plugin issues (Threw e)], e. reflexivity.
Qed.

Lemma ResultRun_Reported plugins issues t o :
  ResultRun plugins issues t o -> Reported t.
Proof.
  induction 1 as [issues | plugin rest issues t o L R IH
                  | plugin rest issues r t o L R IH
                  | plugin rest issues e t o L R IH
                  | plugin rest issues e e' L].
  - apply Reported_nil.
  - exact IH.
  - apply Reported_returned; auto.
  - apply Reported_threw; auto.
  - apply Reported_threw; auto. apply Reported_nil.
Qed.

End Pipelines.

(** *** [initializeLintPlugins] *)

Section Setup.

Variable capturedStack : string -> option string.

Variable context : LintPluginContext.

(** The runs of [initializeLintPlugins] over [plugins]. *)
Inductive SetupRun
  : list LinterPlugin -> list (Event Issue) -> Outcome unit -> Prop :=
| SetupRun_done :
    SetupRun [] [] (Returned tt)
| SetupRun_skip plugin rest t o :
    has_lintSetup plugin = false ->
    SetupRun rest t o ->
    SetupRun (plugin :: rest) t o
| SetupRun_next plugin rest t o :
    has_lintSetup plugin = true ->
    SetupRun rest t o ->
    SetupRun (plugin :: rest)
             (Ev (LintSetup plugin context) (Returned tt) :: t) o
| SetupRun_failed plugin rest e t o :
    has_lintSetup plugin = true ->
    SetupRun rest t o ->
    SetupRun (plugin :: rest)
             (Ev (LintSetup plugin context) (Threw e)
                 :: emitting capturedStack e (Returned tt) :: t) o
| SetupRun_rejected plugin rest e e' :
    has_lintSetup plugin = true ->
    SetupRun (plugin :: rest)
             [Ev (LintSetup plugin context) (Threw e);
              emitting capturedStack e (Threw e')]
             (Threw e').

Lemma initializeLintPlugins_SetupRun (plugins : list LinterPlugin) :
  always (initializeLintPlugins Issue capturedStack plugins context)
         (SetupRun plugins).
Proof.
  induction plugins as [|plugin rest IH]; simpl.
  - constructor.
  - destruct (has_lintSetup plugin) eqn:H; simpl.
    2:{ eapply lint_always_mono; [|apply IH]. intros t o K.
        now apply SetupRun_skip. }
    intros [[]|e]; simpl.
    + eapply lint_always_mono; [|apply IH]. intros t o K.
      now apply SetupRun_next.
    + intros [[]|e']; simpl.
      * eapply lint_always_mono; [|apply IH]. intros t o K.
        now apply SetupRun_failed.
      * now apply SetupRun_rejected.
Qed.

(** Every plugin that has the hook is set up, in order, whether or not an
    earlier one threw; only [emit] makes the whole reject. *)
Definition AllSetUp (plugins : list LinterPlugin) (t : list (Event Issue))
           (o : Outcome unit) : Prop :=
  (exists rest,
      filter has_lintSetup plugins = (hooksCalled t ++ rest)%list)
  /\ (forall ev plugin c,
         In ev t -> cmdOf ev = LintSetup plugin c -> c = context)
  /\ match o with
     | Returned _ => hooksCalled t = filter has_lintSetup plugins
     | Threw e' =>
         exists pre e,
           t = (pre ++ [emitting capturedStack e (Threw e')])%list
     end.

Lemma SetupRun_AllSetUp plugins t o :
  SetupRun plugins t o -> AllSetUp plugins t o.
Proof.
  induction 1 as [| plugin rest t o L R IH | plugin rest t o L R IH
                  | plugin rest e t o L R IH | plugin rest e e' L];
    unfold AllSetUp in *; simpl filter; rewrite ?L.
  - split; [now exists []|]. split; [intros ev p c []|reflexivity].
  - exact IH.
  - destruct IH as ((more & M) & C & IH).
    split; [exists more; simpl; now rewrite M|].
    split.
    + intros ev p c [<-|Hin] E; [now inversion E | eauto].
    + destruct o as [[]|e'].
      * simpl. now rewrite IH.
      * destruct IH as (pre & e0 & ->).
        exists (Ev (LintSetup plugin context) (Returned tt) :: pre), e0.
        reflexivity.
  - destruct IH as ((more & M) & C & IH).
    split; [exists more; simpl; now rewrite M|].
    split.
    + intros ev p c [<-|[<-|Hin]] E;
        [now inversion E | discriminate E | eauto].
    + destruct o as [[]|e'].
      * simpl. now rewrite IH.
      * destruct IH as (pre & e0 & ->).
        exists (Ev (LintSetup plugin context) (Threw e)
                   :: emitting capturedStack e (Returned tt) :: pre), e0.
        reflexivity.
  - split; [now exists (filter has_lintSetup rest)|]. split.
    + intros ev p c [<-|[<-|[]]] E; [now inversion E | discriminate E].
    + exists [Ev (LintSetup plugin context) (Threw e)], e. reflexivity.
Qed.

Lemma SetupRun_Reported plugins t o :
  SetupRun plugins t o -> Reported capturedStack t.
Proof.
  induction 1 as [| plugin rest t o L R IH | plugin rest t o L R IH
                  | plugin rest e t o L R IH | plugin rest e e' L].
  - apply Reported_nil.
  - exact IH.
  - apply Reported_returned; auto.
  - apply Reported_threw; auto.
  - apply Reported_threw; auto. apply Reported_nil.
Qed.

End Setup.

End WithIssues.

End LintFacts.

(** ** The lint pipelines, against any world *)

(** Extension hints on the file of the tests: [TSX] stands for [.tsx]. *)
Lemma hints_match_up_to_case_space_and_dot_witness :
  @LintPlugins.shouldRunLintPluginForFile
    Demo.externals
    (LintPlugins.mkLinterPlugin "tsx-extension-without-dot"
                                (Some [" TSX"]) false true false)
    "/src/App.tsx"
  = true.
Proof.
  refine (proj2 (@hints_match_up_to_case_space_and_dot
                   Demo.externals
                   (LintPlugins.mkLinterPlugin
                      "tsx-extension-without-dot" (Some [" TSX"])
                      false true false)
                   "/src/App.tsx" [" TSX"] eq_refl
                   (ex_intro _ " TSX" (conj (or_introl eq_refl) _)))
                (conj _ (ex_intro _ " TSX"
                                  (conj (or_introl eq_refl) eq_refl)))).
  - intros H. vm_compute in H. discriminate H.
  - intros H. vm_compute in H. discriminate H.
Defined.

Section LintExtras.

Import LintPlugins LintEffects LintFacts.

Context {X : Externals}.

Variables (Issue : Type) (capturedStack : string -> option string)
          (St : Type) (handle : forall c : Cmd Issue, St -> Resp c * St).

(** X20. In [runLintOnLoadPipeline] one source text is handed from hook to
    hook. A [lintOnLoad] hook is called for the file of the pipeline, with the
    initial code as replaced by the strings that earlier hooks returned; a
    hook that threw or returned something else than a string replaces nothing.
    Only plugins that have the hook and whose extension hints admit the file
    are called. The pipeline returns that text when no hook returned [null];
    it returns [null] right after the first hook that does; and it rejects
    only when [emit] throws. *)
Theorem lint_onLoad_threads_the_code :
  forall (s : St) (initialCode filePath : string)
         (plugins : list LinterPlugin),
    let p := runLintOnLoadPipeline Issue capturedStack initialCode
                                   filePath plugins in
    let t := traceOf handle p s in
    (forall pre ev post plugin code f,
        t = (pre ++ ev :: post)%list ->
        cmdOf ev = LintOnLoad plugin code f ->
        f = filePath
        /\ code = codeAfter pre initialCode
        /\ In plugin plugins
        /\ shouldRunLintPluginForFile plugin filePath
           && has_lintOnLoad plugin = true)
    /\ match outcomeOf handle p s with
       | Returned (Some final) =>
           final = codeAfter t initialCode
           /\ existsb (@answeredNull Issue) t = false
       | Returned None =>
           exists pre plugin code,
             t = (pre ++ [Ev (LintOnLoad plugin code filePath)
                             (Returned JNull)])%list
       | Threw e' =>
           exists pre e,
             t = (pre ++ [Ev (EmitError
                                (Linter.wrapError capturedStack e))
                             (Threw e')])%list
       end.
Proof.
  intros s initialCode filePath plugins p t.
  pose proof (@lint_always_run
                _ _ _ _
                (@runLintOnLoadPipeline_LoadRun
                   Issue X capturedStack filePath plugins initialCode)
                St handle s) as R.
  split.
  - exact (LoadRun_Threaded R).
  - exact (LoadRun_Ended R).
Qed.

(** X21. A [lintOnLoad] hook that throws does not stop the pipeline. The hooks
    are called in the order of the plugin list, one call for an entry of the
    list, and all of them when the pipeline returns code. The call right after
    a hook that threw is [emit('error', ...)] with the wrapped error, and
    [emit] is called for nothing else. *)
Theorem lint_onLoad_outlives_failing_hooks :
  forall (s : St) (initialCode filePath : string)
         (plugins : list LinterPlugin),
    let p := runLintOnLoadPipeline Issue capturedStack initialCode
                                   filePath plugins in
    let t := traceOf handle p s in
    let taking :=
      filter (fun plugin => shouldRunLintPluginForFile plugin filePath
                            && has_lintOnLoad plugin) plugins in
    (exists rest, taking = (hooksCalled t ++ rest)%list)
    /\ (forall final, outcomeOf handle p s = Returned (Some final) ->
                      hooksCalled t = taking)
    /\ (forall pre ev post err,
           t = (pre ++ ev :: post)%list ->
           cmdOf ev = EmitError err ->
           exists before hook e,
             pre = (before ++ [hook])%list
             /\ isHook hook = true
             /\ thrownBy hook = Some e
             /\ err = Linter.wrapError capturedStack e)
    /\ (forall pre ev post e,
           t = (pre ++ ev :: post)%list ->
           isHook ev = true ->
           thrownBy ev = Some e ->
           exists r rest,
             post = Ev (EmitError (Linter.wrapError capturedStack e)) r
                       :: rest).
Proof.
  intros s initialCode filePath plugins p t taking.
  pose proof (@lint_always_run
                _ _ _ _
                (@runLintOnLoadPipeline_LoadRun
                   Issue X capturedStack filePath plugins initialCode)
                St handle s) as R.
  destruct (LoadRun_order R) as [O1 O2].
  destruct (LoadRun_Reported R) as [R1 R2].
  auto.
Qed.

(** X22. In [runLintOnResultPipeline] the issues are handed from hook to hook.
    A [lintOnResult] hook is called for the file of the pipeline with the
    initial issues as replaced by the arrays that earlier hooks returned; a
    hook that threw or returned no array replaces nothing. The hooks are
    called in the order of the plugins, and all of them when the pipeline
    returns; it returns the issues as the last array left them, and it rejects
    only when [emit] throws. *)
Theorem lint_onResult_threads_the_issues :
  forall (s : St) (filePath : string) (initialIssues : list Issue)
         (plugins : list LinterPlugin),
    let p := runLintOnResultPipeline capturedStack filePath initialIssues
                                     plugins in
    let t := traceOf handle p s in
    let taking :=
      filter (fun plugin => shouldRunLintPluginForFile plugin filePath
                            && has_lintOnResult plugin) plugins in
    (forall pre ev post plugin f given,
        t = (pre ++ ev :: post)%list ->
        cmdOf ev = LintOnResult plugin f given ->
        f = filePath
        /\ given = issuesAfter pre initialIssues
        /\ In plugin plugins
        /\ shouldRunLintPluginForFile plugin filePath
           && has_lintOnResult plugin = true)
    /\ (exists rest, taking = (hooksCalled t ++ rest)%list)
    /\ match outcomeOf handle p s with
       | Returned final =>
           final = issuesAfter t initialIssues
           /\ hooksCalled t = taking
       | Threw e' =>
           exists pre e,
             t = (pre ++ [Ev (EmitError
                                (Linter.wrapError capturedStack e))
                             (Threw e')])%list
       end.
Proof.
  intros s filePath initialIssues plugins p t taking.
  pose proof (@lint_always_run
                _ _ _ _
                (@runLintOnResultPipeline_ResultRun
                   Issue X capturedStack filePath plugins initialIssues)
                St handle s) as R.
  split.
  - exact (ResultRun_Handed R).
  - exact (ResultRun_Settled R).
Qed.

(** X23. [initializeLintPlugins] sets up every plugin that has a [lintSetup]
    hook, in the order of the plugins and with the context it was given,
    whether or not an earlier hook threw: when it returns, all of them were
    called. The call right after a hook that threw is [emit('error', ...)]
    with the wrapped error; it rejects only when [emit] throws. *)
Theorem lint_setup_reaches_every_plugin :
  forall (s : St) (plugins : list LinterPlugin)
         (context : LintPluginContext),
    let p := initializeLintPlugins Issue capturedStack plugins context in
    let t := traceOf handle p s in
    (exists rest,
        filter has_lintSetup plugins = (hooksCalled t ++ rest)%list)
    /\ (forall ev plugin c,
           In ev t -> cmdOf ev = LintSetup plugin c -> c = context)
    /\ match outcomeOf handle p s with
       | Returned _ => hooksCalled t = filter has_lintSetup plugins
       | Threw e' =>
           exists pre e,
             t = (pre ++ [Ev (EmitError
                                (Linter.wrapError capturedStack e))
                             (Threw e')])%list
       end
    /\ (forall pre ev post e,
           t = (pre ++ ev :: post)%list ->
           isHook ev = true ->
           thrownBy ev = Some e ->
           exists r rest,
             post = Ev (EmitError (Linter.wrapError capturedStack e)) r
                       :: rest).
Proof.
  intros s plugins context p t.
  pose proof (@lint_always_run
                _ _ _ _
                (@initializeLintPlugins_SetupRun
                   Issue capturedStack context plugins)
                St handle s) as R.
  destruct (SetupRun_AllSetUp R) as (A & B & C).
  destruct (SetupRun_Reported R) as [_ R2].
  auto.
Qed.

End LintExtras.

(** The plugin that skips the file is given the code that [first]
    returned, not the code read: the hook before [first] threw and the
    plugin for [.ts] files was passed over. *)
Lemma lint_onLoad_threads_the_code_witness :
  "/src/App.tsx" = "/src/App.tsx"
  /\ "<p>first</p>"
     = LintFacts.codeAfter
         (firstn 3 (LintEffects.traceOf LintDemo.answer LintDemo.loading
                                        tt))
         "<Trans>ignored</Trans>"
  /\ In LintDemo.skipper LintDemo.plugins
  /\ @LintPlugins.shouldRunLintPluginForFile Demo.externals
                                             LintDemo.skipper "/src/App.tsx"
     && LintPlugins.has_lintOnLoad LintDemo.skipper = true.
Proof.
  exact (proj1 (@lint_onLoad_threads_the_code
                  Demo.externals Linter.LintIssue LintDemo.noStack unit
                  LintDemo.answer tt "<Trans>ignored</Trans>"
                  "/src/App.tsx" LintDemo.plugins)
               (firstn 3 (LintEffects.traceOf LintDemo.answer
                                              LintDemo.loading tt))
               (@LintEffects.Ev
                  Linter.LintIssue
                  (LintEffects.LintOnLoad LintDemo.skipper "<p>first</p>"
                                          "/src/App.tsx")
                  (Returned JNull))
               [] LintDemo.skipper "<p>first</p>" "/src/App.tsx"
               eq_refl eq_refl).
Defined.

(** The hook that throws is followed by [emit] with the wrapped error. *)
Lemma lint_onLoad_outlives_failing_hooks_witness :
  exists r rest,
    skipn 1 (LintEffects.traceOf LintDemo.answer LintDemo.loading tt)
    = @LintEffects.Ev
        Linter.LintIssue
        (LintEffects.EmitError
           (Linter.wrapError LintDemo.noStack (LintDemo.boom "load")))
        r
        :: rest.
Proof.
  exact (proj2 (proj2 (proj2
           (@lint_onLoad_outlives_failing_hooks
              Demo.externals Linter.LintIssue LintDemo.noStack unit
              LintDemo.answer tt "<Trans>ignored</Trans>"
              "/src/App.tsx" LintDemo.plugins)))
           []
           (@LintEffects.Ev
              Linter.LintIssue
              (LintEffects.LintOnLoad LintDemo.throwing
                                      "<Trans>ignored</Trans>"
                                      "/src/App.tsx")
              (Threw (LintDemo.boom "load")))
           (skipn 1 (LintEffects.traceOf LintDemo.answer LintDemo.loading
                                         tt))
           (LintDemo.boom "load") eq_refl eq_refl eq_refl).
Defined.

(** The hook of [first] is given the issues as they were: the hook before
    it threw. *)
Lemma lint_onResult_threads_the_issues_witness :
  "/src/App.tsx" = "/src/App.tsx"
  /\ [] = LintFacts.issuesAfter
            (firstn 2 (LintEffects.traceOf LintDemo.answer
                                           LintDemo.posting tt))
            (@nil Linter.LintIssue)
  /\ In LintDemo.first LintDemo.plugins
  /\ @LintPlugins.shouldRunLintPluginForFile Demo.externals
                                             LintDemo.first "/src/App.tsx"
     && LintPlugins.has_lintOnResult LintDemo.first = true.
Proof.
  exact (proj1 (@lint_onResult_threads_the_issues
                  Demo.externals Linter.LintIssue LintDemo.noStack unit
                  LintDemo.answer tt "/src/App.tsx" [] LintDemo.plugins)
               (firstn 2 (LintEffects.traceOf LintDemo.answer
                                              LintDemo.posting tt))
               (@LintEffects.Ev
                  Linter.LintIssue
                  (LintEffects.LintOnResult LintDemo.first "/src/App.tsx"
                                            [])
                  (Returned (Some [LintDemo.synthetic])))
               [] LintDemo.first "/src/App.tsx" [] eq_refl eq_refl).
Defined.

(** The setup that throws is reported, and the next plugin is set up. *)
Lemma lint_setup_reaches_every_plugin_witness :
  exists r rest,
    skipn 1 (LintEffects.traceOf LintDemo.answer LintDemo.setting tt)
    = @LintEffects.Ev
        Linter.LintIssue
        (LintEffects.EmitError
           (Linter.wrapError LintDemo.noStack (LintDemo.boom "setup")))
        r
        :: rest.
Proof.
  exact (proj2 (proj2 (proj2
           (@lint_setup_reaches_every_plugin
              Linter.LintIssue LintDemo.noStack unit LintDemo.answer tt
              LintDemo.plugins LintDemo.context)))
           []
           (@LintEffects.Ev
              Linter.LintIssue
              (LintEffects.LintSetup LintDemo.throwing LintDemo.context)
              (Threw (LintDemo.boom "setup")))
           (skipn 1 (LintEffects.traceOf LintDemo.answer LintDemo.setting
                                         tt))
           (LintDemo.boom "setup") eq_refl eq_refl eq_refl).
Defined.
